(** * seasocks: the per-connection protocol engine (src/main/c/Connection.cpp)

    A shallow embedding of [seasocks::Connection]: the byte buffers, the
    non-blocking write path, the Hixie and Hybi WebSocket handshakes and
    frame handling, header processing and HTTP range normalisation.

    Conventions.
    - A byte is an [ascii]; a buffer ([std::vector<uint8_t>], [std::string],
      a [const void*] with its size) is a [list ascii].
    - A [const char*] is the buffer it points into; what a C string function
      sees of it is [c_str]: the bytes before the first NUL.
    - Machine integers are [Z] with the wrap-around written out
      ([to_int], [to_uint32], [to_size_t]).
    - The socket, the clock and the server object are the environment: they
      are consulted through oracles indexed by a call counter ([tick]), and
      what the program does to them is recorded in the connection ([wire],
      [logged], [events]).
    - A WebSocketHandler is an observer: what it is called with is recorded
      in [events]; what it calls back (send, close) is a call of its own.
    - A function that may not return (a loop on a decoder that does not
      advance) or that is run on fuel gives an [option]; [None] is never a
      result of the program. *)

From Stdlib Require Import String Ascii ZArith List Bool Lia.
Import ListNotations.

Local Open Scope Z_scope.

(** ** Bytes, C strings and machine integers *)

Definition bytes : Type := list ascii.

Definition lit (s : string) : bytes := list_ascii_of_string s.

Definition byte_val (c : ascii) : Z := Z.of_N (N_of_ascii c).

Definition byte_of (z : Z) : ascii := ascii_of_N (Z.to_N (z mod 256)).

Definition NUL : ascii := "000"%char.
Definition CR : ascii := "013"%char.
Definition LF : ascii := "010"%char.
Definition crlf : bytes := [CR; LF].

Definition size (l : bytes) : Z := Z.of_nat (length l).

(** The bytes a C string function reads from a pointer: up to the first NUL. *)
Fixpoint c_str (p : bytes) : bytes :=
  match p with
  | [] => []
  | c :: rest => if Ascii.eqb c NUL then [] else c :: c_str rest
  end.

Definition strlen (p : bytes) : Z := size (c_str p).

Definition to_uint32 (z : Z) : Z := z mod 2 ^ 32.
Definition to_size_t (z : Z) : Z := z mod 2 ^ 64.

(** Conversion to [int] (32 bits, two's complement). *)
Definition to_int (z : Z) : Z := (z + 2 ^ 31) mod 2 ^ 32 - 2 ^ 31.

Definition INT_MAX : Z := 2 ^ 31 - 1.
Definition LONG_MAX : Z := 2 ^ 63 - 1.
Definition LONG_MIN : Z := - 2 ^ 63.

(** Constants of the anonymous namespace. *)
Definition MaxBufferSize : Z := 16 * 1024 * 1024.
Definition ReadWriteBufferSize : Z := 16 * 1024.
Definition MaxWebsocketMessageSize : Z := 16384.
Definition MaxHeadersSize : Z := 64 * 1024.

(** ** The connection *)

Inductive State :=
| READING_HEADERS
| READING_WEBSOCKET_KEY3
| HANDLING_HIXIE_WEBSOCKET
| HANDLING_HYBI_WEBSOCKET
| BUFFERING_POST_DATA.

Inductive Level := DEBUG | ACCESS | INFO | WARNING | ERROR.

(** A handler is known by the identity the server gave it. *)
Definition Handler := nat.

(** What a [WebSocketHandler] is called with. *)
Inductive HandlerEvent :=
| OnConnect (h : Handler)
| OnDataText (h : Handler) (message : bytes)
| OnDataBinary (h : Handler) (message : bytes)
| OnDisconnect (h : Handler).

Inductive Verb := Invalid | WebSocket | Get | Put | Post | Delete.

(** A PageRequest: what the connection constructs it from, and the body
    bytes gathered so far. *)
Record Request := mkRequest {
  reqUri : bytes;
  reqVerb : Verb;
  reqContentLength : Z;
  reqHeaders : list (bytes * bytes);
  reqContent : bytes
}.

Record Connection := mkConnection {
  fd : Z;
  shutdown : bool;
  hadSendError : bool;
  closeOnEmpty : bool;
  registeredForWriteEvents : bool;
  bytesSent : Z;
  bytesReceived : Z;
  shutdownByUser : bool;
  state : State;
  inBuf : bytes;
  outBuf : bytes;
  webSocketKeys : Z * Z;
  hixieExtraHeaders : bytes;
  requestUri : bytes;
  request : option Request;
  webSocketHandler : option Handler;
  (* the environment as the connection has left it *)
  wire : bytes;                      (* every byte ::send accepted, in order *)
  logged : list (Level * string);    (* log lines, oldest first *)
  events : list HandlerEvent;        (* handler callbacks, oldest first *)
  tick : nat                         (* environment calls made so far *)
}.

(** Connection::Connection *)
Definition newConnection (fd0 : Z) : Connection :=
  mkConnection fd0 false false false false 0 0 false READING_HEADERS
               [] [] (0, 0) [] [] None None [] [] [] 0%nat.

Definition set_shutdown (v : bool) (c : Connection) : Connection :=
  mkConnection (fd c) v (hadSendError c) (closeOnEmpty c)
    (registeredForWriteEvents c) (bytesSent c) (bytesReceived c)
    (shutdownByUser c) (state c) (inBuf c) (outBuf c) (webSocketKeys c)
    (hixieExtraHeaders c) (requestUri c) (request c) (webSocketHandler c)
    (wire c) (logged c) (events c) (tick c).

Definition set_closeOnEmpty (v : bool) (c : Connection) : Connection :=
  mkConnection (fd c) (shutdown c) (hadSendError c) v
    (registeredForWriteEvents c) (bytesSent c) (bytesReceived c)
    (shutdownByUser c) (state c) (inBuf c) (outBuf c) (webSocketKeys c)
    (hixieExtraHeaders c) (requestUri c) (request c) (webSocketHandler c)
    (wire c) (logged c) (events c) (tick c).

Definition set_registeredForWriteEvents (v : bool) (c : Connection) : Connection :=
  mkConnection (fd c) (shutdown c) (hadSendError c) (closeOnEmpty c)
    v (bytesSent c) (bytesReceived c)
    (shutdownByUser c) (state c) (inBuf c) (outBuf c) (webSocketKeys c)
    (hixieExtraHeaders c) (requestUri c) (request c) (webSocketHandler c)
    (wire c) (logged c) (events c) (tick c).

Definition set_bytesSent (v : Z) (c : Connection) : Connection :=
  mkConnection (fd c) (shutdown c) (hadSendError c) (closeOnEmpty c)
    (registeredForWriteEvents c) v (bytesReceived c)
    (shutdownByUser c) (state c) (inBuf c) (outBuf c) (webSocketKeys c)
    (hixieExtraHeaders c) (requestUri c) (request c) (webSocketHandler c)
    (wire c) (logged c) (events c) (tick c).

Definition set_bytesReceived (v : Z) (c : Connection) : Connection :=
  mkConnection (fd c) (shutdown c) (hadSendError c) (closeOnEmpty c)
    (registeredForWriteEvents c) (bytesSent c) v
    (shutdownByUser c) (state c) (inBuf c) (outBuf c) (webSocketKeys c)
    (hixieExtraHeaders c) (requestUri c) (request c) (webSocketHandler c)
    (wire c) (logged c) (events c) (tick c).

Definition set_shutdownByUser (v : bool) (c : Connection) : Connection :=
  mkConnection (fd c) (shutdown c) (hadSendError c) (closeOnEmpty c)
    (registeredForWriteEvents c) (bytesSent c) (bytesReceived c)
    v (state c) (inBuf c) (outBuf c) (webSocketKeys c)
    (hixieExtraHeaders c) (requestUri c) (request c) (webSocketHandler c)
    (wire c) (logged c) (events c) (tick c).

Definition set_state (v : State) (c : Connection) : Connection :=
  mkConnection (fd c) (shutdown c) (hadSendError c) (closeOnEmpty c)
    (registeredForWriteEvents c) (bytesSent c) (bytesReceived c)
    (shutdownByUser c) v (inBuf c) (outBuf c) (webSocketKeys c)
    (hixieExtraHeaders c) (requestUri c) (request c) (webSocketHandler c)
    (wire c) (logged c) (events c) (tick c).

Definition set_inBuf (v : bytes) (c : Connection) : Connection :=
  mkConnection (fd c) (shutdown c) (hadSendError c) (closeOnEmpty c)
    (registeredForWriteEvents c) (bytesSent c) (bytesReceived c)
    (shutdownByUser c) (state c) v (outBuf c) (webSocketKeys c)
    (hixieExtraHeaders c) (requestUri c) (request c) (webSocketHandler c)
    (wire c) (logged c) (events c) (tick c).

Definition set_outBuf (v : bytes) (c : Connection) : Connection :=
  mkConnection (fd c) (shutdown c) (hadSendError c) (closeOnEmpty c)
    (registeredForWriteEvents c) (bytesSent c) (bytesReceived c)
    (shutdownByUser c) (state c) (inBuf c) v (webSocketKeys c)
    (hixieExtraHeaders c) (requestUri c) (request c) (webSocketHandler c)
    (wire c) (logged c) (events c) (tick c).

Definition set_webSocketKeys (v : Z * Z) (c : Connection) : Connection :=
  mkConnection (fd c) (shutdown c) (hadSendError c) (closeOnEmpty c)
    (registeredForWriteEvents c) (bytesSent c) (bytesReceived c)
    (shutdownByUser c) (state c) (inBuf c) (outBuf c) v
    (hixieExtraHeaders c) (requestUri c) (request c) (webSocketHandler c)
    (wire c) (logged c) (events c) (tick c).

Definition set_hixieExtraHeaders (v : bytes) (c : Connection) : Connection :=
  mkConnection (fd c) (shutdown c) (hadSendError c) (closeOnEmpty c)
    (registeredForWriteEvents c) (bytesSent c) (bytesReceived c)
    (shutdownByUser c) (state c) (inBuf c) (outBuf c) (webSocketKeys c)
    v (requestUri c) (request c) (webSocketHandler c)
    (wire c) (logged c) (events c) (tick c).

Definition set_requestUri (v : bytes) (c : Connection) : Connection :=
  mkConnection (fd c) (shutdown c) (hadSendError c) (closeOnEmpty c)
    (registeredForWriteEvents c) (bytesSent c) (bytesReceived c)
    (shutdownByUser c) (state c) (inBuf c) (outBuf c) (webSocketKeys c)
    (hixieExtraHeaders c) v (request c) (webSocketHandler c)
    (wire c) (logged c) (events c) (tick c).

Definition set_request (v : option Request) (c : Connection) : Connection :=
  mkConnection (fd c) (shutdown c) (hadSendError c) (closeOnEmpty c)
    (registeredForWriteEvents c) (bytesSent c) (bytesReceived c)
    (shutdownByUser c) (state c) (inBuf c) (outBuf c) (webSocketKeys c)
    (hixieExtraHeaders c) (requestUri c) v (webSocketHandler c)
    (wire c) (logged c) (events c) (tick c).

Definition set_webSocketHandler (v : option Handler) (c : Connection) : Connection :=
  mkConnection (fd c) (shutdown c) (hadSendError c) (closeOnEmpty c)
    (registeredForWriteEvents c) (bytesSent c) (bytesReceived c)
    (shutdownByUser c) (state c) (inBuf c) (outBuf c) (webSocketKeys c)
    (hixieExtraHeaders c) (requestUri c) (request c) v
    (wire c) (logged c) (events c) (tick c).

Definition set_wire (v : bytes) (c : Connection) : Connection :=
  mkConnection (fd c) (shutdown c) (hadSendError c) (closeOnEmpty c)
    (registeredForWriteEvents c) (bytesSent c) (bytesReceived c)
    (shutdownByUser c) (state c) (inBuf c) (outBuf c) (webSocketKeys c)
    (hixieExtraHeaders c) (requestUri c) (request c) (webSocketHandler c)
    v (logged c) (events c) (tick c).

Definition log (lvl : Level) (msg : string) (c : Connection) : Connection :=
  mkConnection (fd c) (shutdown c) (hadSendError c) (closeOnEmpty c)
    (registeredForWriteEvents c) (bytesSent c) (bytesReceived c)
    (shutdownByUser c) (state c) (inBuf c) (outBuf c) (webSocketKeys c)
    (hixieExtraHeaders c) (requestUri c) (request c) (webSocketHandler c)
    (wire c) (logged c ++ [(lvl, msg)]) (events c) (tick c).

Definition notify (e : HandlerEvent) (c : Connection) : Connection :=
  mkConnection (fd c) (shutdown c) (hadSendError c) (closeOnEmpty c)
    (registeredForWriteEvents c) (bytesSent c) (bytesReceived c)
    (shutdownByUser c) (state c) (inBuf c) (outBuf c) (webSocketKeys c)
    (hixieExtraHeaders c) (requestUri c) (request c) (webSocketHandler c)
    (wire c) (logged c) (events c ++ [e]) (tick c).

Definition next_tick (c : Connection) : Connection :=
  mkConnection (fd c) (shutdown c) (hadSendError c) (closeOnEmpty c)
    (registeredForWriteEvents c) (bytesSent c) (bytesReceived c)
    (shutdownByUser c) (state c) (inBuf c) (outBuf c) (webSocketKeys c)
    (hixieExtraHeaders c) (requestUri c) (request c) (webSocketHandler c)
    (wire c) (logged c) (events c) (S (tick c)).

(** ** The environment *)

(** What the kernel answers to one [::send]: it takes up to [room] bytes, or
    the socket is full ([EAGAIN]/[EWOULDBLOCK]), or the call fails. *)
Inductive SendOutcome :=
| Accepted (room : N)
| WouldBlock
| SendFailed.

(** Linux transfers at most [MAX_RW_COUNT] bytes in one call, so the value of
    [::send] fits the [int] it is stored in. *)
Definition MAX_RW_COUNT : Z := 2147479552.

Definition os_send (o : SendOutcome) (sz : Z) : Z :=
  match o with
  | Accepted room => Z.min (Z.min (Z.of_N room) sz) MAX_RW_COUNT
  | WouldBlock => -1
  | SendFailed => -1
  end.

Definition is_eagain (o : SendOutcome) : bool :=
  match o with WouldBlock => true | _ => false end.

Record Environment := mkEnvironment {
  sock_send : nat -> SendOutcome;       (* ::send *)
  sock_shutdown : nat -> bool;          (* ::shutdown succeeded *)
  subscribeToWriteEvents : nat -> bool;
  unsubscribeFromWriteEvents : nat -> bool;
  clock : nat -> bytes                  (* now(), already formatted *)
}.

(** ** A state monad over the connection *)

Definition M (A : Type) : Type := Connection -> A * Connection.

Definition ret {A} (a : A) : M A := fun c => (a, c).

Definition bind {A B} (m : M A) (k : A -> M B) : M B :=
  fun c => let (a, c') := m c in k a c'.

Definition modify (f : Connection -> Connection) : M unit :=
  fun c => (tt, f c).

Definition gets {A} (f : Connection -> A) : M A := fun c => (f c, c).

Definition exec {A} (m : M A) (c : Connection) : Connection := snd (m c).

Declare Scope conn_scope.
Delimit Scope conn_scope with conn.
Notation "x <- m ;; k" := (bind m (fun x => k))
  (at level 61, m at next level, right associativity) : conn_scope.
Notation "m ;; k" := (bind m (fun _ => k))
  (at level 61, right associativity) : conn_scope.
Local Open Scope conn_scope.

Section Engine.

Variable env : Environment.

(** Connection::closed *)
Definition closed (c : Connection) : bool :=
  (fd c =? -1) || shutdown c.

(** Connection::closeInternal *)
Definition closeInternal : M unit :=
  fun c =>
    let c1 :=
      if negb (fd c =? -1) && negb (shutdown c) then
        if sock_shutdown env (tick c)
        then next_tick c
        else log WARNING "Unable to shutdown socket" (next_tick c)
      else c in
    (tt, set_shutdown true c1).

(** Connection::close *)
Definition close : M unit :=
  modify (set_shutdownByUser true) ;;
  closeInternal.

(** Connection::closeWhenEmpty *)
Definition closeWhenEmpty : M unit :=
  fun c =>
    match outBuf c with
    | [] => closeInternal c
    | _ => (tt, set_closeOnEmpty true c)
    end.

(** Connection::safeSend.  The result is the [int] the function returns. *)
Definition safeSend (data : bytes) : M Z :=
  fun c =>
    if (fd c =? -1) || hadSendError c || shutdown c then (-1, c)
    else
      let o := sock_send env (tick c) in
      let c := next_tick c in
      let sendResult := to_int (os_send o (size data)) in
      if sendResult =? -1 then
        if is_eagain o then (0, c)
        else
          (_ <- modify (log WARNING "Unable to write to socket") ;;
           _ <- closeInternal ;;
           ret sendResult) c
      else
        (sendResult,
         set_bytesSent (to_size_t (bytesSent c + sendResult))
           (set_wire (wire c ++ firstn (Z.to_nat sendResult) data) c)).

(** Connection::flush *)
Definition flush : M bool :=
  fun c =>
    match outBuf c with
    | [] => (true, c)
    | _ =>
      let (numSent, c) := safeSend (outBuf c) c in
      if numSent =? -1 then (false, c)
      else
        let c := set_outBuf (skipn (Z.to_nat numSent) (outBuf c)) c in
        let (ok, c) :=
          if (0 <? size (outBuf c)) && negb (registeredForWriteEvents c) then
            if subscribeToWriteEvents env (tick c)
            then (true, set_registeredForWriteEvents true (next_tick c))
            else (false, next_tick c)
          else if (size (outBuf c) =? 0) && registeredForWriteEvents c then
            if unsubscribeFromWriteEvents env (tick c)
            then (true, set_registeredForWriteEvents false (next_tick c))
            else (false, next_tick c)
          else (true, c) in
        if negb ok then (false, c)
        else if (size (outBuf c) =? 0) && negb (closed c) && closeOnEmpty c
        then (_ <- modify (log DEBUG "Ready for close, now empty") ;;
              _ <- closeInternal ;;
              ret true) c
        else (true, c)
    end.

Definition is_empty (l : bytes) : bool :=
  match l with [] => true | _ => false end.

(** Connection::write.  [sent] is the local [bytesSent]; it stays 0 when the
    fast path is not taken. *)
Definition write (data : bytes) (flushIt : bool) : M bool :=
  fun c =>
    if closed c || closeOnEmpty c then (false, c)
    else if size data =? 0 then
      if flushIt then flush c else (true, c)
    else
      let fast := is_empty (outBuf c) && flushIt in
      let (sent, c) := if fast then safeSend data c else (0, c) in
      if fast && (sent =? to_int (size data)) then (true, c)
      else if fast && (sent =? -1) then (false, c)
      else
        let bytesToBuffer := to_size_t (size data - sent) in
        let endOfBuffer := size (outBuf c) in
        let newBufferSize := to_size_t (endOfBuffer + bytesToBuffer) in
        if MaxBufferSize <=? newBufferSize then
          (_ <- modify (log WARNING "Closing connection: buffer size too large") ;;
           _ <- closeInternal ;;
           ret false) c
        else
          let c :=
            set_outBuf (outBuf c ++ firstn (Z.to_nat bytesToBuffer)
                                      (skipn (Z.to_nat sent) data)) c in
          if flushIt then flush c else (true, c).

(** Connection::bufferLine, the overload taking a C string: two writes. *)
Definition bufferLine_cstr (line : bytes) : M bool :=
  ok <- write (c_str line) false ;;
  if negb ok then ret false else write crlf false.

(** Connection::bufferLine, the overload taking a std::string: one write. *)
Definition bufferLine (line : bytes) : M bool :=
  write (line ++ crlf) false.

(** Modelled from the spec: the opcodes of internal/HybiPacketDecoder.h,
    which is not among the sources; "Opcodes used: TEXT (0x1), BINARY (0x2),
    CLOSE (0x8), PING (0x9), PONG (0xA)". *)
Definition OPCODE_TEXT : Z := 1.
Definition OPCODE_BINARY : Z := 2.
Definition OPCODE_CLOSE : Z := 8.
Definition OPCODE_PING : Z := 9.
Definition OPCODE_PONG : Z := 10.

(** [n] as [k] bytes, most significant first (htons, htonl, __bswap_64 on a
    little-endian host, then the bytes in memory order). *)
Fixpoint big_endian (k : nat) (n : Z) : bytes :=
  match k with
  | O => []
  | S k' => byte_of (Z.shiftr n (8 * Z.of_nat k')) :: big_endian k' n
  end.

(** Connection::sendHybi *)
Definition sendHybi (opcode : Z) (webSocketResponse : bytes) : M unit :=
  let messageLength := size webSocketResponse in
  let firstByte := byte_of (Z.lor 128 opcode) in
  ok <- write [firstByte] false ;;
  if negb ok then ret tt else
  ok <- (if messageLength <? 126 then
           write [byte_of messageLength] false
         else if messageLength <? 65536 then
           ok <- write [byte_of 126] false ;;
           if negb ok then ret false
           else write (big_endian 2 messageLength) false
         else
           ok <- write [byte_of 127] false ;;
           if negb ok then ret false
           else write (big_endian 8 messageLength) false) ;;
  if negb ok then ret tt else
  _ <- write webSocketResponse true ;;
  ret tt.

Definition state_eqb (a b : State) : bool :=
  match a, b with
  | READING_HEADERS, READING_HEADERS
  | READING_WEBSOCKET_KEY3, READING_WEBSOCKET_KEY3
  | HANDLING_HIXIE_WEBSOCKET, HANDLING_HIXIE_WEBSOCKET
  | HANDLING_HYBI_WEBSOCKET, HANDLING_HYBI_WEBSOCKET
  | BUFFERING_POST_DATA, BUFFERING_POST_DATA => true
  | _, _ => false
  end.

(** Connection::send, the overload taking a C string (a text message). *)
Definition send_text (webSocketResponse : bytes) : M unit :=
  fun c =>
    if shutdown c then
      if shutdownByUser c
      then (tt, log ERROR "Server wrote to connection after closing it" c)
      else (tt, c)
    else if state_eqb (state c) HANDLING_HIXIE_WEBSOCKET then
      (ok <- write [byte_of 0] false ;;
       if negb ok then ret tt else
       ok <- write (c_str webSocketResponse) false ;;
       if negb ok then ret tt else
       _ <- write [byte_of 255] true ;;
       ret tt) c
    else sendHybi OPCODE_TEXT (c_str webSocketResponse) c.

(** Connection::send, the overload taking bytes and a length (binary). *)
Definition send_binary (data : bytes) : M unit :=
  fun c =>
    if shutdown c then
      if shutdownByUser c
      then (tt, log ERROR "Client wrote to connection after closing it" c)
      else (tt, c)
    else if state_eqb (state c) HANDLING_HIXIE_WEBSOCKET then
      (tt, log ERROR "Hixie does not support binary" c)
    else sendHybi OPCODE_BINARY data c.

(** Connection::handleDataReadyForWrite *)
Definition handleDataReadyForWrite : M unit :=
  fun c => if closed c then (tt, c) else (tt, snd (flush c)).

(** ** Character and string helpers *)

Definition is_digit (c : ascii) : bool :=
  (byte_val "0" <=? byte_val c) && (byte_val c <=? byte_val "9").

(** isspace in the C locale: space, \t, \n, \v, \f, \r. *)
Definition isspace (c : ascii) : bool :=
  (byte_val c =? 32) || ((9 <=? byte_val c) && (byte_val c <=? 13)).

(** tolower in the C locale. *)
Definition tolower (c : ascii) : ascii :=
  if (65 <=? byte_val c) && (byte_val c <=? 90) then byte_of (byte_val c + 32) else c.

Fixpoint bytes_eqb (a b : bytes) : bool :=
  match a, b with
  | [], [] => true
  | x :: a', y :: b' => Ascii.eqb x y && bytes_eqb a' b'
  | _, _ => false
  end.

(** strcmp(a, b) == 0 *)
Definition strcmp_eq (a b : bytes) : bool := bytes_eqb (c_str a) (c_str b).

(** strcasecmp(a, b) == 0 *)
Definition strcasecmp_eq (a b : bytes) : bool :=
  bytes_eqb (map tolower (c_str a)) (map tolower (c_str b)).

(** The decimal digits at the front of [s], folded onto [acc]. *)
Fixpoint digits_value (s : bytes) (acc : Z) : Z :=
  match s with
  | c :: rest =>
    if is_digit c then digits_value rest (acc * 10 + (byte_val c - 48)) else acc
  | [] => acc
  end.

Fixpoint skip_while (f : ascii -> bool) (s : bytes) : bytes :=
  match s with
  | c :: rest => if f c then skip_while f rest else s
  | [] => []
  end.

Definition clamp_long (z : Z) : Z := Z.max LONG_MIN (Z.min LONG_MAX z).

(** strtol(s, NULL, 10) of the C library: leading white space, an optional
    sign, then digits; out-of-range values saturate. *)
Definition strtol (s : bytes) : Z :=
  match skip_while isspace s with
  | "-"%char :: rest => clamp_long (- digits_value rest 0)
  | "+"%char :: rest => clamp_long (digits_value rest 0)
  | rest => clamp_long (digits_value rest 0)
  end.

(** atoi of the C library, as glibc has it: strtol converted to int. *)
Definition atoi (s : bytes) : Z := to_int (strtol s).

(** The decimal digits of a non-negative number, most significant first. *)
Fixpoint digits_of (fuel : nat) (n : Z) (acc : bytes) : bytes :=
  match fuel with
  | O => acc
  | S fuel' =>
    let acc' := byte_of (48 + n mod 10) :: acc in
    if n <? 10 then acc' else digits_of fuel' (n / 10) acc'
  end.

(** Modelled from the spec: toString of seasocks/ToString.h is not among
    the sources; status codes, lengths and range bounds are written in
    decimal, with a minus sign when negative.  The stream insertion of a
    long in processRangesForStaticData writes the same. *)
Definition toString (z : Z) : bytes :=
  if z <? 0
  then "-"%char :: digits_of (S (Z.to_nat (Z.log2 (- z)))) (- z) []
  else digits_of (S (Z.to_nat (Z.log2 z))) z [].

(** std::string::find(ch): the index of the first occurrence. *)
Fixpoint find_char (ch : ascii) (s : bytes) : option nat :=
  match s with
  | [] => None
  | c :: rest =>
    if Ascii.eqb c ch then Some O
    else match find_char ch rest with Some i => Some (S i) | None => None end
  end.

(** std::string::find_last_of(ch) *)
Fixpoint find_last_of (ch : ascii) (s : bytes) : option nat :=
  match s with
  | [] => None
  | c :: rest =>
    match find_last_of ch rest with
    | Some i => Some (S i)
    | None => if Ascii.eqb c ch then Some O else None
    end
  end.

(** Modelled from the spec: skipWhitespace of seasocks/StringUtil.h is not
    among the sources; "the value is trimmed of leading whitespace". *)
Definition skipWhitespace (s : bytes) : bytes := skip_while isspace s.

Fixpoint take_while (f : ascii -> bool) (s : bytes) : bytes :=
  match s with
  | c :: rest => if f c then c :: take_while f rest else []
  | [] => []
  end.

(** Modelled from the spec: shift of seasocks/StringUtil.h is not among the
    sources; it "splits the request line into whitespace-separated tokens".
    Applied to the C string at [str] it skips leading white space; when
    nothing is left there is no token; otherwise the token is the run of
    non-space characters, the character ending it (if any) is overwritten
    with NUL, and [str] moves past it.  The result is the token and the new
    [str]. *)
Definition shift (str : bytes) : option bytes * bytes :=
  let startOfWord := skipWhitespace (c_str str) in
  match startOfWord with
  | [] => (None, [])
  | _ =>
    let word := take_while (fun c => negb (isspace c)) startOfWord in
    let endOfWord := skip_while (fun c => negb (isspace c)) startOfWord in
    (Some word, match endOfWord with [] => [] | _ :: rest => rest end)
  end.

(** Modelled from the spec: split of seasocks/StringUtil.h is not among the
    sources; "the list is comma-separated".  An empty input has no pieces;
    otherwise there is one piece more than there are separators. *)
Fixpoint split_nonempty (s : bytes) (ch : ascii) (cur : bytes) : list bytes :=
  match s with
  | [] => [rev cur]
  | c :: rest =>
    if Ascii.eqb c ch then rev cur :: split_nonempty rest ch []
    else split_nonempty rest ch (c :: cur)
  end.

Definition split (s : bytes) (ch : ascii) : list bytes :=
  match s with
  | [] => []
  | _ => split_nonempty s ch []
  end.

(** Modelled from the spec: Request::verb of seasocks/Request.h is not among
    the sources; "verbs recognised for dispatch: GET, POST, PUT, DELETE". *)
Definition Request_verb (verbText : bytes) : Verb :=
  if strcmp_eq verbText (lit "GET") then Get
  else if strcmp_eq verbText (lit "PUT") then Put
  else if strcmp_eq verbText (lit "POST") then Post
  else if strcmp_eq verbText (lit "DELETE") then Delete
  else Invalid.

Definition verb_eqb (a b : Verb) : bool :=
  match a, b with
  | Invalid, Invalid | WebSocket, WebSocket | Get, Get
  | Put, Put | Post, Post | Delete, Delete => true
  | _, _ => false
  end.

(** ** parseWebSocketKey *)

(** The loop of parseWebSocketKey; both counters are uint32_t.  The pointer
    stops at the terminating NUL. *)
Fixpoint parseWebSocketKey_loop (key : bytes) (keyNumber numSpaces : Z) : Z * Z :=
  match key with
  | [] => (keyNumber, numSpaces)
  | c :: rest =>
    if Ascii.eqb c NUL then (keyNumber, numSpaces)
    else if (byte_val "0" <=? byte_val c) && (byte_val c <=? byte_val "9") then
      parseWebSocketKey_loop rest
        (to_uint32 (to_uint32 (to_uint32 (keyNumber * 10) + byte_val c) - byte_val "0"))
        numSpaces
    else if Ascii.eqb c " " then
      parseWebSocketKey_loop rest keyNumber (to_uint32 (numSpaces + 1))
    else parseWebSocketKey_loop rest keyNumber numSpaces
  end.

Definition parseWebSocketKey (key : bytes) : Z :=
  let (keyNumber, numSpaces) := parseWebSocketKey_loop key 0 0 in
  if 0 <? numSpaces then keyNumber / numSpaces else 0.

(** ** Ranges *)

(** Connection::Range: two long fields. *)
Record Range := mkRange { range_start : Z; range_end : Z }.

(** Modelled from the spec: Range::length of seasocks/Connection.h is not
    among the sources; a range is "a pair (start, end) with the
    inclusive-end convention".  The result is a size_t. *)
Definition Range_length (r : Range) : Z :=
  to_size_t (range_end r - range_start r + 1).

(** std::string::substr(pos, n) and substr(pos) *)
Definition substr (s : bytes) (pos n : nat) : bytes := firstn n (skipn pos s).
Definition substr_from (s : bytes) (pos : nat) : bytes := skipn pos s.

(** Connection::parseRange; [None] is the false result. *)
Definition parseRange (rangeStr : bytes) : option Range :=
  match find_char "-" rangeStr with
  | None => None
  | Some minusPos =>
    if Nat.eqb minusPos 0 then
      Some (mkRange (atoi rangeStr) LONG_MAX)
    else
      let start := atoi (substr rangeStr 0 minusPos) in
      if Nat.eqb minusPos (length rangeStr - 1) then
        Some (mkRange start LONG_MAX)
      else
        Some (mkRange start (atoi (substr_from rangeStr (minusPos + 1))))
  end.

Fixpoint parseRanges_loop (rangesText : list bytes) (ranges : list Range)
  : option (list Range) :=
  match rangesText with
  | [] => Some ranges
  | it :: rest =>
    match parseRange it with
    | None => None
    | Some r => parseRanges_loop rest (ranges ++ [r])
    end
  end.

(** Connection::parseRanges; [None] is the false result, otherwise the
    ranges pushed onto the (initially empty) list. *)
Definition parseRanges (range : bytes) : option (list Range) :=
  let expectedPrefix := lit "bytes=" in
  if (length range <? length expectedPrefix)%nat
     || negb (bytes_eqb (substr range 0 (length expectedPrefix)) expectedPrefix)
  then None
  else
    let rangesText := split (substr_from range (length expectedPrefix)) "," in
    match parseRanges_loop rangesText [] with
    | None => None
    | Some ranges => match ranges with [] => None | _ => Some ranges end
    end.

(** One turn of the loop of processRangesForStaticData. *)
Definition normaliseRange (fileSize : Z) (r : Range) : Range :=
  let actualRange := r in
  let actualRange :=
    if range_start actualRange <? 0
    then mkRange (range_start actualRange + fileSize) (range_end actualRange)
    else actualRange in
  let actualRange :=
    if fileSize <=? range_start actualRange
    then mkRange (fileSize - 1) (range_end actualRange)
    else actualRange in
  let actualRange :=
    if fileSize <=? range_end actualRange
    then mkRange (range_start actualRange) (fileSize - 1)
    else actualRange in
  actualRange.

(** The loop of processRangesForStaticData over [origRanges]: the int
    [contentLength], the text of [rangeLine] and [sendRanges]. *)
Fixpoint rangesLoop (fileSize : Z) (origRanges : list Range)
    (contentLength : Z) (rangeLine : bytes) (sendRanges : list Range)
  : Z * bytes * list Range :=
  match origRanges with
  | [] => (contentLength, rangeLine, sendRanges)
  | r :: rest =>
    let actualRange := normaliseRange fileSize r in
    rangesLoop fileSize rest
      (to_int (to_size_t (contentLength + Range_length actualRange)))
      (rangeLine ++ toString (range_start actualRange) ++ lit "-"
                 ++ toString (range_end actualRange))
      (sendRanges ++ [actualRange])
  end.

(** ** Content types *)

Definition contentTypes : list (string * string) :=
  [ ("txt", "text/plain"); ("css", "text/css"); ("csv", "text/csv");
    ("htm", "text/html"); ("html", "text/html"); ("xml", "text/xml");
    ("js", "text/javascript"); ("xhtml", "application/xhtml+xml");
    ("json", "application/json"); ("pdf", "application/pdf");
    ("zip", "application/zip"); ("tar", "application/x-tar");
    ("gif", "image/gif"); ("jpeg", "image/jpeg"); ("jpg", "image/jpeg");
    ("tiff", "image/tiff"); ("tif", "image/tiff"); ("png", "image/png");
    ("svg", "image/svg+xml"); ("ico", "image/x-icon");
    ("swf", "application/x-shockwave-flash"); ("mp3", "audio/mpeg");
    ("wav", "audio/x-wav"); ("ttf", "font/ttf") ]%string.

Definition getExt (path : bytes) : bytes :=
  match find_last_of "." path with
  | Some lastDot => substr_from path (lastDot + 1)
  | None => []
  end.

Fixpoint lookup_type (ext : bytes) (table : list (string * string)) : option bytes :=
  match table with
  | [] => None
  | (k, v) :: rest => if bytes_eqb ext (lit k) then Some (lit v) else lookup_type ext rest
  end.

Definition getContentType (path : bytes) : bytes :=
  match lookup_type (getExt path) contentTypes with
  | Some t => t
  | None => lit "text/html"
  end.

Definition isCacheable (path : bytes) : bool :=
  let extension := getExt path in
  bytes_eqb extension (lit "mp3") || bytes_eqb extension (lit "wav").

(** ** Collaborators *)

(** Modelled from the spec: the ResponseCode values the connection uses
    (seasocks/ResponseCode.h is not among the sources), by their numbers:
    101, 200, 206, 400, 404, 500 and 501. *)
Definition WebSocketProtocolHandshake : Z := 101.
Definition Ok : Z := 200.
Definition PartialContent : Z := 206.
Definition BadRequest : Z := 400.
Definition NotFound : Z := 404.
Definition InternalServerError : Z := 500.
Definition NotImplemented : Z := 501.

Record Response := mkResponse {
  responseCode : Z;
  payload : bytes;
  contentType : bytes;
  keepConnectionAlive : bool;
  getAdditionalHeaders : list (bytes * bytes)
}.

(** What Server::handle gives back: it throws, or returns no response, the
    [Response::unhandled] sentinel, or a response. *)
Inductive HandleResult :=
| Threw (what : option bytes)
| NoResponse
| Unhandled
| Responded (r : Response).

(** What HybiPacketDecoder::decodeNextMessage reports. *)
Inductive MessageState :=
| NoMessage | TextMessage | BinaryMessage | Error | Ping | Close.

Record File := mkFile { file_content : bytes; file_mtime : Z }.

(** Everything the connection calls that is not in Connection.cpp. *)
Record Collaborators := mkCollaborators {
  md5 : bytes -> bytes;                          (* md5_init/append/finish *)
  getAcceptKey : bytes -> bytes;                 (* internal/HybiAccept.h *)
  findEmbeddedContent : bytes -> option bytes;   (* internal/Embedded.h *)
  replace : bytes -> bytes -> bytes -> bytes;    (* StringUtil.h *)
  name : Z -> bytes;                             (* ::name(ResponseCode) *)
  isOk : Z -> bool;
  SEASOCKS_VERSION_STRING : bytes;
  webtime_of : Z -> bytes;                       (* gmtime_r and strftime *)
  (* a HybiPacketDecoder over a buffer: the call made with the decoder at
     message start [pos] yields a state, the decoded message and the new
     message start *)
  decodeNextMessage : bytes -> nat -> MessageState * bytes * nat;
  (* the Server *)
  getStaticPath : bytes;
  isCrossOriginAllowed : bytes -> bool;
  getWebSocketHandler : bytes -> option Handler;
  handle : Request -> HandleResult;
  getStatsDocument : bytes;
  (* the file system: open and fstat *)
  open_file : bytes -> option File
}.

(** Modelled from the spec: PageRequest::getHeader is not among the sources;
    headers are "a case-insensitive mapping from name to value", absent
    headers read as the empty string. *)
Fixpoint lookup_header (headers : list (bytes * bytes)) (key : bytes) : option bytes :=
  match headers with
  | [] => None
  | (k, v) :: rest =>
    if bytes_eqb (map tolower k) (map tolower key) then Some v
    else lookup_header rest key
  end.

Definition getHeader (r : Request) (key : bytes) : bytes :=
  match lookup_header (reqHeaders r) key with Some v => v | None => [] end.

(** allHeaders[key] = value on the unordered_map being filled. *)
Fixpoint headers_insert (headers : list (bytes * bytes)) (key value : bytes)
  : list (bytes * bytes) :=
  match headers with
  | [] => [(key, value)]
  | (k, v) :: rest =>
    if bytes_eqb k key then (k, value) :: rest
    else (k, v) :: headers_insert rest key value
  end.

(** ** Responses *)

(** ** Calls into the write path *)

(** The entry points through which the rest of the engine, the event loop
    and the handlers reach the socket. *)
Inductive Call :=
| CallWrite (data : bytes) (flushIt : bool)
| CallFlush
| CallSafeSend (data : bytes)
| CallSendText (webSocketResponse : bytes)
| CallSendBinary (data : bytes)
| CallClose
| CallCloseInternal
| CallCloseWhenEmpty
| CallReadyForWrite.

Definition call (k : Call) (c : Connection) : Connection :=
  match k with
  | CallWrite data flushIt => snd (write data flushIt c)
  | CallFlush => snd (flush c)
  | CallSafeSend data => snd (safeSend data c)
  | CallSendText webSocketResponse => snd (send_text webSocketResponse c)
  | CallSendBinary data => snd (send_binary data c)
  | CallClose => snd (close c)
  | CallCloseInternal => snd (closeInternal c)
  | CallCloseWhenEmpty => snd (closeWhenEmpty c)
  | CallReadyForWrite => snd (handleDataReadyForWrite c)
  end.

Definition run (calls : list Call) (c : Connection) : Connection :=
  fold_left (fun c k => call k c) calls c.



Variable co : Collaborators.

(** now(): the clock is read once. *)
Definition now : M bytes :=
  fun c => (clock env (tick c), next_tick c).

(** Connection::bufferResponseAndCommonHeaders *)
Definition bufferResponseAndCommonHeaders (code : Z) : M unit :=
  let responseCodeInt := code in
  let responseCodeName := name co code in
  let response :=
    lit "HTTP/1.1 " ++ toString responseCodeInt ++ lit " " ++ responseCodeName in
  _ <- modify (log ACCESS "Response: ") ;;
  _ <- bufferLine response ;;
  _ <- bufferLine_cstr (lit "Server: " ++ SEASOCKS_VERSION_STRING co) ;;
  date <- now ;;
  _ <- bufferLine (lit "Date: " ++ date) ;;
  _ <- bufferLine_cstr (lit "Access-Control-Allow-Origin: *") ;;
  ret tt.

(** The error page of sendError. *)
Definition errorDocument (errorCode : Z) (body : bytes) : bytes :=
  let errorNumber := errorCode in
  let message := name co errorCode in
  match findEmbeddedContent co (lit "/_error.html") with
  | Some errorContent =>
    let document := errorContent in
    let document := replace co document (lit "%%ERRORCODE%%") (toString errorNumber) in
    let document := replace co document (lit "%%MESSAGE%%") message in
    replace co document (lit "%%BODY%%") body
  | None =>
    lit "<html><head><title>" ++ toString errorNumber ++ lit " - " ++ message
      ++ lit "</title></head>"
      ++ lit "<body><h1>" ++ toString errorNumber ++ lit " - " ++ message
      ++ lit "</h1>"
      ++ lit "<div>" ++ body
      ++ lit "</div><hr/><div><i>Powered by seasocks</i></div></body></html>"
  end.

(** Connection::sendError *)
Definition sendError (errorCode : Z) (body : bytes) : M bool :=
  _ <- bufferResponseAndCommonHeaders errorCode ;;
  let document := errorDocument errorCode body in
  _ <- bufferLine (lit "Content-Length: " ++ toString (size document)) ;;
  _ <- bufferLine_cstr (lit "Connection: close") ;;
  _ <- bufferLine_cstr (lit "") ;;
  _ <- bufferLine document ;;
  ok <- flush ;;
  if negb ok then ret false
  else
    _ <- closeWhenEmpty ;;
    ret true.

(** Connection::sendUnsupportedError *)
Definition sendUnsupportedError (reason : bytes) : M bool :=
  sendError NotImplemented reason.

(** Connection::sendBadRequest *)
Definition sendBadRequest (reason : bytes) : M bool :=
  sendError BadRequest reason.

(** Connection::sendISE *)
Definition sendISE (error : bytes) : M bool :=
  sendError InternalServerError error.

(** Connection::sendData *)
Definition sendData (type : bytes) (start : bytes) : M bool :=
  _ <- bufferResponseAndCommonHeaders Ok ;;
  _ <- bufferLine (lit "Content-Type: " ++ type) ;;
  _ <- bufferLine (lit "Content-Length: " ++ toString (size start)) ;;
  _ <- bufferLine_cstr (lit "Connection: keep-alive") ;;
  _ <- bufferLine_cstr (lit "") ;;
  write start true.

(** Connection::send404 *)
Definition send404 (path : bytes) : M bool :=
  match findEmbeddedContent co path with
  | Some embedded => sendData (getContentType path) embedded
  | None =>
    if strcmp_eq path (lit "/_livestats.js") then
      let stats := getStatsDocument co in
      sendData (lit "text/javascript") (c_str stats)
    else
      sendError NotFound (lit "Unable to find resource for: " ++ path)
  end.

(** ** The WebSocket handshakes *)

(** Connection::handleWebSocketKey3 *)
Definition handleWebSocketKey3 : M unit :=
  fun c =>
    if (length (inBuf c) <? 8)%nat then (tt, c)
    else
      let md5Source :=
        big_endian 4 (fst (webSocketKeys c))
        ++ big_endian 4 (snd (webSocketKeys c))
        ++ firstn 8 (inBuf c) in
      let digest := md5 co md5Source in
      (_ <- modify (log DEBUG "Attempting websocket upgrade") ;;
       _ <- bufferResponseAndCommonHeaders WebSocketProtocolHandshake ;;
       _ <- bufferLine_cstr (lit "Upgrade: websocket") ;;
       _ <- bufferLine_cstr (lit "Connection: Upgrade") ;;
       hixieExtraHeaders <- gets hixieExtraHeaders ;;
       _ <- write hixieExtraHeaders false ;;
       _ <- bufferLine_cstr (lit "") ;;
       _ <- write (firstn 16 digest) true ;;
       _ <- modify (set_state HANDLING_HIXIE_WEBSOCKET) ;;
       _ <- modify (fun c => set_inBuf (skipn 8 (inBuf c)) c) ;;
       handler <- gets webSocketHandler ;;
       match handler with
       | Some h => modify (notify (OnConnect h))
       | None => ret tt
       end) c.

(** Connection::handleHybiHandshake *)
Definition handleHybiHandshake (webSocketVersion : Z) (webSocketKey : bytes) : M bool :=
  if negb (webSocketVersion =? 8) && negb (webSocketVersion =? 13) then
    sendBadRequest (lit "Invalid websocket version")
  else
    _ <- modify (log DEBUG "Got a hybi-8 websocket with key=") ;;
    _ <- modify (log DEBUG "Attempting websocket upgrade") ;;
    _ <- bufferResponseAndCommonHeaders WebSocketProtocolHandshake ;;
    _ <- bufferLine_cstr (lit "Upgrade: websocket") ;;
    _ <- bufferLine_cstr (lit "Connection: Upgrade") ;;
    _ <- bufferLine (lit "Sec-WebSocket-Accept: " ++ getAcceptKey co webSocketKey) ;;
    _ <- bufferLine_cstr (lit "") ;;
    _ <- flush ;;
    handler <- gets webSocketHandler ;;
    _ <- match handler with
         | Some h => modify (notify (OnConnect h))
         | None => ret tt
         end ;;
    _ <- modify (set_state HANDLING_HYBI_WEBSOCKET) ;;
    ret true.

(** ** WebSocket frames *)

(** Connection::handleWebSocketTextMessage.  The handler is handed a
    [const char*]: the text it receives is the C string at [message]. *)
Definition handleWebSocketTextMessage (message : bytes) : M unit :=
  _ <- modify (log DEBUG "Got text web socket message: ") ;;
  handler <- gets webSocketHandler ;;
  match handler with
  | Some h => modify (notify (OnDataText h (c_str message)))
  | None => ret tt
  end.

(** Connection::handleWebSocketBinaryMessage *)
Definition handleWebSocketBinaryMessage (message : bytes) : M unit :=
  _ <- modify (log DEBUG "Got binary web socket message") ;;
  handler <- gets webSocketHandler ;;
  match handler with
  | Some h => modify (notify (OnDataBinary h message))
  | None => ret tt
  end.

(** The inner for loop of handleHixieWebSocket, started at index [i] with
    [p] the buffer from there on: the index of the first 0xff, or 0. *)
Fixpoint scan_ff (p : bytes) (i : nat) : nat :=
  match p with
  | [] => 0%nat
  | c :: rest => if Ascii.eqb c (byte_of 255) then i else scan_ff rest (S i)
  end.

(** buf[i] = v, for i within the buffer. *)
Definition store (i : nat) (v : ascii) (buf : bytes) : bytes :=
  firstn i buf ++ v :: skipn (S i) buf.

(** The while loop of handleHixieWebSocket.  The result says whether the
    loop was left normally ([true]) or the function returned from inside it,
    and gives [messageStart].  [None]: out of fuel. *)
Fixpoint hixieLoop (fuel : nat) (messageStart : nat) (c : Connection)
  : option (bool * nat * Connection) :=
  match fuel with
  | O => None
  | S fuel' =>
    if (messageStart <? length (inBuf c))%nat then
      if negb (Ascii.eqb (nth messageStart (inBuf c) NUL) NUL) then
        let c := log WARNING "Error in WebSocket input stream" c in
        Some (false, messageStart, snd (closeInternal c))
      else
        let endOfMessage :=
          scan_ff (skipn (S messageStart) (inBuf c)) (S messageStart) in
        if negb (Nat.eqb endOfMessage 0) then
          let c := set_inBuf (store endOfMessage NUL (inBuf c)) c in
          let c := snd (handleWebSocketTextMessage
                          (skipn (S messageStart) (inBuf c)) c) in
          hixieLoop fuel' (S endOfMessage) c
        else Some (true, messageStart, c)
    else Some (true, messageStart, c)
  end.

(** Connection::handleHixieWebSocket *)
Definition handleHixieWebSocket (c : Connection) : option Connection :=
  match inBuf c with
  | [] => Some c
  | _ =>
    match hixieLoop (S (length (inBuf c))) 0 c with
    | None => None
    | Some (false, _, c) => Some c
    | Some (true, messageStart, c) =>
      let c :=
        if negb (Nat.eqb messageStart 0)
        then set_inBuf (skipn messageStart (inBuf c)) c
        else c in
      if MaxWebsocketMessageSize <? size (inBuf c) then
        Some (snd (closeInternal (log WARNING "WebSocket message too long" c)))
      else Some c
    end
  end.

(** What handleHixieWebSocket does after its loop. *)
Definition hixieFinish (r : option (bool * nat * Connection)) : option Connection :=
  match r with
  | None => None
  | Some (false, _, c) => Some c
  | Some (true, messageStart, c) =>
    let c :=
      if negb (Nat.eqb messageStart 0)
      then set_inBuf (skipn messageStart (inBuf c)) c
      else c in
    if MaxWebsocketMessageSize <? size (inBuf c) then
      Some (snd (closeInternal (log WARNING "WebSocket message too long" c)))
    else Some c
  end.

(** The while loop of handleHybiWebSocket over a decoder on [buf] whose
    message start is [pos]; results as for [hixieLoop], with the decoder's
    numBytesDecoded. *)
Fixpoint hybiLoop (fuel : nat) (buf : bytes) (pos : nat) (c : Connection)
  : option (bool * nat * Connection) :=
  match fuel with
  | O => None
  | S fuel' =>
    let '(st, decodedMessage, pos') := decodeNextMessage co buf pos in
    match st with
    | Error => Some (false, pos', snd (closeInternal c))
    | TextMessage =>
      let decodedMessage := decodedMessage ++ [NUL] in
      hybiLoop fuel' buf pos' (snd (handleWebSocketTextMessage decodedMessage c))
    | BinaryMessage =>
      hybiLoop fuel' buf pos' (snd (handleWebSocketBinaryMessage decodedMessage c))
    | Ping =>
      hybiLoop fuel' buf pos' (snd (sendHybi OPCODE_PONG decodedMessage c))
    | NoMessage => Some (true, pos', c)
    | Close =>
      Some (false, pos', snd (closeInternal (log DEBUG "Received WebSocket close" c)))
    end
  end.

(** Connection::handleHybiWebSocket *)
Definition handleHybiWebSocket (c : Connection) : option Connection :=
  match inBuf c with
  | [] => Some c
  | _ =>
    match hybiLoop (S (length (inBuf c))) (inBuf c) 0 c with
    | None => None
    | Some (false, _, c) => Some c
    | Some (true, numBytesDecoded, c) =>
      let c :=
        if negb (Nat.eqb numBytesDecoded 0)
        then set_inBuf (skipn numBytesDecoded (inBuf c)) c
        else c in
      if MaxWebsocketMessageSize <? size (inBuf c) then
        Some (snd (closeInternal (log WARNING "WebSocket message too long" c)))
      else Some c
    end
  end.

(** ** Static files and handler responses *)

(** Connection::processRangesForStaticData *)
Definition processRangesForStaticData (origRanges : list Range) (fileSize : Z)
  : M (list Range) :=
  match origRanges with
  | [] =>
    _ <- bufferResponseAndCommonHeaders Ok ;;
    _ <- bufferLine (lit "Content-Length: " ++ toString fileSize) ;;
    ret [mkRange 0 (fileSize - 1)]
  | _ =>
    _ <- bufferResponseAndCommonHeaders PartialContent ;;
    let '(contentLength, rangeLine, sendRanges) :=
      rangesLoop fileSize origRanges 0 (lit "Content-Range: bytes ") [] in
    let rangeLine := rangeLine ++ lit "/" ++ toString fileSize in
    _ <- bufferLine rangeLine ;;
    _ <- bufferLine (lit "Content-Length: " ++ toString contentLength) ;;
    ret sendRanges
  end.

(** The while loop of sendStaticData copying one range: the file offset is
    [pos]; ::read gives what the file has there, up to the count asked for.
    [None]: out of fuel. *)
Fixpoint copyRange (fuel : nat) (content : bytes) (pos bytesLeft : Z)
    (c : Connection) : option (bool * Connection) :=
  match fuel with
  | O => None
  | S fuel' =>
    if bytesLeft =? 0 then Some (true, c)
    else
      let count := Z.min ReadWriteBufferSize bytesLeft in
      let buf := firstn (Z.to_nat count) (skipn (Z.to_nat pos) content) in
      let bytesRead := size buf in
      if bytesRead <=? 0 then
        Some (false, log ERROR "Error reading file: " c)
      else
        let bytesLeft := to_size_t (bytesLeft - bytesRead) in
        let (ok, c) := write buf true c in
        if negb ok then Some (false, c)
        else copyRange fuel' content (pos + bytesRead) bytesLeft c
  end.

(** The for loop of sendStaticData over the ranges to send. *)
Fixpoint copyRanges (content : bytes) (ranges : list Range) (c : Connection)
  : option (bool * Connection) :=
  match ranges with
  | [] => Some (true, c)
  | r :: rest =>
    if range_start r <? 0 then Some (false, c)      (* lseek fails *)
    else
      match copyRange (S (length content)) content (range_start r) (Range_length r) c with
      | None => None
      | Some (false, c) => Some (false, c)
      | Some (true, c) => copyRanges content rest c
      end
  end.

Definition last_byte (s : bytes) : ascii := last s NUL.

(** Connection::sendStaticData *)
Definition sendStaticData (requestUri : bytes) (rangeHeader : bytes)
  : Connection -> option (bool * Connection) :=
  fun c =>
    let path := getStaticPath co ++ c_str requestUri in
    let path :=
      match find_char "?" path with
      | Some queryPos => firstn queryPos path
      | None => path
      end in
    let path :=
      if Ascii.eqb (last_byte path) "/" then path ++ lit "index.html" else path in
    match open_file co (c_str path) with
    | None => Some (send404 (c_str requestUri) c)
    | Some input =>
      match (if is_empty rangeHeader then Some [] else parseRanges rangeHeader) with
      | None => Some (sendBadRequest (lit "Bad range header") c)
      | Some ranges =>
        let (ok_ranges, c) :=
          (ranges <- processRangesForStaticData ranges (size (file_content input)) ;;
           _ <- bufferLine (lit "Content-Type: " ++ getContentType path) ;;
           _ <- bufferLine_cstr (lit "Connection: keep-alive") ;;
           _ <- bufferLine_cstr (lit "Accept-Ranges: bytes") ;;
           _ <- bufferLine (lit "Last-Modified: " ++ webtime_of co (file_mtime input)) ;;
           _ <- (if negb (isCacheable path) then
                   _ <- bufferLine_cstr (lit "Cache-Control: no-store") ;;
                   _ <- bufferLine_cstr (lit "Pragma: no-cache") ;;
                   expires <- now ;;
                   bufferLine (lit "Expires: " ++ expires)
                 else ret true) ;;
           _ <- bufferLine_cstr (lit "") ;;
           ok <- flush ;;
           ret (ok, ranges)) c in
        if negb (fst ok_ranges) then Some (false, c)
        else copyRanges (file_content input) (snd ok_ranges) c
      end
    end.

Fixpoint bufferHeaders (headers : list (bytes * bytes)) : M unit :=
  match headers with
  | [] => ret tt
  | (k, v) :: rest =>
    _ <- bufferLine (k ++ lit ": " ++ v) ;;
    bufferHeaders rest
  end.

(** Connection::sendResponse, for a handler that returned [unhandled] or a
    response. *)
Definition sendResponse (response : option Response) (req : Request)
  : Connection -> option (bool * Connection) :=
  let requestUri := reqUri req in
  match response with
  | None => sendStaticData (c_str requestUri) (getHeader req (lit "Range"))
  | Some response =>
    if responseCode response =? NotFound then
      fun c => Some (send404 requestUri c)
    else if negb (isOk co (responseCode response)) then
      fun c => Some (sendError (responseCode response) (c_str (payload response)) c)
    else
      fun c => Some (
       (_ <- bufferResponseAndCommonHeaders (responseCode response) ;;
        _ <- bufferLine (lit "Content-Length: " ++ toString (size (payload response))) ;;
        _ <- bufferLine (lit "Content-Type: " ++ contentType response) ;;
        _ <- (if keepConnectionAlive response
              then bufferLine_cstr (lit "Connection: keep-alive")
              else bufferLine_cstr (lit "Connection: close")) ;;
        modified <- now ;;
        _ <- bufferLine (lit "Last-Modified: " ++ modified) ;;
        _ <- bufferLine_cstr (lit "Cache-Control: no-store") ;;
        _ <- bufferLine_cstr (lit "Pragma: no-cache") ;;
        expires <- now ;;
        _ <- bufferLine (lit "Expires: " ++ expires) ;;
        _ <- bufferHeaders (getAdditionalHeaders response) ;;
        _ <- bufferLine_cstr (lit "") ;;
        ok <- write (payload response) true ;;
        if negb ok then ret false
        else
          _ <- (if negb (keepConnectionAlive response) then closeWhenEmpty else ret tt) ;;
          ret true) c)
  end.

(** Connection::handlePageRequest, on the request the connection holds. *)
Definition handlePageRequest : Connection -> option (bool * Connection) :=
  fun c =>
    match request c with
    | None => None                      (* never called without a request *)
    | Some req =>
      match handle co req with
      | Threw (Some what) => Some (sendISE (c_str what) (log ERROR "page error: " c))
      | Threw None => Some (sendISE (lit "(unknown)") (log ERROR "page error: (unknown)" c))
      | NoResponse =>
        let uri := reqUri req in
        if verb_eqb (reqVerb req) WebSocket then
          let c := set_webSocketHandler (getWebSocketHandler co (c_str uri)) c in
          let webSocketVersion := atoi (getHeader req (lit "Sec-WebSocket-Version")) in
          match webSocketHandler c with
          | None =>
            Some (send404 uri (log WARNING "Couldn't find WebSocket end point for" c))
          | Some _ =>
            if webSocketVersion =? 0 then
              Some (true, set_state READING_WEBSOCKET_KEY3
                            (log DEBUG "Got a hixie websocket with key1=0x" c))
            else
              let hybiKey := getHeader req (lit "Sec-WebSocket-Key") in
              Some (handleHybiHandshake webSocketVersion hybiKey c)
          end
        else sendStaticData (c_str uri) (getHeader req (lit "Range")) c
      | Unhandled => sendResponse None req c
      | Responded r => sendResponse (Some r) req c
      end
    end.

(** ** Headers *)

(** extractLine, called again and again on [first, last): the lines, each
    without its CR LF and with the index of its first colon.  The scan looks
    at two bytes at a time, as the source does; [line] holds the current
    line reversed and [i] its length.  Bytes after the last CR LF belong to
    no line (handleHeaders hands over a region that ends in CR LF). *)
Fixpoint extractLines (region : bytes) (line : bytes) (i : nat)
    (colon : option nat) : list (bytes * option nat) :=
  match region with
  | c0 :: tl =>
    match tl with
    | c1 :: rest =>
      if Ascii.eqb c0 CR && Ascii.eqb c1 LF then
        (rev line, colon) :: extractLines rest [] 0%nat None
      else
        let colon :=
          match colon with
          | None => if Ascii.eqb c0 ":" then Some i else None
          | Some _ => colon
          end in
        extractLines tl (c0 :: line) (S i) colon
    | [] => []
    end
  | [] => []
  end.

(** The locals of processHeaders that the header loop fills. *)
Record HeaderScan := mkHeaderScan {
  haveConnectionUpgrade : bool;
  haveWebSocketUpgrade : bool;
  allHeaders : list (bytes * bytes);
  host : bytes;
  contentLength : Z
}.

(** One turn of the header loop of processHeaders on a line with its colon
    at [colonPos]. *)
Definition processHeaderLine (allowCrossOrigin : bool) (requestUri : bytes)
    (headerLine : bytes) (colonPos : nat) (hs : HeaderScan) (c : Connection)
  : HeaderScan * Connection :=
  let key := c_str (firstn colonPos headerLine) in
  let value := skipWhitespace (skipn (S colonPos) headerLine) in
  let strValue := c_str value in
  let hs := mkHeaderScan (haveConnectionUpgrade hs) (haveWebSocketUpgrade hs)
              (headers_insert (allHeaders hs) key strValue)
              (host hs) (contentLength hs) in
  let c := log DEBUG "Key: " c in
  if strcasecmp_eq key (lit "Connection") then
    if strcasecmp_eq value (lit "upgrade") then
      (mkHeaderScan true (haveWebSocketUpgrade hs) (allHeaders hs)
                    (host hs) (contentLength hs), c)
    else (hs, c)
  else if strcasecmp_eq key (lit "Upgrade") && strcasecmp_eq value (lit "websocket") then
    (mkHeaderScan (haveConnectionUpgrade hs) true (allHeaders hs)
                  (host hs) (contentLength hs), c)
  else if strcasecmp_eq key (lit "Sec-WebSocket-Key1") then
    (hs, set_webSocketKeys (parseWebSocketKey value, snd (webSocketKeys c)) c)
  else if strcasecmp_eq key (lit "Sec-WebSocket-Key2") then
    (hs, set_webSocketKeys (fst (webSocketKeys c), parseWebSocketKey value) c)
  else if strcasecmp_eq key (lit "Origin") && allowCrossOrigin then
    (hs, set_hixieExtraHeaders
           (hixieExtraHeaders c ++ lit "Sec-WebSocket-Origin: " ++ strValue ++ crlf) c)
  else if strcasecmp_eq key (lit "Host") then
    let c :=
      if negb allowCrossOrigin then
        set_hixieExtraHeaders
          (hixieExtraHeaders c ++ lit "Sec-WebSocket-Origin: http://" ++ strValue ++ crlf) c
      else c in
    let c :=
      set_hixieExtraHeaders
        (hixieExtraHeaders c ++ lit "Sec-WebSocket-Location: ws://" ++ strValue
                           ++ c_str requestUri) c in
    let c := set_hixieExtraHeaders (hixieExtraHeaders c ++ crlf) c in
    (mkHeaderScan (haveConnectionUpgrade hs) (haveWebSocketUpgrade hs)
                  (allHeaders hs) strValue (contentLength hs), c)
  else if strcasecmp_eq key (lit "Content-Length") then
    (mkHeaderScan (haveConnectionUpgrade hs) (haveWebSocketUpgrade hs)
                  (allHeaders hs) (host hs) (to_size_t (atoi strValue)), c)
  else (hs, c).

(** The header loop of processHeaders; [None] when a line has no colon. *)
Fixpoint headerLoop (allowCrossOrigin : bool) (requestUri : bytes)
    (lines : list (bytes * option nat)) (hs : HeaderScan) (c : Connection)
  : option HeaderScan * Connection :=
  match lines with
  | [] => (Some hs, c)
  | (headerLine, colonPos) :: rest =>
    match colonPos with
    | None => (None, c)
    | Some colonPos =>
      let (hs, c) := processHeaderLine allowCrossOrigin requestUri
                       headerLine colonPos hs c in
      headerLoop allowCrossOrigin requestUri rest hs c
    end
  end.

(** Connection::processHeaders, from the end of the header loop on: the
    upgrade, embedded content, the request and the checks of its length. *)
Definition completeRequest (verb : Verb) (requestUri : bytes) (hs : HeaderScan)
  : Connection -> option (bool * Connection) :=
  fun c =>
    let upgrade :=
      if haveConnectionUpgrade hs && haveWebSocketUpgrade hs then
        if negb (verb_eqb verb Get) then
          inr (sendBadRequest (lit "Non-GET WebSocket request") c)
        else
          let c := set_webSocketHandler
                     (getWebSocketHandler co (c_str requestUri)) c in
          match webSocketHandler c with
          | None =>
            inr (send404 (c_str requestUri)
                   (log WARNING "Couldn't find WebSocket end point for" c))
          | Some _ => inl (WebSocket, c)
          end
      else inl (verb, c) in
    match upgrade with
    | inr returned => Some returned
    | inl (verb, c) =>
      match (if verb_eqb verb Get
             then findEmbeddedContent co (c_str requestUri) else None) with
      | Some embedded =>
        Some (sendData (getContentType (c_str requestUri)) embedded c)
      | None =>
        let c := set_request
                   (Some (mkRequest (c_str requestUri) verb (contentLength hs)
                                    (allHeaders hs) [])) c in
        if MaxBufferSize <? contentLength hs then
          Some (sendBadRequest (lit "Content length too long") c)
        else if contentLength hs =? 0 then handlePageRequest c
        else Some (true, set_state BUFFERING_POST_DATA c)
      end
    end.

(** Connection::processHeaders, from the header loop on. *)
Definition processHeaderLines (verb : Verb) (requestUri : bytes)
    (headerLines : list (bytes * option nat))
  : Connection -> option (bool * Connection) :=
  fun c =>
    let allowCrossOrigin := isCrossOriginAllowed co (c_str requestUri) in
    match headerLoop allowCrossOrigin requestUri headerLines
                     (mkHeaderScan false false [] [] 0) c with
    | (None, c) => Some (sendBadRequest (lit "Malformed header") c)
    | (Some hs, c) => completeRequest verb requestUri hs c
    end.

(** Connection::processHeaders on the region [first, last): the request
    line, then the rest.  The NULs the source writes into the region are not
    written here: the region is read line by line as C strings instead, and
    handleHeaders erases it or closes the connection afterwards. *)
Definition processHeaders (region : bytes)
  : Connection -> option (bool * Connection) :=
  fun c =>
    match extractLines region [] 0%nat None with
    | [] => None                        (* assert(requestLine != NULL) *)
    | (requestLine, _) :: headerLines =>
      let c := log ACCESS "Request: " c in
      let (verbText, requestLine) := shift requestLine in
      match verbText with
      | None => Some (sendBadRequest (lit "Malformed request line") c)
      | Some verbText =>
      let verb := Request_verb verbText in
      if verb_eqb verb Invalid then
        Some (sendBadRequest (lit "Malformed request line") c)
      else
      let (requestUri, requestLine) := shift requestLine in
      match requestUri with
      | None => Some (sendBadRequest (lit "Malformed request line") c)
      | Some requestUri =>
      let c := set_requestUri (c_str requestUri) c in
      let (httpVersion, requestLine) := shift requestLine in
      match httpVersion with
      | None => Some (sendBadRequest (lit "Malformed request line") c)
      | Some httpVersion =>
      if negb (strcmp_eq httpVersion (lit "HTTP/1.1")) then
        Some (sendUnsupportedError (lit "Unsupported HTTP version") c)
      else if negb (is_empty (c_str requestLine)) then
        Some (sendBadRequest (lit "Trailing crap after http version") c)
      else processHeaderLines verb requestUri headerLines c
      end end end
    end.

(** Modelled from the spec: PageRequest::consumeContent is not among the
    sources; the request takes bytes from the buffer "until Content-Length
    is reached" and says whether it is.  The result is that answer, the
    request and what is left of the buffer. *)
Definition consumeContent (req : Request) (buffer : bytes) : bool * Request * bytes :=
  let remainingBytes := reqContentLength req - size (reqContent req) in
  let toUse := Z.to_nat (Z.min remainingBytes (size buffer)) in
  let req' := mkRequest (reqUri req) (reqVerb req) (reqContentLength req)
                        (reqHeaders req) (reqContent req ++ firstn toUse buffer) in
  (reqContentLength req' =? size (reqContent req'), req', skipn toUse buffer).

(** Connection::handleBufferingPostData *)
Definition handleBufferingPostData : Connection -> option Connection :=
  fun c =>
    match request c with
    | None => None                      (* the state implies a request *)
    | Some req =>
      let '(complete, req, buffer) := consumeContent req (inBuf c) in
      let c := set_inBuf buffer (set_request (Some req) c) in
      if complete then
        let c := set_state READING_HEADERS c in
        match handlePageRequest c with
        | None => None
        | Some (ok, c) => if negb ok then Some (snd (closeInternal c)) else Some c
        end
      else Some c
    end.

(** The scan of handleHeaders for CR LF CR LF: the first index [i], counted
    from [i0], at which the four bytes are found. *)
Fixpoint find_crlfcrlf (p : bytes) (i0 : nat) : option nat :=
  match p with
  | a :: rest =>
    match rest with
    | b :: c :: d :: _ =>
      if Ascii.eqb a CR && Ascii.eqb b LF && Ascii.eqb c CR && Ascii.eqb d LF
      then Some i0 else find_crlfcrlf rest (S i0)
    | _ => None
    end
  | [] => None
  end.

(** Connection::handleHeaders; [handleNewData] is the call back into the
    dispatcher. *)
Definition handleHeaders (handleNewData : Connection -> option Connection)
  : Connection -> option Connection :=
  fun c =>
    if size (inBuf c) <? 4 then Some c
    else
      match find_crlfcrlf (inBuf c) 0 with
      | Some i =>
        match processHeaders (firstn (i + 2) (inBuf c)) c with
        | None => None
        | Some (false, c) => Some (snd (closeInternal c))
        | Some (true, c) =>
          handleNewData (set_inBuf (skipn (i + 4) (inBuf c)) c)
        end
      | None =>
        if MaxHeadersSize <? size (inBuf c)
        then Some (snd (sendUnsupportedError (lit "Headers too big") c))
        else Some c
      end.

(** Connection::handleNewData.  [None]: out of fuel, or the function does
    not return. *)
Fixpoint handleNewData (fuel : nat) (c : Connection) : option Connection :=
  match fuel with
  | O => None
  | S fuel' =>
    match state c with
    | READING_HEADERS => handleHeaders (handleNewData fuel') c
    | READING_WEBSOCKET_KEY3 => Some (snd (handleWebSocketKey3 c))
    | HANDLING_HIXIE_WEBSOCKET => handleHixieWebSocket c
    | HANDLING_HYBI_WEBSOCKET => handleHybiWebSocket c
    | BUFFERING_POST_DATA => handleBufferingPostData c
    end
  end.

(** What the kernel answers to one ::read. *)
Inductive ReadOutcome :=
| ReadData (available : bytes)
| ReadFailed.

(** Connection::handleDataReadyForRead.  The kernel hands over at most
    ReadWriteBufferSize of the bytes available; none available is the end
    of the stream. *)
Definition handleDataReadyForRead (o : ReadOutcome) : Connection -> option Connection :=
  fun c =>
    if closed c then Some c
    else
      let curSize := length (inBuf c) in
      let c := set_inBuf (inBuf c ++ repeat NUL (Z.to_nat ReadWriteBufferSize)) c in
      match o with
      | ReadFailed => Some (log WARNING "Unable to read from socket" c)
      | ReadData available =>
        let data := firstn (Z.to_nat ReadWriteBufferSize) available in
        let result := size data in
        if result =? 0 then
          Some (snd (closeInternal (log DEBUG "Remote end closed connection" c)))
        else
          let c := set_bytesReceived (to_size_t (bytesReceived c + result)) c in
          let c := set_inBuf (firstn curSize (inBuf c) ++ data) c in
          handleNewData (S (length (inBuf c))) c
      end.

End Engine.

(** ** A concrete world, for running the engine *)

(** A socket with room for [room] bytes at every call and a server that
    accepts every subscription. *)
Definition roomy (room : N) : Environment :=
  mkEnvironment (fun _ => Accepted room) (fun _ => true) (fun _ => true)
                (fun _ => true) (fun _ => lit "Thu, 01 Jan 1970 00:00:00 GMT").


(** A socket that is full at every call. *)
Definition congested : Environment :=
  mkEnvironment (fun _ => WouldBlock) (fun _ => true) (fun _ => true)
                (fun _ => true) (fun _ => lit "Thu, 01 Jan 1970 00:00:00 GMT").

Definition reason_phrase (code : Z) : bytes :=
  if code =? 101 then lit "WebSocket Protocol Handshake"
  else if code =? 200 then lit "OK"
  else if code =? 206 then lit "Partial Content"
  else if code =? 400 then lit "Bad Request"
  else if code =? 404 then lit "Not Found"
  else if code =? 500 then lit "Internal Server Error"
  else if code =? 501 then lit "Not Implemented"
  else lit "Unknown".

(** A stand-in for HybiPacketDecoder that understands only unmasked,
    unfragmented text frames shorter than 126 bytes: 0x81, the length, the
    payload. *)
Definition shortTextDecoder (buf : bytes) (pos : nat) : MessageState * bytes * nat :=
  match skipn pos buf with
  | b0 :: b1 :: rest =>
    if (byte_val b0 =? 129) && (byte_val b1 <? 126) then
      if byte_val b1 <=? size rest then
        (TextMessage, firstn (Z.to_nat (byte_val b1)) rest,
         (pos + 2 + Z.to_nat (byte_val b1))%nat)
      else (NoMessage, [], pos)
    else (Error, [], pos)
  | _ => (NoMessage, [], pos)
  end.

(** Stand-ins for the collaborators: a server with one WebSocket end point
    (handler 7 at /ws), no pages, no embedded content and no files; the
    digests are placeholders of the right length. *)
Definition standIns : Collaborators :=
  mkCollaborators
    (fun src => firstn 16 (src ++ repeat NUL 16))
    (fun key => lit "accept:" ++ key)
    (fun _ => None)
    (fun document _ _ => document)
    reason_phrase
    (fun code => (200 <=? code) && (code <? 300))
    (lit "SeaSocks/test")
    (fun _ => lit "Thu, 01 Jan 1970 00:00:00 GMT")
    shortTextDecoder
    (lit "/srv/www")
    (fun _ => false)
    (fun uri => if bytes_eqb uri (lit "/ws") then Some 7%nat else None)
    (fun _ => NoResponse)
    (lit "{}")
    (fun _ => None).

(** ** Properties of connections and of computations on them *)

(** The output buffer holds no more than the cap. *)
Definition capped (c : Connection) : Prop := size (outBuf c) <= MaxBufferSize.

(** A computation keeps a property of the connection. *)
Definition keeps (P : Connection -> Prop) {A} (m : M A) : Prop :=
  forall c a c', m c = (a, c') -> P c -> P c'.

(** The write path leaves everything but the socket and the output buffer
    of [c] as it is in [c']. *)
Definition same_session (c c' : Connection) : Prop :=
  inBuf c' = inBuf c /\ state c' = state c /\ events c' = events c /\
  webSocketHandler c' = webSocketHandler c /\
  webSocketKeys c' = webSocketKeys c /\
  hixieExtraHeaders c' = hixieExtraHeaders c /\
  request c' = request c /\ requestUri c' = requestUri c /\
  shutdownByUser c' = shutdownByUser c /\ hadSendError c' = hadSendError c /\
  fd c' = fd c.


(** [c'] has the socket, the output buffer and the clock of [c]. *)
Definition same_socket (c c' : Connection) : Prop :=
  outBuf c' = outBuf c /\ wire c' = wire c /\ tick c' = tick c /\
  fd c' = fd c /\ shutdown c' = shutdown c /\ closeOnEmpty c' = closeOnEmpty c.

(** What has reached the peer or is queued for it, in order. *)
Definition output (c : Connection) : bytes := wire c ++ outBuf c.

(** The connection accepts writes. *)
Definition writable (c : Connection) : Prop :=
  closed c = false /\ closeOnEmpty c = false.

(** ** The responses, byte by byte *)

(** The status line and the common headers; [date] is what now() gave. *)
Definition responseHead (co : Collaborators) (code : Z) (date : bytes) : bytes :=
  lit "HTTP/1.1 " ++ toString code ++ lit " " ++ name co code ++ crlf
  ++ c_str (lit "Server: " ++ SEASOCKS_VERSION_STRING co) ++ crlf
  ++ lit "Date: " ++ date ++ crlf
  ++ lit "Access-Control-Allow-Origin: *" ++ crlf.



(** An error response: head, the two headers, the blank line, the page. *)
Definition errorResponse (co : Collaborators) (code : Z) (date body : bytes) : bytes :=
  responseHead co code date
  ++ lit "Content-Length: "
  ++ toString (size (errorDocument co code body)) ++ crlf
  ++ lit "Connection: close" ++ crlf
  ++ crlf
  ++ errorDocument co code body ++ crlf.

(** The outcome of a request that is turned down: on a writable connection
    with room in its buffer the error response is added to the output. *)
Definition rejected (env : Environment) (co : Collaborators) (code : Z)
    (reason : bytes) (c : Connection) (result : option (bool * Connection)) : Prop :=
  exists ok c',
    result = Some (ok, c') /\
    (writable c ->
     size (outBuf c) + size (errorResponse co code (clock env (tick c)) reason)
       < MaxBufferSize ->
     output c' = output c ++ errorResponse co code (clock env (tick c)) reason).

(** The input of the Hixie MD5: the two keys, most significant byte first,
    then the eight bytes that follow the headers. *)
Definition md5Source (c : Connection) : bytes :=
  big_endian 4 (fst (webSocketKeys c))
  ++ big_endian 4 (snd (webSocketKeys c))
  ++ firstn 8 (inBuf c).

(** ** The statements of the specification, in its own words *)



Fixpoint join_commas (texts : list bytes) : bytes :=
  match texts with
  | [] => []
  | [t] => t
  | t :: rest => t ++ ","%char :: join_commas rest
  end.







(** The length of an interval, ends included; negative when the end lies
    more than one byte before the start. *)
Definition interval_length (r : Range) : Z := range_end r - range_start r + 1.

Definition total_length (intervals : list Range) : Z :=
  fold_right Z.add 0 (map interval_length intervals).



(** "Keep only decimal digits as a 32-bit accumulator N": N = N*10 + digit,
    modulo 2^32, over the digits of the string from left to right. *)
Definition key_number (value : bytes) : Z :=
  fold_left (fun N c => if is_digit c then (N * 10 + (byte_val c - 48)) mod 2 ^ 32 else N)
            value 0.

(** "Count space characters S". *)
Definition key_spaces (value : bytes) : Z :=
  Z.of_nat (count_occ ascii_dec value " "%char).

(** The name and the value of a header line whose first colon is at
    [colonPos], as the header loop reads them. *)
Definition headerKey (headerLine : bytes) (colonPos : nat) : bytes :=
  c_str (firstn colonPos headerLine).

Definition headerValue (headerLine : bytes) (colonPos : nat) : bytes :=
  skipWhitespace (skipn (S colonPos) headerLine).

(** The line has this name, or this value, compared without regard to
    case. *)
Definition namesHeader (name : string) (line : bytes * option nat) : bool :=
  match snd line with
  | Some colonPos => strcasecmp_eq (headerKey (fst line) colonPos) (lit name)
  | None => false
  end.

Definition hasValue (value : string) (line : bytes * option nat) : bool :=
  match snd line with
  | Some colonPos => strcasecmp_eq (headerValue (fst line) colonPos) (lit value)
  | None => false
  end.

(** The request asks for a WebSocket: some line says Connection: upgrade
    and some line says Upgrade: websocket. *)
Definition asksUpgrade (lines : list (bytes * option nat)) : bool :=
  existsb (fun line => namesHeader "Connection" line && hasValue "upgrade" line) lines
  && existsb (fun line => namesHeader "Upgrade" line && hasValue "websocket" line) lines.

(** The length a Content-Length line gives, and [None] for any other
    line. *)
Definition lengthHeader (line : bytes * option nat) : option Z :=
  match snd line with
  | Some colonPos =>
    if strcasecmp_eq (headerKey (fst line) colonPos) (lit "Content-Length")
    then Some (to_size_t (atoi (c_str (headerValue (fst line) colonPos))))
    else None
  | None => None
  end.

(** The stand-ins, with one piece of embedded content at /x. *)
Definition withEmbedded : Collaborators :=
  mkCollaborators
    (md5 standIns) (getAcceptKey standIns)
    (fun path => if bytes_eqb path (lit "/x") then Some (lit "hello") else None)
    (replace standIns) (name standIns) (isOk standIns)
    (SEASOCKS_VERSION_STRING standIns) (webtime_of standIns)
    (decodeNextMessage standIns) (getStaticPath standIns)
    (isCrossOriginAllowed standIns) (getWebSocketHandler standIns)
    (handle standIns) (getStatsDocument standIns) (open_file standIns).

(** How a request was answered: the first twelve bytes of the output, and
    the length the stored request holds, if one was stored. *)
Definition answered (result : option (bool * Connection)) : option (bytes * option Z) :=
  option_map (fun r => (firstn 12 (output (snd r)),
                        option_map reqContentLength (request (snd r)))) result.



(** A connection upgraded to a Hixie WebSocket served by handler 7. *)
Definition hixieConnection : Connection :=
  set_state HANDLING_HIXIE_WEBSOCKET
    (set_webSocketHandler (Some 7%nat) (newConnection 5)).

(** A connection upgraded to a Hybi WebSocket served by handler 7. *)
Definition hybiConnection : Connection :=
  set_state HANDLING_HYBI_WEBSOCKET
    (set_webSocketHandler (Some 7%nat) (newConnection 5)).

(** Two reads in a row, the second on what the first left. *)
Definition readTwice (env : Environment) (co : Collaborators)
    (chunk1 chunk2 : bytes) (c : Connection) : option Connection :=
  match handleDataReadyForRead env co (ReadData chunk1) c with
  | Some c1 => handleDataReadyForRead env co (ReadData chunk2) c1
  | None => None
  end.

(** ** The end of a connection *)

Definition set_fd (v : Z) (c : Connection) : Connection :=
  mkConnection v (shutdown c) (hadSendError c) (closeOnEmpty c)
    (registeredForWriteEvents c) (bytesSent c) (bytesReceived c)
    (shutdownByUser c) (state c) (inBuf c) (outBuf c) (webSocketKeys c)
    (hixieExtraHeaders c) (requestUri c) (request c) (webSocketHandler c)
    (wire c) (logged c) (events c) (tick c).

(** Connection::finalise, which the destructor runs.  Server::remove and
    ::close act on the server and on the descriptor table; what the
    connection keeps of them is the log line and the descriptor it no longer
    has. *)
Definition finalise : M unit :=
  fun c =>
    let c :=
      match webSocketHandler c with
      | Some h => set_webSocketHandler None (notify (OnDisconnect h) c)
      | None => c
      end in
    let c :=
      if negb (fd c =? -1) then log DEBUG "Closing socket" c else c in
    (tt, set_fd (-1) c).

(** ** Sockets that do not fail *)

(** ::send takes bytes or finds the socket full, but does not fail, and the
    server grants every change of subscription. *)
Definition reliable (env : Environment) : Prop :=
  (forall t, sock_send env t <> SendFailed) /\
  (forall t, subscribeToWriteEvents env t = true) /\
  (forall t, unsubscribeFromWriteEvents env t = true).

(** The connection is open for output: not closed, not closing, no send
    error recorded. *)
Definition sendable (c : Connection) : Prop :=
  writable c /\ hadSendError c = false.

(** ** WebSocket frames on the wire *)

(** A Hixie text frame: 0x00, the text, 0xff. *)
Definition hixieFrame (payload : bytes) : bytes :=
  NUL :: payload ++ [byte_of 255].

(** What may follow the whole frames in the input buffer: nothing, or the
    beginning of a frame whose 0xff has not arrived. *)
Definition unfinished (tail : bytes) : Prop :=
  tail = [] \/ exists partial, tail = NUL :: partial /\ ~ In (byte_of 255) partial.

(** The length field of a Hybi frame sent without mask. *)
Definition hybiLength (messageLength : Z) : bytes :=
  if messageLength <? 126 then [byte_of messageLength]
  else if messageLength <? 65536 then byte_of 126 :: big_endian 2 messageLength
  else byte_of 127 :: big_endian 8 messageLength.

(** A Hybi frame as sendHybi writes it. *)
Definition hybiFrame (opcode : Z) (payload : bytes) : bytes :=
  byte_of (Z.lor 128 opcode) :: hybiLength (size payload) ++ payload.

(** The number a run of bytes spells, most significant byte first. *)
Fixpoint from_big_endian (l : bytes) (acc : Z) : Z :=
  match l with
  | [] => acc
  | b :: rest => from_big_endian rest (acc * 256 + byte_val b)
  end.

(** ** Static files *)

(** The file sendStaticData opens for a request URI: the static path and the
    URI, cut at the first question mark, with index.html added when that
    ends in a slash. *)
Definition staticFilePath (co : Collaborators) (requestUri : bytes) : bytes :=
  let path := getStaticPath co ++ c_str requestUri in
  let path :=
    match find_char "?" path with
    | Some queryPos => firstn queryPos path
    | None => path
    end in
  if Ascii.eqb (last_byte path) "/" then path ++ lit "index.html" else path.

(** The bytes of [content] that a range with both ends inside it names. *)
Definition slice (content : bytes) (r : Range) : bytes :=
  firstn (Z.to_nat (interval_length r)) (skipn (Z.to_nat (range_start r)) content).

(** The headers sendStaticData writes after the status line, the common
    headers and the lines of processRangesForStaticData; [expires] is what
    now() gave for Expires. *)
Definition staticHeaders (co : Collaborators) (expires path : bytes) (input : File)
  : bytes :=
  lit "Content-Type: " ++ getContentType path ++ crlf
  ++ lit "Connection: keep-alive" ++ crlf
  ++ lit "Accept-Ranges: bytes" ++ crlf
  ++ lit "Last-Modified: " ++ webtime_of co (file_mtime input) ++ crlf
  ++ (if isCacheable path then []
      else lit "Cache-Control: no-store" ++ crlf
           ++ lit "Pragma: no-cache" ++ crlf
           ++ lit "Expires: " ++ expires ++ crlf)
  ++ crlf.

(** The response to a request for a whole file, up to the blank line. *)
Definition staticHead (co : Collaborators) (date expires path : bytes) (input : File)
  : bytes :=
  responseHead co Ok date
  ++ lit "Content-Length: " ++ toString (size (file_content input)) ++ crlf
  ++ staticHeaders co expires path input.

(** ** Responses with a body *)

(** What sendData writes: the 200 head, the type and the length of the
    data, a blank line, the data. *)
Definition dataResponse (co : Collaborators) (date type start : bytes) : bytes :=
  responseHead co Ok date
  ++ lit "Content-Type: " ++ type ++ crlf
  ++ lit "Content-Length: " ++ toString (size start) ++ crlf
  ++ lit "Connection: keep-alive" ++ crlf
  ++ crlf
  ++ start.

(** The response of a page handler as sendResponse writes it; [modified]
    and [expires] are what the second and the third now() gave. *)
Definition handlerResponse (co : Collaborators) (date modified expires : bytes)
    (response : Response) : bytes :=
  responseHead co (responseCode response) date
  ++ lit "Content-Length: " ++ toString (size (payload response)) ++ crlf
  ++ lit "Content-Type: " ++ contentType response ++ crlf
  ++ (if keepConnectionAlive response
      then lit "Connection: keep-alive" else lit "Connection: close") ++ crlf
  ++ lit "Last-Modified: " ++ modified ++ crlf
  ++ lit "Cache-Control: no-store" ++ crlf
  ++ lit "Pragma: no-cache" ++ crlf
  ++ lit "Expires: " ++ expires ++ crlf
  ++ concat (map (fun h => fst h ++ lit ": " ++ snd h ++ crlf)
                 (getAdditionalHeaders response))
  ++ crlf
  ++ payload response.

(** ** More stand-ins *)

(** A decoder that takes the whole buffer for one message of the given
    kind, and finds nothing after it. *)
Definition oneMessage (kind : MessageState) (buf : bytes) (pos : nat)
  : MessageState * bytes * nat :=
  if Nat.eqb pos 0 then (kind, buf, length buf) else (NoMessage, [], pos).

(** The stand-ins with embedded content at /x, and with this decoder, this
    page handler and these files. *)
Definition standInsWith
    (decoder : bytes -> nat -> MessageState * bytes * nat)
    (pages : Request -> HandleResult) (files : bytes -> option File)
  : Collaborators :=
  mkCollaborators
    (md5 standIns) (getAcceptKey standIns) (findEmbeddedContent withEmbedded)
    (replace standIns) (name standIns) (isOk standIns)
    (SEASOCKS_VERSION_STRING standIns) (webtime_of standIns)
    decoder (getStaticPath standIns)
    (isCrossOriginAllowed standIns) (getWebSocketHandler standIns)
    pages (getStatsDocument standIns) files.

(** A file system that holds one page, /srv/www/index.html. *)
Definition oneFile (path : bytes) : option File :=
  if bytes_eqb path (lit "/srv/www/index.html")
  then Some (mkFile (lit "<h1>hello</h1>") 0) else None.

(** ** Facts about machine integers and buffers *)

Lemma to_int_small z : - 2 ^ 31 <= z < 2 ^ 31 -> to_int z = z.
Proof.
  intros H. unfold to_int. rewrite Z.mod_small; lia.
Qed.

Lemma to_int_range z : - 2 ^ 31 <= to_int z < 2 ^ 31.
Proof.
  unfold to_int. pose proof (Z.mod_pos_bound (z + 2 ^ 31) (2 ^ 32)). lia.
Qed.

Lemma to_size_t_small z : 0 <= z < 2 ^ 64 -> to_size_t z = z.
Proof. intros H. unfold to_size_t. apply Z.mod_small; lia. Qed.

Lemma size_nonneg l : 0 <= size l.
Proof. unfold size. lia. Qed.

Lemma size_app l1 l2 : size (l1 ++ l2) = size l1 + size l2.
Proof. unfold size. rewrite length_app. lia. Qed.

Lemma size_skipn n l : 0 <= n <= size l -> size (skipn (Z.to_nat n) l) = size l - n.
Proof. unfold size. intros H. rewrite length_skipn. lia. Qed.

Lemma size_firstn n l : 0 <= n <= size l -> size (firstn (Z.to_nat n) l) = n.
Proof. unfold size. intros H. rewrite length_firstn. lia. Qed.

Lemma os_send_range o sz :
  0 <= sz -> os_send o sz = -1 \/ (0 <= os_send o sz <= sz /\ os_send o sz < 2 ^ 31).
Proof.
  intros H. destruct o; simpl; auto. right. unfold MAX_RW_COUNT. lia.
Qed.

(** ** The write path *)

Section WritePathFacts.

Variable env : Environment.

Lemma closeInternal_spec c :
  let c' := snd (closeInternal env c) in
  shutdown c' = true /\ wire c' = wire c /\ outBuf c' = outBuf c /\
  inBuf c' = inBuf c /\ state c' = state c /\ events c' = events c /\
  fd c' = fd c /\ closeOnEmpty c' = closeOnEmpty c /\
  shutdownByUser c' = shutdownByUser c /\ hadSendError c' = hadSendError c /\
  registeredForWriteEvents c' = registeredForWriteEvents c /\
  webSocketHandler c' = webSocketHandler c.
Proof.
  unfold closeInternal; simpl.
  destruct (negb (fd c =? -1) && negb (shutdown c)); simpl;
    [destruct (sock_shutdown env (tick c)); simpl|]; repeat split; reflexivity.
Qed.

Lemma closeInternal_logged_errors c :
  filter (fun e => match fst e with ERROR => true | _ => false end)
         (logged (snd (closeInternal env c)))
  = filter (fun e => match fst e with ERROR => true | _ => false end) (logged c).
Proof.
  unfold closeInternal; simpl.
  destruct (negb (fd c =? -1) && negb (shutdown c)); simpl; auto.
  destruct (sock_shutdown env (tick c)); simpl; auto.
  rewrite filter_app. simpl. apply app_nil_r.
Qed.

(** What one [safeSend] does: either nothing reaches the socket and the
    result is -1 or 0, or a prefix of [data] is appended to the wire. *)
Lemma safeSend_spec data c r c' :
  safeSend env data c = (r, c') ->
  outBuf c' = outBuf c /\ closeOnEmpty c' = closeOnEmpty c /\ fd c' = fd c /\
  hadSendError c' = hadSendError c /\
  registeredForWriteEvents c' = registeredForWriteEvents c /\
  (shutdown c = true -> shutdown c' = true) /\
  ((r = -1 /\ wire c' = wire c /\ closed c' || hadSendError c' = true) \/
   (0 <= r <= size data /\ r < 2 ^ 31 /\ shutdown c' = shutdown c /\
    wire c' = wire c ++ firstn (Z.to_nat r) data)).
Proof.
  unfold safeSend.
  destruct ((fd c =? -1) || hadSendError c || shutdown c) eqn:Hc.
  - intros H; inversion H; subst. repeat split; auto. left. repeat split; auto.
    unfold closed. destruct (fd c' =? -1), (hadSendError c'), (shutdown c'); auto.
  - apply orb_false_elim in Hc as [Hc Hs]. apply orb_false_elim in Hc as [Hf He].
    destruct (os_send_range (sock_send env (tick c)) (size data) (size_nonneg data))
      as [Hm | [Hr Hlt]].
    + rewrite Hm. change (to_int (-1) =? -1) with true. cbv iota.
      destruct (is_eagain (sock_send env (tick c))).
      * intros H; inversion H; subst; simpl. repeat split; auto.
        right. pose proof (size_nonneg data). repeat split; try lia; auto.
        simpl. symmetry; apply app_nil_r.
      * unfold bind, modify, ret.
        destruct (closeInternal env (log WARNING "Unable to write to socket" (next_tick c)))
          as [u c1] eqn:Hci.
        intros H; inversion H; subst.
        pose proof (closeInternal_spec (log WARNING "Unable to write to socket" (next_tick c))) as Hs'.
        rewrite Hci in Hs'. simpl in Hs'.
        destruct Hs' as (S1 & S2 & S3 & S4 & S5 & S6 & S7 & S8 & S9 & S10 & S11 & S12).
        repeat split; auto.
        -- left. repeat split; auto. unfold closed. rewrite S1.
           destruct (fd c' =? -1); reflexivity.
    + rewrite to_int_small by lia.
      destruct (os_send (sock_send env (tick c)) (size data) =? -1) eqn:E.
      * apply Z.eqb_eq in E. lia.
      * intros H; inversion H; subst; simpl. repeat split; auto.
Qed.

Lemma safeSend_shutdown data c :
  shutdown c = true -> safeSend env data c = (-1, c).
Proof.
  intros H. unfold safeSend. rewrite H.
  rewrite orb_true_r. reflexivity.
Qed.

Lemma firstn_skipn_size (n : Z) (l : bytes) :
  size (skipn (Z.to_nat n) l) <= size l.
Proof. unfold size. rewrite length_skipn. lia. Qed.

(** [flush] only moves bytes from the front of the buffer to the wire. *)
Lemma flush_spec c ok c' :
  flush env c = (ok, c') ->
  wire c' ++ outBuf c' = wire c ++ outBuf c /\
  size (outBuf c') <= size (outBuf c) /\
  (exists k, wire c' = wire c ++ firstn k (outBuf c)) /\
  fd c' = fd c /\
  (shutdown c = true -> shutdown c' = true) /\
  (closeOnEmpty c = false -> closeOnEmpty c' = false /\
     (ok = true -> shutdown c' = shutdown c)).
Proof.
  unfold flush.
  destruct (outBuf c) as [|b0 rest] eqn:Hob.
  - intros H; inversion H; subst. rewrite Hob. repeat split; auto; try lia.
    exists 0%nat. simpl. symmetry; apply app_nil_r.
  - rewrite <- Hob.
    destruct (safeSend env (outBuf c) c) as [numSent c1] eqn:Hss.
    apply safeSend_spec in Hss.
    destruct Hss as (S1 & S2 & S3 & S4 & S5 & S6 & S7).
    destruct S7 as [(Hr & Hw & Hcl) | (Hr & Hlt & Hsh & Hw)].
    + subst numSent. simpl. intros H; inversion H; subst.
      rewrite S1, Hw. repeat split; auto; try lia; try congruence.
      exists 0%nat. simpl. symmetry; apply app_nil_r.
    + destruct (numSent =? -1) eqn:E; [apply Z.eqb_eq in E; lia|].
      set (c2 := set_outBuf (skipn (Z.to_nat numSent) (outBuf c1)) c1).
      assert (Hstream : wire c2 ++ outBuf c2 = wire c ++ outBuf c).
      { subst c2. simpl. rewrite Hw, S1, <- app_assoc. f_equal.
        apply firstn_skipn. }
      assert (Hsz : size (outBuf c2) <= size (outBuf c)).
      { subst c2. simpl. rewrite S1. apply firstn_skipn_size. }
      assert (Hk : exists k, wire c2 = wire c ++ firstn k (outBuf c)).
      { exists (Z.to_nat numSent). subst c2; simpl. exact Hw. }
      assert (Hfd : fd c2 = fd c) by (subst c2; simpl; auto).
      assert (Hsd : shutdown c2 = shutdown c) by (subst c2; simpl; auto).
      assert (Hce : closeOnEmpty c2 = closeOnEmpty c) by (subst c2; simpl; auto).
      clearbody c2.
      match goal with
      | |- (let (_, _) := ?e in _) = _ -> _ => destruct e as [ok1 c3] eqn:Hsub
      end.
      assert (Hc3 : wire c3 = wire c2 /\ outBuf c3 = outBuf c2 /\ fd c3 = fd c2 /\
                    shutdown c3 = shutdown c2 /\ closeOnEmpty c3 = closeOnEmpty c2).
      { destruct ((0 <? size (outBuf c2)) && negb (registeredForWriteEvents c2)).
        - destruct (subscribeToWriteEvents env (tick c2));
            inversion Hsub; subst; simpl; auto.
        - destruct ((size (outBuf c2) =? 0) && registeredForWriteEvents c2).
          + destruct (unsubscribeFromWriteEvents env (tick c2));
              inversion Hsub; subst; simpl; auto.
          + inversion Hsub; subst; auto. }
      destruct Hc3 as (W3 & O3 & F3 & D3 & E3).
      destruct (negb ok1).
      * intros H; inversion H; subst. rewrite W3, O3, F3, D3, E3.
        repeat split; auto; try congruence.
      * destruct ((size (outBuf c3) =? 0) && negb (closed c3) && closeOnEmpty c3) eqn:Hcl.
        -- unfold bind, modify, ret.
           destruct (closeInternal env (log DEBUG "Ready for close, now empty" c3))
             as [u c4] eqn:Hci.
           pose proof (closeInternal_spec (log DEBUG "Ready for close, now empty" c3)) as Hs'.
           rewrite Hci in Hs'. simpl in Hs'.
           destruct Hs' as (T1 & T2 & T3 & T4 & T5 & T6 & T7 & T8 & T9 & T10 & T11 & T12).
           intros H; inversion H; subst.
           apply andb_prop in Hcl as [_ Hcl].
           rewrite T2, T3, T7, W3, O3, F3. repeat split; auto; congruence.
        -- intros H; inversion H; subst. rewrite W3, O3, F3, D3, E3.
           repeat split; auto; congruence.
Qed.


Lemma closed_shutdown c : shutdown c = true -> closed c = true.
Proof. intros H. unfold closed. rewrite H. apply orb_true_r. Qed.

Lemma write_closed data flushIt c :
  closed c || closeOnEmpty c = true -> write env data flushIt c = (false, c).
Proof. intros H. unfold write. rewrite H. reflexivity. Qed.

(** A write that only buffers: the connection is writable and there is room. *)
Lemma write_buffers data c :
  closed c = false -> closeOnEmpty c = false ->
  size (outBuf c) + size data < MaxBufferSize ->
  write env data false c = (true, set_outBuf (outBuf c ++ data) c).
Proof.
  intros Hc He Hroom. unfold write. rewrite Hc, He. simpl.
  pose proof (size_nonneg data) as Hd. pose proof (size_nonneg (outBuf c)) as Ho.
  unfold MaxBufferSize in Hroom.
  destruct (size data =? 0) eqn:E.
  - apply Z.eqb_eq in E. destruct data; [|unfold size in E; simpl in E; lia].
    rewrite app_nil_r. destruct c; reflexivity.
  - rewrite andb_false_r. simpl. rewrite Z.sub_0_r.
    rewrite (to_size_t_small (size data)) by lia.
    rewrite to_size_t_small by lia.
    destruct (MaxBufferSize <=? size (outBuf c) + size data) eqn:E2.
    + apply Z.leb_le in E2. unfold MaxBufferSize in E2. lia.
    + unfold size at 1. rewrite Nat2Z.id, firstn_all. reflexivity.
Qed.




Lemma flush_shutdown c : shutdown c = true -> snd (flush env c) = c.
Proof.
  intros H. unfold flush. destruct (outBuf c); [reflexivity|].
  rewrite safeSend_shutdown by exact H. reflexivity.
Qed.

Lemma write_shutdown data flushIt c :
  shutdown c = true -> write env data flushIt c = (false, c).
Proof.
  intros H. apply write_closed. rewrite closed_shutdown; auto.
Qed.

(** What [send] does on a connection that is shut down: one ERROR line
    when the user closed it, nothing otherwise. *)
Lemma send_text_shutdown webSocketResponse c :
  shutdown c = true ->
  snd (send_text env webSocketResponse c) =
  if shutdownByUser c
  then log ERROR "Server wrote to connection after closing it" c
  else c.
Proof.
  intros H. unfold send_text. rewrite H. destruct (shutdownByUser c); reflexivity.
Qed.

Lemma send_binary_shutdown data c :
  shutdown c = true ->
  snd (send_binary env data c) =
  if shutdownByUser c
  then log ERROR "Client wrote to connection after closing it" c
  else c.
Proof.
  intros H. unfold send_binary. rewrite H. destruct (shutdownByUser c); reflexivity.
Qed.

(** Once shut down, a connection stays shut down and its wire and output
    buffer stay as they are, whatever is called. *)
Lemma call_after_shutdown k c :
  shutdown c = true ->
  shutdown (call env k c) = true /\ wire (call env k c) = wire c /\
  outBuf (call env k c) = outBuf c.
Proof.
  intros H. destruct k; cbn [call].
  - rewrite write_shutdown by exact H. auto.
  - rewrite flush_shutdown by exact H. auto.
  - rewrite safeSend_shutdown by exact H. auto.
  - rewrite send_text_shutdown by exact H. destruct (shutdownByUser c); simpl; auto.
  - rewrite send_binary_shutdown by exact H. destruct (shutdownByUser c); simpl; auto.
  - unfold close, bind, modify.
    pose proof (closeInternal_spec (set_shutdownByUser true c)) as Hs.
    destruct (closeInternal env (set_shutdownByUser true c)) as [u c2].
    simpl in *. destruct Hs as (T1 & T2 & T3 & _). auto.
  - pose proof (closeInternal_spec c) as Hs.
    destruct (closeInternal env c) as [u c2].
    simpl in *. destruct Hs as (T1 & T2 & T3 & _). auto.
  - unfold closeWhenEmpty. destruct (outBuf c) eqn:Ho.
    + pose proof (closeInternal_spec c) as Hs.
      destruct (closeInternal env c) as [u c2].
      simpl in *. destruct Hs as (T1 & T2 & T3 & _). rewrite T3. auto.
    + simpl. auto.
  - unfold handleDataReadyForWrite. rewrite closed_shutdown by exact H. auto.
Qed.

Lemma run_after_shutdown calls : forall c,
  shutdown c = true ->
  shutdown (run env calls c) = true /\ wire (run env calls c) = wire c /\
  outBuf (run env calls c) = outBuf c.
Proof.
  induction calls as [|k rest IH]; intros c H; simpl; auto.
  destruct (call_after_shutdown k c H) as (H1 & H2 & H3).
  destruct (IH (call env k c) H1) as (H4 & H5 & H6).
  repeat split; congruence.
Qed.

Lemma keeps_ret P A (a : A) : keeps P (ret a).
Proof. intros c a' c' H. inversion H; subst; auto. Qed.

Lemma keeps_bind P A B (m : M A) (k : A -> M B) :
  keeps P m -> (forall a, keeps P (k a)) -> keeps P (bind m k).
Proof.
  intros Hm Hk c b c' H Hp. unfold bind in H.
  destruct (m c) as [a c1] eqn:E.
  eapply Hk; eauto.
Qed.


Lemma big_endian_length k n : length (big_endian k n) = k.
Proof. induction k; simpl; auto. Qed.









(** C3: once the shutdown flag is set nothing is sent any more: the flag
    stays set and the wire stays as it is over every sequence of calls,
    safeSend returns -1 without touching the connection, and send (text or
    binary) only logs, one ERROR line exactly when shutdownByUser is set,
    which is what close does and closeInternal does not; a read event
    returns at once. *)
Theorem no_bytes_sent_after_shutdown c :
  shutdown c = true ->
  (forall calls,
      shutdown (run env calls c) = true /\ wire (run env calls c) = wire c)
  /\ (forall data, safeSend env data c = (-1, c))
  /\ (forall webSocketResponse,
        let c' := snd (send_text env webSocketResponse c) in
        wire c' = wire c /\ outBuf c' = outBuf c /\
        logged c' = logged c ++
          (if shutdownByUser c
           then [(ERROR, "Server wrote to connection after closing it"%string)]
           else []))
  /\ (forall data,
        let c' := snd (send_binary env data c) in
        wire c' = wire c /\ outBuf c' = outBuf c /\
        logged c' = logged c ++
          (if shutdownByUser c
           then [(ERROR, "Client wrote to connection after closing it"%string)]
           else []))
  /\ (forall c0, shutdown (snd (close env c0)) = true /\
                 shutdownByUser (snd (close env c0)) = true)
  /\ (forall c0, shutdown (snd (closeInternal env c0)) = true /\
                 shutdownByUser (snd (closeInternal env c0)) = shutdownByUser c0)
  /\ (forall co o, handleDataReadyForRead env co o c = Some c).
Proof.
  intros H. repeat apply conj.
  - intros calls. destruct (run_after_shutdown calls c H) as (H1 & H2 & _). auto.
  - intros data. apply safeSend_shutdown. exact H.
  - intros w. cbv zeta. rewrite send_text_shutdown by exact H.
    destruct (shutdownByUser c); simpl; repeat split; auto.
    symmetry; apply app_nil_r.
  - intros d. cbv zeta. rewrite send_binary_shutdown by exact H.
    destruct (shutdownByUser c); simpl; repeat split; auto.
    symmetry; apply app_nil_r.
  - intros c0. unfold close, bind, modify.
    pose proof (closeInternal_spec (set_shutdownByUser true c0)) as Hs.
    destruct (closeInternal env (set_shutdownByUser true c0)) as [u c2].
    simpl in *. destruct Hs as (T1 & _ & _ & _ & _ & _ & _ & _ & T9 & _). auto.
  - intros c0. pose proof (closeInternal_spec c0) as Hs.
    destruct (closeInternal env c0) as [u c2].
    simpl in *. destruct Hs as (T1 & _ & _ & _ & _ & _ & _ & _ & T9 & _). auto.
  - intros co o. unfold handleDataReadyForRead.
    rewrite closed_shutdown by exact H. reflexivity.
Qed.

End WritePathFacts.



(** After close() on a fresh connection: shut down by the user, so a later
    send leaves the wire empty and logs its one ERROR line. *)
Lemma no_bytes_sent_after_shutdown_witness :
  let c := snd (close (roomy 4096) (newConnection 5)) in
  shutdown c = true
  /\ wire (run (roomy 4096) [CallSendText (lit "late"); CallWrite (lit "x") true] c) = []
  /\ logged (snd (send_text (roomy 4096) (lit "late") c))
     = [(ERROR, "Server wrote to connection after closing it"%string)].
Proof.
  intros c.
  assert (H : shutdown c = true) by reflexivity.
  destruct (no_bytes_sent_after_shutdown (roomy 4096) c H)
    as (H1 & H2 & H3 & H4 & H5 & H6 & H7).
  split; [exact H|]. split.
  - destruct (H1 [CallSendText (lit "late"); CallWrite (lit "x") true]) as [_ Hw].
    rewrite Hw. reflexivity.
  - destruct (H3 (lit "late")) as (_ & _ & Hl). rewrite Hl. reflexivity.
Defined.

(** ** parseWebSocketKey *)

Lemma uint32_digit_step n v :
  to_uint32 (to_uint32 (to_uint32 (n * 10) + v) - 48) = (n * 10 + (v - 48)) mod 2 ^ 32.
Proof.
  unfold to_uint32.
  rewrite Zplus_mod_idemp_l, Zminus_mod_idemp_l. f_equal. lia.
Qed.

Lemma parseWebSocketKey_loop_spec key : forall n s,
  0 <= s -> s + key_spaces (c_str key) < 2 ^ 32 ->
  parseWebSocketKey_loop key n s =
  (fold_left (fun N c => if is_digit c then (N * 10 + (byte_val c - 48)) mod 2 ^ 32 else N)
             (c_str key) n,
   s + key_spaces (c_str key)).
Proof.
  unfold key_spaces.
  induction key as [|c rest IH]; intros n s Hs Hb; simpl.
  - f_equal. lia.
  - simpl in Hb. destruct (Ascii.eqb c NUL) eqn:Hnul; simpl.
    + f_equal. lia.
    + simpl in Hb. fold (is_digit c).
      destruct (ascii_dec c " ") as [->|Hne].
      * simpl.
        assert (Hw : to_uint32 (s + 1) = s + 1).
        { unfold to_uint32. apply Z.mod_small. lia. }
        rewrite Hw. rewrite IH by lia. f_equal. lia.
      * destruct (is_digit c) eqn:Hd.
        -- change (byte_val "0") with 48. rewrite uint32_digit_step.
           apply IH; auto.
        -- destruct (Ascii.eqb c " ") eqn:Hsp.
           ++ apply Ascii.eqb_eq in Hsp. contradiction.
           ++ apply IH; auto.
Qed.

(** C5: for every header value (a C string with fewer than 2^32 spaces), the
    Hixie key is N / S when S > 0 and 0 when S = 0, N being the 32-bit fold of
    the decimal digits and S the number of spaces. *)
Theorem parseWebSocketKey_is_number_over_spaces (value : bytes) :
  key_spaces (c_str value) < 2 ^ 32 ->
  parseWebSocketKey value =
  if 0 <? key_spaces (c_str value)
  then key_number (c_str value) / key_spaces (c_str value)
  else 0.
Proof.
  intros H. unfold parseWebSocketKey.
  rewrite parseWebSocketKey_loop_spec by (simpl; lia).
  reflexivity.
Qed.

Lemma parseWebSocketKey_is_number_over_spaces_witness :
  parseWebSocketKey (lit "18x 6]8vM;54 *(5:  {   U1]8  z [  8") = 155712099.
Proof.
  rewrite (parseWebSocketKey_is_number_over_spaces
             (lit "18x 6]8vM;54 *(5:  {   U1]8  z [  8")).
  - reflexivity.
  - vm_compute. reflexivity.
Defined.

(** ** WebSocket frames *)

Arguments closeInternal : simpl never.
Arguments safeSend : simpl never.
Arguments flush : simpl never.
Arguments write : simpl never.
Arguments sendHybi : simpl never.
Arguments handleWebSocketTextMessage : simpl never.
Arguments handleWebSocketBinaryMessage : simpl never.

Section FrameFacts.

Variable env : Environment.
Variable co : Collaborators.


Lemma c_str_app_nul_any p post : c_str (p ++ NUL :: post) = c_str p.
Proof.
  induction p as [|x p IH]; simpl; [reflexivity|].
  destruct (Ascii.eqb x NUL); [reflexivity | f_equal; exact IH].
Qed.

Lemma scan_ff_bound p : forall i,
  scan_ff p i = 0%nat \/ (i <= scan_ff p i < i + length p)%nat.
Proof.
  induction p as [|x p IH]; intros i; simpl; [auto|].
  destruct (Ascii.eqb x (byte_of 255)).
  - right. lia.
  - destruct (IH (S i)) as [H | H]; [auto | right; lia].
Qed.

Lemma scan_ff_found payload rest i :
  ~ In (byte_of 255) payload ->
  scan_ff (payload ++ byte_of 255 :: rest) (S i) = (S i + length payload)%nat.
Proof.
  revert i. induction payload as [|x p IH]; intros i Hn; simpl.
  - lia.
  - destruct (Ascii.eqb x (byte_of 255)) eqn:E.
    + apply Ascii.eqb_eq in E. exfalso. apply Hn. left. auto.
    + rewrite IH; [lia|]. intros Hin. apply Hn. right. exact Hin.
Qed.

Lemma store_length i v buf :
  (i < length buf)%nat -> length (store i v buf) = length buf.
Proof.
  intros H. unfold store. rewrite length_app. cbn [length].
  rewrite length_firstn, length_skipn. lia.
Qed.

Lemma handleWebSocketTextMessage_spec message c :
  let c' := snd (handleWebSocketTextMessage message c) in
  inBuf c' = inBuf c /\ shutdown c' = shutdown c /\
  webSocketHandler c' = webSocketHandler c /\
  events c' = events c ++
    match webSocketHandler c with
    | Some h => [OnDataText h (c_str message)]
    | None => []
    end.
Proof.
  unfold handleWebSocketTextMessage, bind, modify, gets, ret. simpl.
  destruct (webSocketHandler c) eqn:E; simpl; rewrite ?E; repeat split; auto.
  symmetry; apply app_nil_r.
Qed.

(** The Hixie loop always comes to an end within its fuel. *)
Lemma hixieLoop_total fuel : forall messageStart c,
  (length (inBuf c) < S fuel + messageStart)%nat ->
  exists r, hixieLoop env (S fuel) messageStart c = Some r.
Proof.
  induction fuel as [|fuel IH]; intros ms c Hlen.
  - cbn [hixieLoop]. destruct (ms <? length (inBuf c))%nat eqn:Hms; [|eauto].
    apply Nat.ltb_lt in Hms. lia.
  - cbn [hixieLoop]. fold (hixieLoop env (S fuel)).
    destruct (ms <? length (inBuf c))%nat eqn:Hms; [|eauto].
    apply Nat.ltb_lt in Hms.
    destruct (negb (Ascii.eqb (nth ms (inBuf c) NUL) NUL)); [eauto|].
    destruct (scan_ff_bound (skipn (S ms) (inBuf c)) (S ms)) as [H0 | Hb].
    + rewrite H0. simpl. eauto.
    + rewrite length_skipn in Hb.
      destruct (Nat.eqb (scan_ff (skipn (S ms) (inBuf c)) (S ms)) 0) eqn:E.
      * simpl. eauto.
      * cbn [negb]. cbv iota. apply IH.
        match goal with
        | |- context [handleWebSocketTextMessage ?m ?c0] =>
          destruct (handleWebSocketTextMessage_spec m c0) as (Hi & _)
        end.
        rewrite Hi. cbn [inBuf set_inBuf]. rewrite store_length by lia. lia.
Qed.

(** Connection::handleHixieWebSocket returns. *)
Lemma handleHixieWebSocket_total c :
  exists c', handleHixieWebSocket env c = Some c'.
Proof.
  unfold handleHixieWebSocket. destruct (inBuf c) as [|x0 l0] eqn:Hb; [eauto|].
  rewrite <- Hb.
  destruct (hixieLoop_total (length (inBuf c)) 0 c) as [[[normal ms] c1] Hr]; [lia|].
  rewrite Hr. destruct normal; [|eauto].
  match goal with |- context [if ?t then _ else _] => destruct t end; eauto.
Qed.

(** The handler calls made by the Hixie loop are added to those made before. *)
Lemma hixieLoop_events fuel : forall messageStart c b ms' c',
  hixieLoop env fuel messageStart c = Some (b, ms', c') ->
  exists more, events c' = events c ++ more.
Proof.
  induction fuel as [|fuel IH]; intros ms c b ms' c' H; cbn [hixieLoop] in H;
    [discriminate|].
  destruct (ms <? length (inBuf c))%nat.
  - destruct (negb (Ascii.eqb (nth ms (inBuf c) NUL) NUL)).
    + pose proof (closeInternal_spec env (log WARNING "Error in WebSocket input stream" c))
        as Hs. cbv zeta in Hs.
      destruct Hs as (_ & _ & _ & _ & _ & He & _).
      replace c' with
        (snd (closeInternal env (log WARNING "Error in WebSocket input stream" c)))
        by congruence.
      rewrite He.
      exists []. simpl. symmetry; apply app_nil_r.
    + destruct (negb (Nat.eqb (scan_ff (skipn (S ms) (inBuf c)) (S ms)) 0)).
      * apply IH in H. destruct H as [more Hm].
        match type of Hm with
        | events c' = events (snd (handleWebSocketTextMessage ?m ?c0)) ++ _ =>
          destruct (handleWebSocketTextMessage_spec m c0) as (_ & _ & _ & He)
        end.
        rewrite He in Hm. simpl in Hm. rewrite <- app_assoc in Hm. eauto.
      * inversion H; subst. exists []. symmetry; apply app_nil_r.
  - inversion H; subst. exists []. symmetry; apply app_nil_r.
Qed.

Lemma store_at a v x b : store (length a) v (a ++ x :: b) = a ++ v :: b.
Proof.
  unfold store. induction a as [|y a IH]; simpl.
  - reflexivity.
  - f_equal. exact IH.
Qed.

Lemma handleHixieWebSocket_nonempty c :
  inBuf c <> [] ->
  handleHixieWebSocket env c = hixieFinish env (hixieLoop env (S (length (inBuf c))) 0 c).
Proof.
  intros Hne. unfold handleHixieWebSocket, hixieFinish.
  destruct (inBuf c); [contradiction | reflexivity].
Qed.

Lemma hixieFinish_events normal ms c2 :
  exists c', hixieFinish env (Some (normal, ms, c2)) = Some c' /\ events c' = events c2.
Proof.
  unfold hixieFinish. destruct normal; [|eauto].
  set (x := if negb (Nat.eqb ms 0) then set_inBuf (skipn ms (inBuf c2)) c2 else c2).
  assert (Hx : events x = events c2)
    by (unfold x; destruct (negb (Nat.eqb ms 0)); reflexivity).
  destruct (MaxWebsocketMessageSize <? size (inBuf x)); [|eauto].
  eexists; split; [reflexivity|].
  destruct (closeInternal_spec env (log WARNING "WebSocket message too long" x))
    as (_ & _ & _ & _ & _ & Hce & _).
  rewrite Hce. exact Hx.
Qed.

Lemma scan_ff_none p : forall i, ~ In (byte_of 255) p -> scan_ff p i = 0%nat.
Proof.
  induction p as [|x p IH]; intros i Hn; simpl; [reflexivity|].
  destruct (Ascii.eqb x (byte_of 255)) eqn:E.
  - apply Ascii.eqb_eq in E. exfalso. apply Hn. left. auto.
  - apply IH. intros Hin. apply Hn. right. exact Hin.
Qed.

Lemma nth_after (done : bytes) x rest d : nth (length done) (done ++ x :: rest) d = x.
Proof. induction done; simpl; auto. Qed.

Lemma skipn_after (done : bytes) x rest :
  skipn (S (length done)) (done ++ x :: rest) = rest.
Proof. induction done; simpl; auto. Qed.

Lemma skipn_done (done rest : bytes) : skipn (length done) (done ++ rest) = rest.
Proof. induction done; simpl; auto. Qed.

Lemma hixieFrame_length payload : length (hixieFrame payload) = S (S (length payload)).
Proof. unfold hixieFrame. simpl. rewrite length_app. simpl. lia. Qed.

(** One turn of the Hixie loop on a complete frame at [messageStart]: the
    0xff is overwritten with 0 and the handler is given the buffer from the
    payload on. *)
Lemma hixieLoop_frame_at fuel c done payload rest :
  ~ In (byte_of 255) payload ->
  inBuf c = done ++ hixieFrame payload ++ rest ->
  hixieLoop env (S fuel) (length done) c =
  hixieLoop env fuel (length (done ++ hixieFrame payload))
    (snd (handleWebSocketTextMessage (payload ++ NUL :: rest)
            (set_inBuf (done ++ NUL :: payload ++ NUL :: rest) c))).
Proof.
  intros Hff Hbuf. unfold hixieFrame in *. cbn [hixieLoop]. rewrite Hbuf.
  assert (Hlt : (length done <? length (done ++ (NUL :: payload ++ [byte_of 255]) ++ rest))%nat
                = true).
  { apply Nat.ltb_lt. rewrite !length_app. simpl. lia. }
  rewrite Hlt. cbn [app]. rewrite nth_after.
  change (negb (Ascii.eqb NUL NUL)) with false. cbv iota.
  rewrite skipn_after. rewrite <- app_assoc. cbn [app].
  rewrite (scan_ff_found payload rest (length done) Hff).
  assert (Hnz : negb (Nat.eqb (S (length done) + length payload) 0) = true) by reflexivity.
  rewrite Hnz. cbv iota.
  replace (S (length done) + length payload)%nat with (length (done ++ NUL :: payload))
    by (rewrite length_app; simpl; lia).
  replace (done ++ NUL :: payload ++ byte_of 255 :: rest)
    with ((done ++ NUL :: payload) ++ byte_of 255 :: rest)
    by (rewrite <- app_assoc; reflexivity).
  rewrite store_at.
  replace ((done ++ NUL :: payload) ++ NUL :: rest)
    with (done ++ NUL :: payload ++ NUL :: rest)
    by (rewrite <- app_assoc; reflexivity).
  cbn [inBuf set_inBuf].
  replace (S (length (done ++ NUL :: payload)))
    with (length (done ++ NUL :: payload ++ [byte_of 255]))
    by (rewrite !length_app; simpl; rewrite length_app; simpl; lia).
  replace (skipn (S (length done)) (done ++ NUL :: payload ++ NUL :: rest))
    with (payload ++ NUL :: rest) by (rewrite skipn_after; reflexivity).
  reflexivity.
Qed.

(** The Hixie loop over a buffer that holds, from [messageStart] on, whole
    frames and then nothing or the beginning of a frame: every frame is
    handed to the handler as the C string at the start of its payload, and the
    loop ends in front of what is unfinished. *)
Lemma hixieLoop_frames h payloads : forall fuel done c tail,
  webSocketHandler c = Some h ->
  Forall (fun p => ~ In (byte_of 255) p) payloads ->
  (length payloads < fuel)%nat ->
  unfinished tail ->
  inBuf c = done ++ concat (map hixieFrame payloads) ++ tail ->
  exists done' c',
    hixieLoop env fuel (length done) c = Some (true, length done', c') /\
    inBuf c' = done' ++ tail /\
    events c' = events c ++ map (fun p => OnDataText h (c_str p)) payloads /\
    shutdown c' = shutdown c.
Proof.
  induction payloads as [|p rest IH]; intros fuel done c tail Hh Hall Hfuel Htail Hbuf.
  - destruct fuel as [|fuel]; [lia|]. cbn [map concat app] in Hbuf.
    exists done, c. split; [|rewrite app_nil_r; auto].
    cbn [hixieLoop]. rewrite Hbuf.
    destruct Htail as [-> | (partial & -> & Hff)].
    + rewrite app_nil_r, Nat.ltb_irrefl. reflexivity.
    + assert (Hlt : (length done <? length (done ++ NUL :: partial))%nat = true).
      { apply Nat.ltb_lt. rewrite length_app. simpl. lia. }
      rewrite Hlt, nth_after. change (negb (Ascii.eqb NUL NUL)) with false. cbv iota.
      rewrite skipn_after, scan_ff_none by exact Hff. reflexivity.
  - destruct fuel as [|fuel]; [simpl in Hfuel; lia|].
    inversion Hall as [|? ? Hp Hrest]; subst.
    cbn [map concat] in Hbuf. rewrite <- app_assoc in Hbuf.
    rewrite (hixieLoop_frame_at fuel c done p _ Hp Hbuf).
    set (c0 := set_inBuf (done ++ NUL :: p ++ NUL :: concat (map hixieFrame rest) ++ tail) c).
    destruct (handleWebSocketTextMessage_spec
                (p ++ NUL :: concat (map hixieFrame rest) ++ tail) c0)
      as (Hi & Hs & Hw & He).
    set (c1 := snd (handleWebSocketTextMessage
                      (p ++ NUL :: concat (map hixieFrame rest) ++ tail) c0)) in *.
    destruct (IH fuel (done ++ NUL :: p ++ [NUL]) c1 tail)
      as (done' & c' & Hl & Hb & Hev & Hsd).
    + rewrite Hw. exact Hh.
    + exact Hrest.
    + simpl in Hfuel. lia.
    + exact Htail.
    + rewrite Hi. unfold c0. cbn [inBuf set_inBuf].
      repeat rewrite <- app_assoc. cbn [app]. repeat rewrite <- app_assoc. reflexivity.
    + exists done', c'. split.
      * rewrite <- Hl. f_equal. rewrite !length_app. unfold hixieFrame. simpl.
        rewrite !length_app. reflexivity.
      * split; [exact Hb|]. split.
        -- rewrite Hev, He. unfold c0 at 1 2. cbn [events webSocketHandler set_inBuf].
           rewrite Hh, c_str_app_nul_any, <- app_assoc. reflexivity.
        -- rewrite Hsd, Hs. reflexivity.
Qed.

(** Connection::handleHixieWebSocket on such a buffer. *)
Lemma handleHixieWebSocket_frames c h payloads tail :
  webSocketHandler c = Some h ->
  Forall (fun p => ~ In (byte_of 255) p) payloads ->
  unfinished tail ->
  inBuf c = concat (map hixieFrame payloads) ++ tail ->
  exists c',
    handleHixieWebSocket env c = Some c' /\
    events c' = events c ++ map (fun p => OnDataText h (c_str p)) payloads /\
    inBuf c' = tail /\
    (size tail <= MaxWebsocketMessageSize -> shutdown c' = shutdown c).
Proof.
  intros Hh Hall Htail Hbuf.
  destruct (inBuf c) as [|x0 l0] eqn:Hb0.
  { symmetry in Hbuf. apply app_eq_nil in Hbuf as [Hc Ht].
    assert (payloads = []).
    { destruct payloads; [reflexivity | discriminate]. }
    subst. exists c. unfold handleHixieWebSocket. rewrite Hb0.
    split; [reflexivity|]. rewrite app_nil_r. auto. }
  rewrite <- Hb0 in *.
  rewrite handleHixieWebSocket_nonempty by (rewrite Hb0; discriminate).
  assert (Hfuel : (length payloads < S (length (inBuf c)))%nat).
  { rewrite Hbuf, length_app.
    assert (length payloads <= length (concat (map hixieFrame payloads)))%nat; [|lia].
    clear. induction payloads as [|p rest IH]; cbn [map concat length]; [lia|].
    rewrite length_app, hixieFrame_length. lia. }
  destruct (hixieLoop_frames h payloads (S (length (inBuf c))) [] c tail
              Hh Hall Hfuel Htail Hbuf) as (done' & c1 & Hl & Hb & Hev & Hsd).
  cbn [length] in Hl. rewrite Hl. unfold hixieFinish.
  set (c2 := if negb (Nat.eqb (length done') 0)
             then set_inBuf (skipn (length done') (inBuf c1)) c1 else c1).
  assert (Hc2 : inBuf c2 = tail /\ events c2 = events c1 /\ shutdown c2 = shutdown c1).
  { unfold c2. destruct (length done') eqn:Hd; cbn [Nat.eqb negb].
    - destruct done'; [|discriminate]. rewrite Hb. auto.
    - rewrite <- Hd. cbn [inBuf events shutdown set_inBuf].
      rewrite Hb, skipn_done. auto. }
  destruct Hc2 as (Hb2 & Hev2 & Hsd2). clearbody c2.
  destruct (MaxWebsocketMessageSize <? size (inBuf c2)) eqn:Hbig.
  - eexists. split; [reflexivity|].
    destruct (closeInternal_spec env (log WARNING "WebSocket message too long" c2))
      as (_ & _ & _ & Hi & _ & He & _).
    rewrite He, Hi. cbn [events inBuf log]. rewrite Hev2, Hev, Hb2.
    repeat split; auto. intros Hsmall. apply Z.ltb_lt in Hbig. rewrite Hb2 in Hbig. lia.
  - exists c2. rewrite Hev2, Hev, Hsd2, Hsd. auto.
Qed.



End FrameFacts.


(** C2, at the input that shows the defect: a Hixie text frame of 16385
    payload bytes arriving in two reads (16384 bytes, then the last two
    payload bytes and the 0xff).  The whole message is handed to the handler
    and the connection stays open. *)
Theorem hixie_message_over_limit_is_delivered :
  option_map (fun c => (events c, shutdown c, closed c, inBuf c))
    (readTwice (roomy 4096) standIns
       (NUL :: repeat "a"%char (Z.to_nat 16383))
       ["a"%char; "a"%char; byte_of 255]
       hixieConnection)
  = Some ([OnDataText 7%nat (repeat "a"%char (Z.to_nat 16385))], false, false, [])
  /\ MaxWebsocketMessageSize < size (repeat "a"%char (Z.to_nat 16385)).
Proof.
  split; vm_compute; reflexivity.
Qed.

(** ** Decimal numbers *)

Lemma byte_val_byte_of z : 0 <= z < 256 -> byte_val (byte_of z) = z.
Proof.
  intros H. unfold byte_val, byte_of.
  rewrite N_ascii_embedding.
  - rewrite Z2N.id by (apply Z.mod_pos_bound; lia). apply Z.mod_small; lia.
  - rewrite Z.mod_small by lia. lia.
Qed.

Lemma byte_val_range c : 0 <= byte_val c < 256.
Proof.
  unfold byte_val. pose proof (N_ascii_bounded c). lia.
Qed.











(** ** Tactics for buffers and sizes *)

Lemma bind_eq A B (m : M A) (k : A -> M B) c a c1 :
  m c = (a, c1) -> bind m k c = k a c1.
Proof. intros H. unfold bind. rewrite H. reflexivity. Qed.

Lemma size_crlf : size crlf = 2.
Proof. reflexivity. Qed.

Ltac size_facts :=
  repeat match goal with
         | |- context [size ?x] =>
           lazymatch goal with
           | _ : 0 <= size x |- _ => fail
           | _ => pose proof (size_nonneg x)
           end
         | _ : context [size ?x] |- _ =>
           lazymatch goal with
           | _ : 0 <= size x |- _ => fail
           | _ => pose proof (size_nonneg x)
           end
         end.

Ltac conn_simpl :=
  cbn [fd shutdown hadSendError closeOnEmpty registeredForWriteEvents bytesSent
       bytesReceived shutdownByUser state inBuf outBuf webSocketKeys
       hixieExtraHeaders requestUri request webSocketHandler wire logged
       events tick
       set_shutdown set_closeOnEmpty set_registeredForWriteEvents
       set_bytesSent set_bytesReceived set_shutdownByUser set_state set_inBuf
       set_outBuf set_webSocketKeys set_hixieExtraHeaders set_requestUri
       set_request set_webSocketHandler set_wire log notify next_tick
       fst snd] in *.

Ltac cstr_lits :=
  repeat match goal with
         | |- context [c_str (lit ?s)] => change (c_str (lit s)) with (lit s)
         end.

Ltac lit_sizes :=
  repeat match goal with
         | |- context [size (lit ?s)] =>
           let v := eval vm_compute in (size (lit s)) in
           change (size (lit s)) with v
         | H : context [size (lit ?s)] |- _ =>
           let v := eval vm_compute in (size (lit s)) in
           change (size (lit s)) with v in H
         end.

Ltac size_lia :=
  conn_simpl; cstr_lits;
  repeat rewrite size_app in *; rewrite ?size_crlf in *; lit_sizes;
  size_facts; unfold MaxBufferSize in *; lia.

Ltac writable_now :=
  match goal with
  | H : writable _ |- _ =>
    unfold writable, closed in *; conn_simpl; exact H
  end.

(** ** Buffered responses *)

Section ResponseFacts.

Variable env : Environment.
Variable co : Collaborators.

Lemma same_session_refl c : same_session c c.
Proof. unfold same_session. repeat split. Qed.

Lemma same_session_trans c1 c2 c3 :
  same_session c1 c2 -> same_session c2 c3 -> same_session c1 c3.
Proof.
  unfold same_session.
  intros (A1 & A2 & A3 & A4 & A5 & A6 & A7 & A8 & A9 & A10 & A11)
         (B1 & B2 & B3 & B4 & B5 & B6 & B7 & B8 & B9 & B10 & B11).
  repeat split; congruence.
Qed.

Lemma closeInternal_session c : same_session c (snd (closeInternal env c)).
Proof.
  unfold closeInternal, same_session; simpl.
  destruct (negb (fd c =? -1) && negb (shutdown c)); simpl;
    [destruct (sock_shutdown env (tick c)); simpl|]; repeat split; reflexivity.
Qed.

Lemma keeps_session_closeInternal c0 :
  keeps (same_session c0) (closeInternal env).
Proof.
  intros c u c' H Hp. eapply same_session_trans; [exact Hp|].
  replace c' with (snd (closeInternal env c)) by (rewrite H; reflexivity).
  apply closeInternal_session.
Qed.

Lemma keeps_session_modify c0 f :
  (forall c, same_session c (f c)) -> keeps (same_session c0) (modify f).
Proof.
  intros Hf c u c' H Hp. unfold modify in H. inversion H; subst.
  eapply same_session_trans; [exact Hp | apply Hf].
Qed.

Lemma keeps_session_safeSend c0 data : keeps (same_session c0) (safeSend env data).
Proof.
  intros c r c' H Hp. eapply same_session_trans; [exact Hp|].
  unfold safeSend in H.
  destruct ((fd c =? -1) || hadSendError c || shutdown c).
  { inversion H; subst. apply same_session_refl. }
  destruct (to_int (os_send (sock_send env (tick c)) (size data)) =? -1).
  - destruct (is_eagain (sock_send env (tick c))).
    + inversion H; subst. unfold same_session; simpl. repeat split.
    + unfold bind, modify, ret in H.
      destruct (closeInternal env (log WARNING "Unable to write to socket" (next_tick c)))
        as [u c1] eqn:E.
      inversion H; subst.
      replace c' with (snd (closeInternal env
                              (log WARNING "Unable to write to socket" (next_tick c))))
        by (rewrite E; reflexivity).
      eapply same_session_trans; [|apply closeInternal_session].
      unfold same_session; simpl. repeat split.
  - inversion H; subst. unfold same_session; simpl. repeat split.
Qed.

Lemma keeps_session_flush c0 : keeps (same_session c0) (flush env).
Proof.
  intros c ok c' H Hp. unfold flush in H.
  destruct (outBuf c) eqn:Hob.
  { inversion H; subst. exact Hp. }
  rewrite <- Hob in H.
  destruct (safeSend env (outBuf c) c) as [numSent c1] eqn:Hss.
  pose proof (keeps_session_safeSend c0 _ _ _ _ Hss Hp) as H1.
  destruct (numSent =? -1).
  { inversion H; subst. exact H1. }
  set (c2 := set_outBuf (skipn (Z.to_nat numSent) (outBuf c1)) c1) in *.
  assert (H2 : same_session c0 c2).
  { eapply same_session_trans; [exact H1|]. unfold c2, same_session; simpl.
    repeat split. }
  clearbody c2.
  match type of H with
  | (let (_, _) := ?e in _) = _ => destruct e as [ok1 c3] eqn:Hsub
  end.
  assert (H3 : same_session c0 c3).
  { eapply same_session_trans; [exact H2|].
    destruct ((0 <? size (outBuf c2)) && negb (registeredForWriteEvents c2)).
    - destruct (subscribeToWriteEvents env (tick c2));
        inversion Hsub; subst; unfold same_session; simpl; repeat split.
    - destruct ((size (outBuf c2) =? 0) && registeredForWriteEvents c2).
      + destruct (unsubscribeFromWriteEvents env (tick c2));
          inversion Hsub; subst; unfold same_session; simpl; repeat split.
      + inversion Hsub; subst. apply same_session_refl. }
  destruct (negb ok1).
  { inversion H; subst. exact H3. }
  destruct ((size (outBuf c3) =? 0) && negb (closed c3) && closeOnEmpty c3).
  - unfold bind, modify, ret in H.
    destruct (closeInternal env (log DEBUG "Ready for close, now empty" c3))
      as [u c4] eqn:E.
    inversion H; subst.
    replace c' with (snd (closeInternal env (log DEBUG "Ready for close, now empty" c3)))
      by (rewrite E; reflexivity).
    eapply same_session_trans; [exact H3|].
    eapply same_session_trans; [|apply closeInternal_session].
    unfold same_session; simpl. repeat split.
  - inversion H; subst. exact H3.
Qed.

Lemma keeps_session_write c0 data flushIt :
  keeps (same_session c0) (write env data flushIt).
Proof.
  intros c ok c' H Hp. unfold write in H.
  destruct (closed c || closeOnEmpty c).
  { inversion H; subst. exact Hp. }
  destruct (size data =? 0).
  { destruct flushIt.
    - eapply keeps_session_flush; eauto.
    - inversion H; subst. exact Hp. }
  destruct (if is_empty (outBuf c) && flushIt then safeSend env data c else (0, c))
    as [sent c1] eqn:Hss.
  assert (H1 : same_session c0 c1).
  { destruct (is_empty (outBuf c) && flushIt).
    - eapply keeps_session_safeSend; eauto.
    - inversion Hss; subst. exact Hp. }
  destruct (is_empty (outBuf c) && flushIt && (sent =? to_int (size data))).
  { inversion H; subst. exact H1. }
  destruct (is_empty (outBuf c) && flushIt && (sent =? -1)).
  { inversion H; subst. exact H1. }
  match type of H with
  | (if ?t then _ else _) = _ => destruct t
  end.
  - unfold bind, modify, ret in H.
    destruct (closeInternal env
                (log WARNING "Closing connection: buffer size too large" c1))
      as [u c2] eqn:E.
    inversion H; subst.
    replace c' with (snd (closeInternal env
                (log WARNING "Closing connection: buffer size too large" c1)))
      by (rewrite E; reflexivity).
    eapply same_session_trans; [exact H1|].
    eapply same_session_trans; [|apply closeInternal_session].
    unfold same_session; simpl. repeat split.
  - match type of H with
    | (if flushIt then flush env ?x else _) = _ =>
      assert (H2 : same_session c0 x)
        by (eapply same_session_trans; [exact H1|];
            unfold same_session; simpl; repeat split)
    end.
    destruct flushIt.
    + eapply keeps_session_flush; eauto.
    + inversion H; subst. exact H2.
Qed.

Lemma bufferLine_ok line c :
  writable c ->
  size (outBuf c) + (size line + 2) < MaxBufferSize ->
  bufferLine env line c = (true, set_outBuf (outBuf c ++ line ++ crlf) c).
Proof.
  intros [Hc He] Hroom. unfold bufferLine. apply write_buffers; auto.
  size_lia.
Qed.

Lemma bufferLine_cstr_ok line c :
  writable c ->
  size (outBuf c) + (size (c_str line) + 2) < MaxBufferSize ->
  bufferLine_cstr env line c = (true, set_outBuf (outBuf c ++ c_str line ++ crlf) c).
Proof.
  intros [Hc He] Hroom. unfold bufferLine_cstr.
  erewrite bind_eq by (apply write_buffers; auto; size_lia).
  cbn [negb]. rewrite write_buffers; auto; [|size_lia].
  cbn [outBuf set_outBuf]. rewrite <- app_assoc. reflexivity.
Qed.

(** bufferResponseAndCommonHeaders on a writable connection with room. *)
Lemma bufferResponseAndCommonHeaders_ok code c :
  writable c ->
  size (outBuf c) + size (responseHead co code (clock env (tick c))) < MaxBufferSize ->
  bufferResponseAndCommonHeaders env co code c =
  (tt, set_outBuf (outBuf c ++ responseHead co code (clock env (tick c)))
         (next_tick (log ACCESS "Response: " c))).
Proof.
  intros Hw Hroom. unfold bufferResponseAndCommonHeaders, responseHead in *.
  erewrite bind_eq by reflexivity.
  erewrite bind_eq by (apply bufferLine_ok; [writable_now | size_lia]).
  erewrite bind_eq by (apply bufferLine_cstr_ok; [writable_now | size_lia]).
  erewrite bind_eq by reflexivity.
  erewrite bind_eq by (apply bufferLine_ok; [writable_now | size_lia]).
  erewrite bind_eq by (apply bufferLine_cstr_ok; [writable_now | size_lia]).
  unfold ret. conn_simpl. cstr_lits.
  repeat rewrite <- app_assoc. reflexivity.
Qed.


Lemma keeps_session_gets c0 A (f : Connection -> A) : keeps (same_session c0) (gets f).
Proof. intros c a c' H Hp. inversion H; subst. exact Hp. Qed.

Lemma keeps_session_now c0 : keeps (same_session c0) (now env).
Proof.
  intros c a c' H Hp. inversion H; subst.
  eapply same_session_trans; [exact Hp|]. unfold same_session; simpl. repeat split.
Qed.

Lemma keeps_session_log c0 lvl msg : keeps (same_session c0) (modify (log lvl msg)).
Proof.
  apply keeps_session_modify. intros c. unfold same_session; simpl. repeat split.
Qed.

Lemma keeps_session_bufferLine c0 line : keeps (same_session c0) (bufferLine env line).
Proof. apply keeps_session_write. Qed.

Lemma keeps_session_bufferLine_cstr c0 line :
  keeps (same_session c0) (bufferLine_cstr env line).
Proof.
  unfold bufferLine_cstr. apply keeps_bind; [apply keeps_session_write|].
  intros ok. destruct (negb ok); [apply keeps_ret | apply keeps_session_write].
Qed.

Ltac session_step :=
  match goal with
  | |- keeps _ (bind _ _) => apply keeps_bind; [|intros ?]
  | |- keeps _ (ret _) => apply keeps_ret
  | |- keeps _ (write _ _ _) => apply keeps_session_write
  | |- keeps _ (flush _) => apply keeps_session_flush
  | |- keeps _ (bufferLine _ _) => apply keeps_session_bufferLine
  | |- keeps _ (bufferLine_cstr _ _) => apply keeps_session_bufferLine_cstr
  | |- keeps _ (closeInternal _) => apply keeps_session_closeInternal
  | |- keeps _ (now _) => apply keeps_session_now
  | |- keeps _ (gets _) => apply keeps_session_gets
  | |- keeps _ (modify (log _ _)) => apply keeps_session_log
  | |- keeps _ (if ?b then _ else _) => destruct b
  end.

Lemma keeps_session_bufferResponseAndCommonHeaders c0 code :
  keeps (same_session c0) (bufferResponseAndCommonHeaders env co code).
Proof. unfold bufferResponseAndCommonHeaders. repeat session_step. Qed.

Lemma flush_output c : output (snd (flush env c)) = output c.
Proof.
  destruct (flush env c) as [ok c'] eqn:E. apply flush_spec in E.
  destruct E as (E & _). exact E.
Qed.


Lemma closeWhenEmpty_output c : output (snd (closeWhenEmpty env c)) = output c.
Proof.
  unfold closeWhenEmpty, output. destruct (outBuf c) eqn:E.
  - destruct (closeInternal_spec env c) as (_ & Hw & Ho & _). rewrite Hw, Ho, E.
    reflexivity.
  - conn_simpl. rewrite E. reflexivity.
Qed.

Lemma keeps_session_closeWhenEmpty c0 : keeps (same_session c0) (closeWhenEmpty env).
Proof.
  intros c u c' H Hp. unfold closeWhenEmpty in H. destruct (outBuf c).
  - eapply keeps_session_closeInternal; eauto.
  - inversion H; subst. eapply same_session_trans; [exact Hp|].
    unfold same_session; simpl. repeat split.
Qed.

Lemma keeps_session_sendError c0 code body :
  keeps (same_session c0) (sendError env co code body).
Proof.
  unfold sendError. apply keeps_bind;
    [apply keeps_session_bufferResponseAndCommonHeaders | intros ?].
  repeat session_step. apply keeps_session_closeWhenEmpty.
Qed.

(** sendError on a writable connection with room: the error response is
    added to the output. *)
Lemma sendError_output code body c :
  writable c ->
  size (outBuf c) + size (errorResponse co code (clock env (tick c)) body)
    < MaxBufferSize ->
  output (snd (sendError env co code body c))
  = output c ++ errorResponse co code (clock env (tick c)) body.
Proof.
  intros Hw Hroom. unfold sendError, errorResponse in *.
  erewrite bind_eq by (apply bufferResponseAndCommonHeaders_ok;
                       [writable_now | size_lia]).
  erewrite bind_eq by (apply bufferLine_ok; [writable_now | size_lia]).
  erewrite bind_eq by (apply bufferLine_cstr_ok; [writable_now | size_lia]).
  erewrite bind_eq by (apply bufferLine_cstr_ok; [writable_now | size_lia]).
  erewrite bind_eq by (apply bufferLine_ok; [writable_now | size_lia]).
  conn_simpl. cstr_lits.
  match goal with
  | |- output (snd (bind (flush env) _ ?x)) = _ =>
    pose proof (flush_output x) as Hf;
    destruct (flush env x) as [ok c1] eqn:Ef;
    erewrite bind_eq by exact Ef
  end.
  cbn [snd] in Hf.
  assert (Hout : output (snd ((if negb ok then ret false
                               else bind (closeWhenEmpty env) (fun _ => ret true)) c1))
                 = output c1).
  { destruct ok; cbn [negb]; [|reflexivity].
    unfold bind, ret. pose proof (closeWhenEmpty_output c1) as Hc.
    destruct (closeWhenEmpty env c1). exact Hc. }
  rewrite Hout, Hf. unfold output. conn_simpl.
  repeat rewrite <- app_assoc. reflexivity.
Qed.





(** ** The Hixie handshake *)




(** ** The Hybi handshake *)





End ResponseFacts.



(** ** Header processing *)

Section HeaderFacts.

Variable env : Environment.
Variable co : Collaborators.

Lemma same_socket_refl c : same_socket c c.
Proof. unfold same_socket. repeat split. Qed.

Lemma same_socket_trans c1 c2 c3 :
  same_socket c1 c2 -> same_socket c2 c3 -> same_socket c1 c3.
Proof.
  unfold same_socket.
  intros (A1 & A2 & A3 & A4 & A5 & A6) (B1 & B2 & B3 & B4 & B5 & B6).
  repeat split; congruence.
Qed.

(** An error response sent from a connection that has the socket of [c] is
    a rejection as seen from [c]. *)
Lemma rejected_sendError code reason c c1 :
  same_socket c c1 ->
  rejected env co code reason c (Some (sendError env co code reason c1)).
Proof.
  intros (O & W & T & F & S & E).
  destruct (sendError env co code reason c1) as [ok c'] eqn:Eq.
  exists ok, c'. split; [reflexivity|]. intros [Hc He] Hroom.
  replace c' with (snd (sendError env co code reason c1)) by (rewrite Eq; reflexivity).
  rewrite sendError_output.
  - unfold output. rewrite T, O, W. reflexivity.
  - unfold writable, closed in *. rewrite F, S, E. auto.
  - rewrite O, T. exact Hroom.
Qed.

Lemma verb_eqb_Invalid v : verb_eqb v Invalid = true <-> v = Invalid.
Proof. destruct v; simpl; split; intros H; try discriminate; reflexivity. Qed.

(** C8: the request line is split into three tokens.  A missing token or an
    unrecognised verb is answered 400; three tokens with a recognised verb
    and a version other than HTTP/1.1 are answered 501; with HTTP/1.1 and
    something left on the line, 400; otherwise the request goes on to its
    header lines. *)
Theorem request_line_is_checked c region requestLine colon headerLines
    verbText rest1 requestUri rest2 httpVersion rest3 :
  extractLines region [] 0%nat None = (requestLine, colon) :: headerLines ->
  shift requestLine = (verbText, rest1) ->
  shift rest1 = (requestUri, rest2) ->
  shift rest2 = (httpVersion, rest3) ->
  let unrecognised :=
    match verbText with Some v => Request_verb v = Invalid | None => False end in
  ((verbText = None \/ requestUri = None \/ httpVersion = None \/ unrecognised) ->
   rejected env co BadRequest (lit "Malformed request line") c
            (processHeaders env co region c))
  /\
  (forall v u t,
      verbText = Some v -> Request_verb v <> Invalid ->
      requestUri = Some u -> httpVersion = Some t ->
      (strcmp_eq t (lit "HTTP/1.1") = false ->
       rejected env co NotImplemented (lit "Unsupported HTTP version") c
                (processHeaders env co region c))
      /\
      (strcmp_eq t (lit "HTTP/1.1") = true -> c_str rest3 <> [] ->
       rejected env co BadRequest (lit "Trailing crap after http version") c
                (processHeaders env co region c))
      /\
      (strcmp_eq t (lit "HTTP/1.1") = true -> c_str rest3 = [] ->
       processHeaders env co region c =
       processHeaderLines env co (Request_verb v) u headerLines
         (set_requestUri (c_str u) (log ACCESS "Request: " c)))).
Proof.
  intros Hlines H1 H2 H3 unrecognised.
  assert (Hlog : same_socket c (log ACCESS "Request: " c))
    by (unfold same_socket; simpl; repeat split).
  assert (Huri : forall u, same_socket c (set_requestUri u (log ACCESS "Request: " c)))
    by (intros u; unfold same_socket; simpl; repeat split).
  unfold processHeaders. rewrite Hlines, H1. split.
  - intros Hbad. unfold sendBadRequest.
    destruct verbText as [v|]; [|apply rejected_sendError; exact Hlog].
    destruct (verb_eqb (Request_verb v) Invalid) eqn:Ev;
      [apply rejected_sendError; exact Hlog|].
    rewrite H2.
    destruct requestUri as [u|]; [|apply rejected_sendError; exact Hlog].
    rewrite H3.
    destruct httpVersion as [t|]; [|apply rejected_sendError; apply Huri].
    exfalso. destruct Hbad as [Hb | [Hb | [Hb | Hb]]]; try discriminate.
    unfold unrecognised in Hb. apply verb_eqb_Invalid in Hb. congruence.
  - intros v u t -> Hverb -> ->.
    assert (Ev : verb_eqb (Request_verb v) Invalid = false).
    { destruct (verb_eqb (Request_verb v) Invalid) eqn:E; [|reflexivity].
      apply verb_eqb_Invalid in E. contradiction. }
    rewrite Ev, H2, H3. repeat split.
    + intros Ht. rewrite Ht. cbn [negb].
      unfold sendUnsupportedError. apply rejected_sendError. apply Huri.
    + intros Ht Hrest. rewrite Ht. cbn [negb].
      destruct (c_str rest3) eqn:Er; [contradiction|]. cbn [is_empty negb].
      unfold sendBadRequest. apply rejected_sendError. apply Huri.
    + intros Ht Hrest. rewrite Ht, Hrest. reflexivity.
Qed.

Lemma bytes_eqb_eq a : forall b, bytes_eqb a b = true <-> a = b.
Proof.
  induction a as [|x a IH]; intros [|y b]; simpl; split; intros H;
    try discriminate; try reflexivity.
  - apply andb_prop in H as [Hx Hab]. apply Ascii.eqb_eq in Hx.
    apply IH in Hab. congruence.
  - inversion H; subst. rewrite Ascii.eqb_refl. apply IH. reflexivity.
Qed.

(** A key that compares equal to one name compares to any other name as
    that name does. *)
Lemma strcasecmp_eq_same key a b :
  strcasecmp_eq key a = true -> strcasecmp_eq key b = strcasecmp_eq a b.
Proof.
  unfold strcasecmp_eq. intros H. apply bytes_eqb_eq in H. rewrite H. reflexivity.
Qed.

Lemma processHeaderLine_socket allow requestUri headerLine colonPos hs c :
  same_socket c (snd (processHeaderLine allow requestUri headerLine colonPos hs c)).
Proof.
  unfold processHeaderLine.
  repeat match goal with
         | |- context [if ?b then _ else _] => destruct b
         end;
    unfold same_socket; simpl; repeat split.
Qed.

Lemma headerLoop_socket allow requestUri lines : forall hs c,
  same_socket c (snd (headerLoop allow requestUri lines hs c)).
Proof.
  induction lines as [|[headerLine [colonPos|]] rest IH]; intros hs c; simpl.
  - apply same_socket_refl.
  - pose proof (processHeaderLine_socket allow requestUri headerLine colonPos hs c) as H.
    destruct (processHeaderLine allow requestUri headerLine colonPos hs c) as [hs' c'].
    eapply same_socket_trans; [exact H | apply IH].
  - apply same_socket_refl.
Qed.

Lemma headerLoop_app allow requestUri l1 l2 : forall hs c hs1 c1,
  headerLoop allow requestUri l1 hs c = (Some hs1, c1) ->
  headerLoop allow requestUri (l1 ++ l2) hs c = headerLoop allow requestUri l2 hs1 c1.
Proof.
  induction l1 as [|[headerLine [colonPos|]] rest IH]; intros hs c hs1 c1 H; simpl in *.
  - inversion H; subst. reflexivity.
  - destruct (processHeaderLine allow requestUri headerLine colonPos hs c) as [hs' c'].
    apply IH. exact H.
  - discriminate.
Qed.

(** A negative int converted to size_t is far above the cap. *)
Lemma negative_int_as_size_t z :
  - 2 ^ 31 <= z < 0 -> to_size_t z = z + 2 ^ 64 /\ MaxBufferSize < to_size_t z.
Proof.
  intros H. unfold to_size_t.
  assert (E : z mod 2 ^ 64 = z + 2 ^ 64).
  { symmetry. apply Z.mod_unique with (q := -1); lia. }
  rewrite E. unfold MaxBufferSize. lia.
Qed.

Ltac other_names E :=
  repeat match goal with
         | |- context [strcasecmp_eq ?k (lit ?n)] =>
           lazymatch type of E with
           | strcasecmp_eq k (lit n) = true => fail
           | strcasecmp_eq k (lit ?m) = true =>
             rewrite (strcasecmp_eq_same k (lit m) (lit n) E);
             let v := eval vm_compute in (strcasecmp_eq (lit m) (lit n)) in
             change (strcasecmp_eq (lit m) (lit n)) with v
           end
         end.

(** What one header line does to the upgrade flags and to the length. *)
Lemma processHeaderLine_scan allow requestUri headerLine colonPos hs c :
  let line := (headerLine, Some colonPos) in
  let hs' := fst (processHeaderLine allow requestUri headerLine colonPos hs c) in
  haveConnectionUpgrade hs' =
    haveConnectionUpgrade hs || (namesHeader "Connection" line && hasValue "upgrade" line) /\
  haveWebSocketUpgrade hs' =
    haveWebSocketUpgrade hs || (namesHeader "Upgrade" line && hasValue "websocket" line) /\
  contentLength hs' =
    match lengthHeader line with Some n => n | None => contentLength hs end.
Proof.
  unfold processHeaderLine, namesHeader, hasValue, lengthHeader, headerKey, headerValue.
  cbn [fst snd].
  set (key := c_str (firstn colonPos headerLine)).
  set (value := skipWhitespace (skipn (S colonPos) headerLine)).
  destruct (strcasecmp_eq key (lit "Connection")) eqn:E1.
  { other_names E1.
    destruct (strcasecmp_eq value (lit "upgrade")); cbn;
      rewrite ?orb_true_r, ?orb_false_r; auto. }
  destruct (strcasecmp_eq key (lit "Upgrade")) eqn:E2.
  { other_names E2.
    destruct (strcasecmp_eq value (lit "websocket")); cbn;
      rewrite ?orb_true_r, ?orb_false_r; auto. }
  cbn [andb].
  destruct (strcasecmp_eq key (lit "Sec-WebSocket-Key1")) eqn:E3.
  { other_names E3. cbn. rewrite ?orb_false_r. auto. }
  destruct (strcasecmp_eq key (lit "Sec-WebSocket-Key2")) eqn:E4.
  { other_names E4. cbn. rewrite ?orb_false_r. auto. }
  destruct (strcasecmp_eq key (lit "Origin")) eqn:E5.
  { other_names E5. destruct allow; cbn; rewrite ?orb_false_r; auto. }
  cbn [andb].
  destruct (strcasecmp_eq key (lit "Host")) eqn:E6.
  { other_names E6. cbn. rewrite ?orb_false_r. auto. }
  destruct (strcasecmp_eq key (lit "Content-Length")) eqn:E7;
    cbn; rewrite ?orb_false_r; auto.
Qed.

(** What the header loop leaves in its locals when every line has a colon:
    the two upgrade flags say whether some line asked, and the length is
    that of the last Content-Length line. *)
Lemma headerLoop_scan allow requestUri lines : forall hs c,
  Forall (fun line => snd line <> None) lines ->
  exists hs' c',
    headerLoop allow requestUri lines hs c = (Some hs', c') /\
    haveConnectionUpgrade hs' =
      haveConnectionUpgrade hs
      || existsb (fun line => namesHeader "Connection" line && hasValue "upgrade" line) lines /\
    haveWebSocketUpgrade hs' =
      haveWebSocketUpgrade hs
      || existsb (fun line => namesHeader "Upgrade" line && hasValue "websocket" line) lines /\
    contentLength hs' =
      fold_left (fun cl line => match lengthHeader line with Some n => n | None => cl end)
                lines (contentLength hs).
Proof.
  induction lines as [|[headerLine colon] rest IH]; intros hs c Hall.
  - exists hs, c. cbn. rewrite !orb_false_r. auto.
  - inversion Hall as [|? ? Hcolon Hrest]; subst. cbn [snd] in Hcolon.
    destruct colon as [colonPos|]; [|contradiction].
    cbn [headerLoop].
    destruct (processHeaderLine_scan allow requestUri headerLine colonPos hs c)
      as (H1 & H2 & H3).
    destruct (processHeaderLine allow requestUri headerLine colonPos hs c) as [hs1 c1].
    cbn [fst] in H1, H2, H3.
    destruct (IH hs1 c1 Hrest) as (hs' & c' & Hl & F1 & F2 & F3).
    exists hs', c'. split; [exact Hl|].
    cbn [existsb fold_left]. rewrite F1, F2, F3, H1, H2, H3, !orb_assoc. auto.
Qed.

Lemma last_length_header before line n after : forall init,
  lengthHeader line = Some n ->
  Forall (fun line => lengthHeader line = None) after ->
  fold_left (fun cl line => match lengthHeader line with Some n => n | None => cl end)
            (before ++ line :: after) init = n.
Proof.
  intros init Hn Hafter. rewrite fold_left_app. cbn [fold_left]. rewrite Hn.
  clear Hn. induction Hafter as [|l rest Hl _ IH]; cbn [fold_left]; [reflexivity|].
  rewrite Hl. exact IH.
Qed.

(** C10, as the code has it: a Content-Length value that atoi reads as
    negative is stored as a size_t above the cap.  When it stands in the last
    Content-Length line of a request whose header lines all have a colon, and
    the request comes to the check of its length (an upgrade is asked for
    with GET at a URI that has a handler; or no upgrade is asked for and the
    request is not a GET of embedded content), the answer is 400 "Content
    length too long": the request is not taken for one without a body. *)
Theorem negative_content_length_is_rejected c verb requestUri before
    headerLine colonPos after :
  let headerLines := before ++ (headerLine, Some colonPos) :: after in
  let strValue := c_str (headerValue headerLine colonPos) in
  Forall (fun line => snd line <> None) headerLines ->
  strcasecmp_eq (headerKey headerLine colonPos) (lit "Content-Length") = true ->
  Forall (fun line => lengthHeader line = None) after ->
  atoi strValue < 0 ->
  (asksUpgrade headerLines = true ->
   verb = Get /\ getWebSocketHandler co (c_str requestUri) <> None) ->
  (asksUpgrade headerLines = false ->
   verb = Get -> findEmbeddedContent co (c_str requestUri) = None) ->
  MaxBufferSize < to_size_t (atoi strValue)
  /\ rejected env co BadRequest (lit "Content length too long") c
       (processHeaderLines env co verb requestUri headerLines c)
  /\ exists ok c',
       processHeaderLines env co verb requestUri headerLines c = Some (ok, c') /\
       option_map reqContentLength (request c') = Some (to_size_t (atoi strValue)).
Proof.
  intros headerLines strValue Hcolons Hkey Hafter Hneg Hup Hemb.
  assert (Hbig : MaxBufferSize < to_size_t (atoi strValue)).
  { apply negative_int_as_size_t. pose proof (to_int_range (strtol strValue)).
    unfold atoi in *. lia. }
  split; [exact Hbig|].
  unfold processHeaderLines.
  set (allow := isCrossOriginAllowed co (c_str requestUri)).
  destruct (headerLoop_scan allow requestUri headerLines
              (mkHeaderScan false false [] [] 0) c Hcolons)
    as (hs & c1 & Hloop & F1 & F2 & F3).
  pose proof (headerLoop_socket allow requestUri headerLines
                (mkHeaderScan false false [] [] 0) c) as Hs1.
  rewrite Hloop in Hs1 |- *. cbn [snd] in Hs1.
  cbn [haveConnectionUpgrade haveWebSocketUpgrade contentLength orb] in F1, F2, F3.
  unfold headerLines in F3.
  rewrite (last_length_header before (headerLine, Some colonPos)
             (to_size_t (atoi strValue)) after) in F3;
    [| unfold lengthHeader; cbn [fst snd]; rewrite Hkey; reflexivity | exact Hafter].
  apply Z.ltb_lt in Hbig.
  assert (Hgoal : exists verb' c2,
             same_socket c c2 /\
             completeRequest env co verb requestUri hs c1 =
             Some (sendBadRequest env co (lit "Content length too long")
                     (set_request
                        (Some (mkRequest (c_str requestUri) verb'
                                 (to_size_t (atoi strValue)) (allHeaders hs) [])) c2))).
  { unfold completeRequest. rewrite F1, F2. fold (asksUpgrade headerLines).
    destruct (asksUpgrade headerLines) eqn:Easks.
    - destruct (Hup eq_refl) as [-> Hh]. cbn [verb_eqb negb].
      cbn [webSocketHandler set_webSocketHandler].
      destruct (getWebSocketHandler co (c_str requestUri)) as [h|] eqn:Eh;
        [|contradiction].
      cbn [verb_eqb]. rewrite F3, Hbig.
      eexists; eexists; split; [|reflexivity].
      eapply same_socket_trans; [exact Hs1|]. unfold same_socket; simpl; repeat split.
    - assert (He : (if verb_eqb verb Get
                    then findEmbeddedContent co (c_str requestUri) else None) = None).
      { destruct verb; cbn [verb_eqb]; auto. }
      rewrite He, F3, Hbig.
      eexists; eexists; split; [|reflexivity]. exact Hs1. }
  destruct Hgoal as (verb' & c2 & Hs2 & ->). unfold sendBadRequest.
  set (c3 := set_request _ c2).
  assert (Hs3 : same_socket c c3).
  { eapply same_socket_trans; [exact Hs2|].
    unfold c3, same_socket; simpl; repeat split. }
  split; [apply rejected_sendError; exact Hs3|].
  destruct (sendError env co BadRequest (lit "Content length too long") c3)
    as [ok c'] eqn:E.
  exists ok, c'. split; [reflexivity|].
  pose proof (keeps_session_sendError env co c3 _ _ c3 ok c' E (same_session_refl c3))
    as (_ & _ & _ & _ & _ & _ & Hreq & _).
  rewrite Hreq. reflexivity.
Qed.

End HeaderFacts.

(** GET /x HTTP/1.0 is answered 501; GET /x alone, 400. *)
Lemma request_line_is_checked_witness :
  rejected (roomy 4096) standIns NotImplemented (lit "Unsupported HTTP version")
    (newConnection 5)
    (processHeaders (roomy 4096) standIns (lit "GET /x HTTP/1.0" ++ crlf)
                    (newConnection 5))
  /\
  rejected (roomy 4096) standIns BadRequest (lit "Malformed request line")
    (newConnection 5)
    (processHeaders (roomy 4096) standIns (lit "GET /x" ++ crlf) (newConnection 5)).
Proof.
  split.
  - refine (proj1 (proj2 (request_line_is_checked (roomy 4096) standIns
              (newConnection 5) (lit "GET /x HTTP/1.0" ++ crlf)
              (lit "GET /x HTTP/1.0") None []
              (Some (lit "GET")) (lit "/x HTTP/1.0")
              (Some (lit "/x")) (lit "HTTP/1.0")
              (Some (lit "HTTP/1.0")) []
              eq_refl eq_refl eq_refl eq_refl)
            (lit "GET") (lit "/x") (lit "HTTP/1.0") eq_refl _ eq_refl eq_refl) eq_refl).
    vm_compute. discriminate.
  - refine (proj1 (request_line_is_checked (roomy 4096) standIns
              (newConnection 5) (lit "GET /x" ++ crlf)
              (lit "GET /x") None []
              (Some (lit "GET")) (lit "/x")
              (Some (lit "/x")) []
              None []
              eq_refl eq_refl eq_refl eq_refl) _).
    right. right. left. reflexivity.
Defined.

(** POST /x with Content-Length: -1 and then Host: x. *)
Lemma negative_content_length_is_rejected_witness :
  MaxBufferSize < to_size_t (atoi (lit "-1"))
  /\ rejected (roomy 4096) standIns BadRequest (lit "Content length too long")
       (newConnection 5)
       (processHeaderLines (roomy 4096) standIns Post (lit "/x")
          ([] ++ (lit "Content-Length: -1", Some 14%nat) :: [(lit "Host: x", Some 4%nat)])
          (newConnection 5)).
Proof.
  destruct (negative_content_length_is_rejected (roomy 4096) standIns
              (newConnection 5) Post (lit "/x") []
              (lit "Content-Length: -1") 14%nat [(lit "Host: x", Some 4%nat)])
    as (H1 & H2 & _).
  - repeat constructor; discriminate.
  - reflexivity.
  - repeat constructor.
  - vm_compute. reflexivity.
  - intros H. discriminate H.
  - intros _ H. discriminate H.
  - split; [exact H1 | exact H2].
Defined.

(** The claim as written fails for requests that do not come to the check
    of their length, and where a later line gives another length.  With
    Content-Length: -1, a GET of embedded content is answered 200, an upgrade
    at a URI without handler 404, and a request whose next line is
    Content-Length: 0 is handled as one without a body (here 404: there is no
    such page); an upgrade that is not a GET and a request with a header line
    without colon are answered 400, but for those reasons and before any
    request is stored. *)
Lemma negative_content_length_is_not_always_rejected :
  atoi (lit "-1") < 0
  /\ answered (processHeaders (roomy 4096) withEmbedded
                 (lit "GET /x HTTP/1.1" ++ crlf
                  ++ lit "Content-Length: -1" ++ crlf)
                 (newConnection 5))
     = Some (lit "HTTP/1.1 200", None)
  /\ answered (processHeaders (roomy 4096) standIns
                 (lit "GET /nows HTTP/1.1" ++ crlf
                  ++ lit "Upgrade: websocket" ++ crlf
                  ++ lit "Connection: Upgrade" ++ crlf
                  ++ lit "Content-Length: -1" ++ crlf)
                 (newConnection 5))
     = Some (lit "HTTP/1.1 404", None)
  /\ answered (processHeaders (roomy 4096) standIns
                 (lit "POST /x HTTP/1.1" ++ crlf
                  ++ lit "Content-Length: -1" ++ crlf
                  ++ lit "Content-Length: 0" ++ crlf)
                 (newConnection 5))
     = Some (lit "HTTP/1.1 404", Some 0)
  /\ option_map (fun r => (output (snd r), request (snd r)))
       (processHeaders (roomy 4096) standIns
          (lit "POST /ws HTTP/1.1" ++ crlf
           ++ lit "Upgrade: websocket" ++ crlf
           ++ lit "Connection: Upgrade" ++ crlf
           ++ lit "Content-Length: -1" ++ crlf)
          (newConnection 5))
     = Some (errorResponse standIns BadRequest (clock (roomy 4096) 0)
               (lit "Non-GET WebSocket request"), None)
  /\ option_map (fun r => (output (snd r), request (snd r)))
       (processHeaders (roomy 4096) standIns
          (lit "POST /x HTTP/1.1" ++ crlf
           ++ lit "Content-Length: -1" ++ crlf
           ++ lit "no colon here" ++ crlf)
          (newConnection 5))
     = Some (errorResponse standIns BadRequest (clock (roomy 4096) 0)
               (lit "Malformed header"), None).
Proof.
  repeat split; vm_compute; reflexivity.
Qed.

(** ** Ranges *)

Lemma is_digit_differs c ch : is_digit c = true -> is_digit ch = false -> c <> ch.
Proof. intros H1 H2 E. subst. congruence. Qed.


Lemma find_char_app ch l r :
  ~ In ch l -> find_char ch (l ++ ch :: r) = Some (length l).
Proof.
  induction l as [|x l IH]; intros Hn; simpl.
  - rewrite Ascii.eqb_refl. reflexivity.
  - destruct (Ascii.eqb x ch) eqn:E.
    + apply Ascii.eqb_eq in E. exfalso. apply Hn. left. exact E.
    + rewrite IH; [reflexivity|]. intros Hin. apply Hn. right. exact Hin.
Qed.






Lemma firstn_length_app (l r : bytes) : firstn (length l) (l ++ r) = l.
Proof. induction l; simpl; [destruct r; reflexivity | f_equal; auto]. Qed.

Lemma skipn_length_app (l r : bytes) : skipn (length l) (l ++ r) = r.
Proof. induction l; simpl; auto. Qed.

Lemma minus_not_digit : is_digit "-" = false.
Proof. reflexivity. Qed.


Lemma split_nonempty_last t cur :
  ~ In ","%char t -> split_nonempty t "," cur = [rev cur ++ t].
Proof.
  revert cur. induction t as [|x t IH]; intros cur Hn; simpl.
  - rewrite app_nil_r. reflexivity.
  - destruct (Ascii.eqb x ",") eqn:E.
    + apply Ascii.eqb_eq in E. exfalso. apply Hn. left. exact E.
    + rewrite IH by (intros Hin; apply Hn; right; exact Hin).
      simpl. rewrite <- app_assoc. reflexivity.
Qed.

Lemma split_nonempty_piece t rest cur :
  ~ In ","%char t ->
  split_nonempty (t ++ ","%char :: rest) "," cur
  = (rev cur ++ t) :: split_nonempty rest "," [].
Proof.
  revert cur. induction t as [|x t IH]; intros cur Hn; simpl.
  - rewrite app_nil_r. reflexivity.
  - destruct (Ascii.eqb x ",") eqn:E.
    + apply Ascii.eqb_eq in E. exfalso. apply Hn. left. exact E.
    + rewrite IH by (intros Hin; apply Hn; right; exact Hin).
      simpl. rewrite <- app_assoc. reflexivity.
Qed.

Lemma split_nonempty_join rest : forall t,
  Forall (fun t => ~ In ","%char t) (t :: rest) ->
  split_nonempty (join_commas (t :: rest)) "," [] = t :: rest.
Proof.
  induction rest as [|t2 rest IH]; intros t Hall; inversion Hall as [|? ? Hc Hrest]; subst.
  - simpl. apply split_nonempty_last. exact Hc.
  - change (join_commas (t :: t2 :: rest))
      with (t ++ ","%char :: join_commas (t2 :: rest)).
    rewrite split_nonempty_piece by exact Hc. rewrite IH by exact Hrest. reflexivity.
Qed.

Lemma split_join t rest :
  t <> [] ->
  Forall (fun t => ~ In ","%char t) (t :: rest) ->
  split (join_commas (t :: rest)) "," = t :: rest.
Proof.
  intros Hne Hall. unfold split.
  destruct (join_commas (t :: rest)) eqn:E.
  - destruct rest; simpl in E; [contradiction|].
    destruct t; [contradiction | discriminate].
  - rewrite <- E. apply split_nonempty_join. exact Hall.
Qed.



Lemma bytes_eqb_refl a : bytes_eqb a a = true.
Proof. induction a; simpl; [reflexivity|]. rewrite Ascii.eqb_refl. exact IHa. Qed.









Section RangeFacts.

Variable env : Environment.
Variable co : Collaborators.




End RangeFacts.



(** ** Output in order *)

Lemma os_send_accepted room sz : 0 <= sz -> 0 <= os_send (Accepted room) sz.
Proof. intros H. cbn [os_send]. unfold MAX_RW_COUNT. lia. Qed.

Lemma os_send_refused o sz :
  0 <= sz -> (to_int (os_send o sz) =? -1) = true -> o <> SendFailed ->
  is_eagain o = true.
Proof.
  intros Hsz H Hne. apply Z.eqb_eq in H.
  pose proof (os_send_range o sz Hsz) as Hrange.
  remember (os_send o sz) as r eqn:Hr.
  destruct o as [room| |]; [|reflexivity|contradiction].
  exfalso. pose proof (os_send_accepted room sz Hsz) as Hn. rewrite <- Hr in Hn.
  clear Hr. destruct Hrange as [Hm | [H1 H2]]; [lia|].
  rewrite to_int_small in H by lia. lia.
Qed.

Section WriteOrder.

Variable env : Environment.

(** What a write adds to the output is its data, or a beginning of it. *)
Lemma write_appends data flushIt c ok c' :
  write env data flushIt c = (ok, c') ->
  size data <= INT_MAX -> capped c ->
  (ok = true -> output c' = output c ++ data) /\
  exists k, output c' = output c ++ firstn k data.
Proof.
  intros Hw Hd Hcap. unfold write in Hw. unfold INT_MAX in Hd.
  unfold capped, MaxBufferSize in Hcap.
  pose proof (size_nonneg data) as Hd0. pose proof (size_nonneg (outBuf c)) as Ho0.
  destruct (closed c || closeOnEmpty c).
  { inversion Hw; subst. split; [discriminate|]. exists 0%nat. simpl.
    symmetry; apply app_nil_r. }
  destruct (size data =? 0) eqn:E0.
  { apply Z.eqb_eq in E0.
    assert (data = []) by (destruct data; [reflexivity | unfold size in E0; simpl in E0; lia]).
    subst data.
    assert (Ho : output c' = output c).
    { destruct flushIt.
      - replace c' with (snd (flush env c)) by (rewrite Hw; reflexivity).
        apply flush_output.
      - inversion Hw; subst. reflexivity. }
    rewrite Ho. split; [intros _|exists 0%nat]; simpl; symmetry; apply app_nil_r. }
  apply Z.eqb_neq in E0.
  set (fast := is_empty (outBuf c) && flushIt) in *.
  destruct (if fast then safeSend env data c else (0, c)) as [sent c1] eqn:Hss.
  assert (Hc1 : outBuf c1 = outBuf c /\
                (fast = true -> outBuf c = []) /\
                ((fast = true /\ sent = -1 /\ wire c1 = wire c) \/
                 (0 <= sent <= size data /\
                  wire c1 = wire c ++ firstn (Z.to_nat sent) data /\
                  (fast = false -> sent = 0)))).
  { destruct fast eqn:Hfast.
    - apply safeSend_spec in Hss.
      destruct Hss as (S1 & S2 & S3 & S4 & S5 & S6 & S7).
      split; [exact S1|]. split.
      + intros _. unfold fast in Hfast. apply andb_prop in Hfast as [He _].
        destruct (outBuf c); [reflexivity | discriminate].
      + destruct S7 as [(Hr & Hwire & _) | (Hr & _ & _ & Hwire)].
        * left. auto.
        * right. repeat split; try lia; auto; discriminate.
    - inversion Hss; subst. split; [reflexivity|]. split; [discriminate|].
      right. repeat split; try lia. simpl. symmetry; apply app_nil_r. }
  destruct Hc1 as (O1 & Hempty & Hsent).
  rewrite (to_int_small (size data)) in Hw by lia.
  destruct Hsent as [(Hf & Hm & Hwire) | (Hr & Hwire & Hnf)].
  - subst sent. rewrite Hf in Hw. cbn [andb] in Hw.
    destruct (-1 =? size data) eqn:E1; [apply Z.eqb_eq in E1; lia|].
    change (-1 =? -1) with true in Hw. cbv iota in Hw.
    inversion Hw; subst. split; [discriminate|]. exists 0%nat.
    unfold output. rewrite O1, Hwire. simpl. rewrite app_nil_r. reflexivity.
  - destruct (fast && (sent =? size data)) eqn:Hall.
    { apply andb_prop in Hall as [Hf Hs]. apply Z.eqb_eq in Hs.
      inversion Hw; subst ok c1.
      assert (Ho : output c' = output c ++ data).
      { unfold output. rewrite O1, Hwire, (Hempty Hf), !app_nil_r.
        rewrite Hs. unfold size. rewrite Nat2Z.id, firstn_all. reflexivity. }
      split; [intros _; exact Ho|]. exists (length data). rewrite firstn_all. exact Ho. }
    destruct (fast && (sent =? -1)) eqn:Hm1.
    { apply andb_prop in Hm1 as [_ Hs]. apply Z.eqb_eq in Hs. lia. }
    rewrite (to_size_t_small (size data - sent)) in Hw by lia.
    rewrite O1 in Hw. rewrite to_size_t_small in Hw by lia.
    destruct (MaxBufferSize <=? size (outBuf c) + (size data - sent)).
    + unfold bind, modify, ret in Hw.
      pose proof (closeInternal_spec env
                    (log WARNING "Closing connection: buffer size too large" c1)) as Hs.
      destruct (closeInternal env
                  (log WARNING "Closing connection: buffer size too large" c1))
        as [u c2].
      simpl in Hs. destruct Hs as (T1 & T2 & T3 & _).
      inversion Hw; subst. split; [discriminate|].
      exists (Z.to_nat sent). unfold output. rewrite T2, T3, O1, Hwire.
      rewrite <- !app_assoc.
      assert (Hob : fast = true -> outBuf c = []) by exact Hempty.
      destruct fast.
      * rewrite (Hob eq_refl). rewrite !app_nil_r. reflexivity.
      * rewrite (Hnf eq_refl). simpl. rewrite app_nil_r. reflexivity.
    + set (c2 := set_outBuf (outBuf c ++ firstn (Z.to_nat (size data - sent))
                                           (skipn (Z.to_nat sent) data)) c1) in *.
      assert (Ho2 : output c2 = output c ++ data).
      { unfold output, c2. cbn [wire outBuf set_outBuf]. rewrite Hwire.
        assert (Hall' : firstn (Z.to_nat (size data - sent)) (skipn (Z.to_nat sent) data)
                        = skipn (Z.to_nat sent) data).
        { apply firstn_all2. rewrite length_skipn. unfold size in *. lia. }
        rewrite Hall'.
        destruct fast.
        - rewrite (Hempty eq_refl). rewrite !app_nil_r. cbn [app].
          rewrite <- app_assoc. cbn [app]. f_equal. apply firstn_skipn.
        - rewrite (Hnf eq_refl). simpl. rewrite app_nil_r, app_assoc. reflexivity. }
      assert (Ho : output c' = output c ++ data).
      { rewrite <- Ho2. destruct flushIt.
        - replace c' with (snd (flush env c2)) by (rewrite Hw; reflexivity).
          apply flush_output.
        - inversion Hw; subst. reflexivity. }
      split; [intros _; exact Ho|]. exists (length data). rewrite firstn_all. exact Ho.
Qed.
(** X1: a write adds bytes to the output (what was sent, then what is
    queued) only at its end, and only bytes of its data, from the first on:
    all of them when it returns true, a beginning of them otherwise.  No
    byte is lost, doubled or reordered. *)
Theorem write_queues_data_in_order data flushIt c :
  size data <= INT_MAX -> capped c ->
  let result := write env data flushIt c in
  (fst result = true -> output (snd result) = output c ++ data)
  /\ exists k, output (snd result) = output c ++ firstn k data.
Proof.
  intros Hd Hcap result.
  apply (write_appends data flushIt c (fst result) (snd result));
    [apply surjective_pairing | exact Hd | exact Hcap].
Qed.

Lemma safeSend_result data c r c' :
  safeSend env data c = (r, c') -> r <> -1 ->
  closed c = false /\ hadSendError c = false.
Proof.
  unfold safeSend, closed. intros H Hr.
  destruct (fd c =? -1); [inversion H; subst; contradiction|].
  destruct (hadSendError c); [inversion H; subst; contradiction|].
  destruct (shutdown c); [inversion H; subst; contradiction|].
  auto.
Qed.

(** The steps of flush after a send that went through. *)
Lemma flush_steps c ok c' :
  flush env c = (ok, c') -> outBuf c <> [] ->
  (ok = false /\ fst (safeSend env (outBuf c) c) = -1 /\ outBuf c' = outBuf c) \/
  (exists numSent c1,
      safeSend env (outBuf c) c = (numSent, c1) /\ numSent <> -1 /\
      outBuf c' = skipn (Z.to_nat numSent) (outBuf c) /\
      let pending := negb (is_empty (outBuf c')) in
      let registered := registeredForWriteEvents c in
      (ok = false ->
       registered = negb pending /\ registeredForWriteEvents c' = registered /\
       shutdown c' = shutdown c1 /\
       (if pending then subscribeToWriteEvents env (tick c1)
        else unsubscribeFromWriteEvents env (tick c1)) = false) /\
      (ok = true ->
       registeredForWriteEvents c' = pending /\
       (registered = negb pending ->
        (if pending then subscribeToWriteEvents env (tick c1)
         else unsubscribeFromWriteEvents env (tick c1)) = true) /\
       shutdown c' = shutdown c1 || (negb pending && closeOnEmpty c))).
Proof.
  intros H Hne. unfold flush in H.
  destruct (outBuf c) as [|b0 l0] eqn:Hob; [contradiction|]. rewrite <- Hob in *.
  destruct (safeSend env (outBuf c) c) as [numSent c1] eqn:Hss.
  pose proof (safeSend_spec env _ _ _ _ Hss) as (S1 & S2 & S3 & S4 & S5 & S6 & S7).
  destruct (numSent =? -1) eqn:E.
  { apply Z.eqb_eq in E. inversion H; subst. left. auto. }
  apply Z.eqb_neq in E. right. exists numSent, c1.
  split; [reflexivity|]. split; [exact E|].
  destruct (safeSend_result _ _ _ _ Hss E) as [Hcl Hhe].
  destruct S7 as [(Hr & _) | (Hr & Hlt & Hsh & Hw)]; [contradiction|].
  set (c2 := set_outBuf (skipn (Z.to_nat numSent) (outBuf c1)) c1) in *.
  assert (Hsz : forall l : bytes, (0 <? size l) = negb (is_empty l) /\
                                  (size l =? 0) = is_empty l).
  { intros [|x l]; [split; reflexivity|]. unfold size. simpl length.
    split; [apply Z.ltb_lt | apply Z.eqb_neq]; lia. }
  destruct (Hsz (outBuf c2)) as [Hs1 Hs2]. rewrite Hs1, Hs2 in H.
  assert (Hclosed : closed c2 = false).
  { unfold closed, c2 in *. simpl. rewrite S3, Hsh. exact Hcl. }
  assert (Hob2 : outBuf c2 = skipn (Z.to_nat numSent) (outBuf c))
    by (unfold c2; simpl; rewrite S1; reflexivity).
  assert (Hr2 : registeredForWriteEvents c2 = registeredForWriteEvents c)
    by (unfold c2; simpl; exact S5).
  assert (Hce2 : closeOnEmpty c2 = closeOnEmpty c) by (unfold c2; simpl; exact S2).
  assert (Hsh2 : shutdown c2 = shutdown c1) by reflexivity.
  assert (Ht2 : tick c2 = tick c1) by reflexivity.
  assert (Hfd2 : fd c2 = fd c1) by reflexivity.
  clearbody c2. rewrite <- Hob2, <- Hr2, <- Hce2, <- Hsh2, <- Ht2.
  destruct (is_empty (outBuf c2)) eqn:Hemp; cbn [negb andb] in H;
    destruct (registeredForWriteEvents c2) eqn:Hreg; cbn [negb andb] in H.
  - (* drained, registered: unsubscribe *)
    destruct (unsubscribeFromWriteEvents env (tick c2)) eqn:Hu; cbn [negb] in H.
    + unfold closed in H, Hclosed. conn_simpl. rewrite Hs2, Hclosed in H.
      cbn [negb andb] in H.
      destruct (closeOnEmpty c2) eqn:Hce.
      * unfold bind, modify, ret in H.
        match type of H with
        | context [closeInternal env ?x] =>
          pose proof (closeInternal_spec env x) as Hs; destruct (closeInternal env x) as [u c4]
        end.
        conn_simpl. destruct Hs as (T1 & T2 & T3 & T4 & T5 & T6 & T7 & T8 & T9 & T10 & T11 & T12).
        inversion H; subst ok c'. rewrite T3, T11, T1. rewrite Hemp.
        repeat split; try discriminate; auto. rewrite orb_true_r. reflexivity.
      * inversion H; subst ok c'. conn_simpl. rewrite Hemp.
        repeat split; try discriminate; auto. rewrite orb_false_r. reflexivity.
    + inversion H; subst ok c'. conn_simpl. rewrite Hemp, Hreg.
      repeat split; try discriminate; auto.
  - unfold closed in H, Hclosed. rewrite Hs2, Hclosed in H. cbn [negb andb] in H.
    destruct (closeOnEmpty c2) eqn:Hce.
    + unfold bind, modify, ret in H.
      match type of H with
      | context [closeInternal env ?x] =>
        pose proof (closeInternal_spec env x) as Hs; destruct (closeInternal env x) as [u c4]
      end.
      conn_simpl. destruct Hs as (T1 & T2 & T3 & T4 & T5 & T6 & T7 & T8 & T9 & T10 & T11 & T12).
      inversion H; subst ok c'. rewrite T3, T11, T1. rewrite Hemp, Hreg.
      repeat split; try discriminate; auto. rewrite orb_true_r. reflexivity.
    + inversion H; subst ok c'. rewrite Hemp, Hreg.
      repeat split; try discriminate; auto. rewrite orb_false_r. reflexivity.
  - rewrite Hs2 in H. cbn [negb andb] in H.
    inversion H; subst ok c'. rewrite Hemp, Hreg. cbn [negb andb].
    repeat split; try discriminate; auto. rewrite orb_false_r. reflexivity.
  - destruct (subscribeToWriteEvents env (tick c2)) eqn:Hu; cbn [negb] in H.
    + conn_simpl. rewrite Hs2 in H. cbn [andb] in H.
      inversion H; subst ok c'. conn_simpl. rewrite Hemp.
      repeat split; try discriminate; auto. rewrite orb_false_r. reflexivity.
    + inversion H; subst ok c'. conn_simpl. rewrite Hemp, Hreg.
      repeat split; try discriminate; auto.
Qed.

(** X2: after a flush that succeeds the connection is registered for write
    events exactly when output is still queued, provided it was not
    registered with an empty buffer before. *)
Theorem write_events_follow_pending_output c c' :
  flush env c = (true, c') ->
  (registeredForWriteEvents c = true -> outBuf c <> []) ->
  (registeredForWriteEvents c' = true <-> outBuf c' <> []).
Proof.
  intros H Hinv.
  destruct (outBuf c) as [|b0 l0] eqn:Hob.
  - unfold flush in H. rewrite Hob in H. inversion H; subst c'. rewrite Hob.
    split; [intros Hr; exact (Hinv Hr) | intros Hn; contradiction].
  - destruct (flush_steps c true c' H) as [(Hf & _) | (n & c1 & _ & _ & _ & _ & Ht)];
      [rewrite Hob; discriminate | discriminate |].
    cbv zeta in Ht. destruct (Ht eq_refl) as (Hr & _). rewrite Hr.
    destruct (outBuf c'); simpl; split; intros Hx; try discriminate; auto;
      try contradiction.
Qed.

Lemma safeSend_reliable data c :
  reliable env -> closed c = false -> hadSendError c = false ->
  fst (safeSend env data c) <> -1.
Proof.
  intros (Hsend & _) Hc Hh.
  unfold safeSend, closed in *.
  apply orb_false_elim in Hc as [Hfd Hsd].
  rewrite Hfd, Hh, Hsd. cbn [orb].
  destruct (to_int (os_send (sock_send env (tick c)) (size data)) =? -1) eqn:E.
  - rewrite (os_send_refused _ _ (size_nonneg data) E (Hsend _)). cbn [fst]. discriminate.
  - cbn [fst]. apply Z.eqb_neq. exact E.
Qed.

(** On a reliable socket a flush succeeds and moves bytes from the buffer
    to the wire. *)
Lemma flush_reliable c :
  reliable env -> closed c = false -> hadSendError c = false ->
  exists c',
    flush env c = (true, c') /\ output c' = output c /\
    size (outBuf c') <= size (outBuf c) /\ fd c' = fd c /\
    hadSendError c' = false /\
    (closeOnEmpty c = false -> closed c' = false /\ closeOnEmpty c' = false).
Proof.
  intros Hrel Hc Hh.
  destruct (flush env c) as [ok c'] eqn:Hf.
  pose proof (flush_spec env c ok c' Hf) as (F1 & F2 & _ & F4 & _ & F6).
  pose proof (keeps_session_flush env c c ok c' Hf (same_session_refl c))
    as (_ & _ & _ & _ & _ & _ & _ & _ & _ & Hhe & _).
  assert (Hok : ok = true).
  { destruct (outBuf c) as [|b0 l0] eqn:Hob.
    - unfold flush in Hf. rewrite Hob in Hf. inversion Hf; reflexivity.
    - destruct (flush_steps c ok c' Hf) as [(_ & Hm & _) | (n & c1 & _ & _ & _ & Hfalse & _)];
        [rewrite Hob; discriminate | | ].
      + exfalso. exact (safeSend_reliable _ c Hrel Hc Hh Hm).
      + destruct ok; [reflexivity|]. cbv zeta in Hfalse.
        destruct (Hfalse eq_refl) as (_ & _ & _ & Hsub).
        destruct Hrel as (_ & Hs & Hu).
        destruct (negb (is_empty (outBuf c'))); [rewrite Hs in Hsub | rewrite Hu in Hsub];
          discriminate. }
  subst ok. exists c'. split; [reflexivity|]. split; [exact F1|].
  split; [exact F2|]. split; [exact F4|]. split; [congruence|].
  intros He. destruct (F6 He) as [H1 H2]. split; [|exact H1].
  unfold closed in *. rewrite F4, (H2 eq_refl). exact Hc.
Qed.

Lemma sendable_closed c : sendable c -> closed c = false.
Proof. intros [[H _] _]. exact H. Qed.

(** On a reliable socket a write to an open connection with room succeeds:
    its data joins the output and the connection stays open. *)
Lemma write_reliable data flushIt c :
  reliable env -> sendable c ->
  size (outBuf c) + size data < MaxBufferSize ->
  exists c',
    write env data flushIt c = (true, c') /\
    output c' = output c ++ data /\ sendable c' /\
    size (outBuf c') <= size (outBuf c) + size data /\
    same_session c c'.
Proof.
  intros Hrel [[Hc He] Hh] Hroom.
  pose proof (size_nonneg data) as Hd0. pose proof (size_nonneg (outBuf c)) as Ho0.
  destruct (write env data flushIt c) as [ok c'] eqn:Hw.
  assert (Hcap : capped c) by (unfold capped; lia).
  assert (Hint : size data <= INT_MAX) by (unfold INT_MAX, MaxBufferSize in *; lia).
  destruct (write_appends data flushIt c ok c' Hw Hint Hcap) as [Hout _].
  pose proof (keeps_session_write env c data flushIt c ok c' Hw (same_session_refl c))
    as Hsess.
  assert (Hgoal : ok = true /\ sendable c' /\
                  size (outBuf c') <= size (outBuf c) + size data).
  { unfold write in Hw. rewrite Hc, He in Hw. cbn [orb] in Hw.
    unfold MaxBufferSize in Hroom.
    destruct (size data =? 0) eqn:E0.
    { destruct flushIt.
      - destruct (flush_reliable c Hrel Hc Hh) as (c2 & Hf & _ & Hsz & _ & Hh2 & Hop).
        rewrite Hf in Hw. inversion Hw; subst. destruct (Hop He) as [H1 H2].
        repeat split; auto; lia.
      - inversion Hw; subst. repeat split; auto; lia. }
    apply Z.eqb_neq in E0.
    set (fast := is_empty (outBuf c) && flushIt) in *.
    destruct (if fast then safeSend env data c else (0, c)) as [sent c1] eqn:Hss.
    assert (Hc1 : outBuf c1 = outBuf c /\ closed c1 = false /\
                  closeOnEmpty c1 = false /\ hadSendError c1 = false /\
                  0 <= sent <= size data).
    { destruct fast.
      - pose proof (safeSend_reliable data c Hrel Hc Hh) as Hne. rewrite Hss in Hne.
        cbn [fst] in Hne.
        apply safeSend_spec in Hss.
        destruct Hss as (S1 & S2 & S3 & S4 & S5 & S6 & S7).
        destruct S7 as [(Hr & _) | (Hr & _ & Hsh & _)]; [contradiction|].
        unfold closed in *. rewrite S3, Hsh.
        split; [exact S1|]. split; [exact Hc|]. split; [congruence|].
        split; [congruence | exact Hr].
      - inversion Hss; subst. repeat split; auto; lia. }
    destruct Hc1 as (O1 & C1 & E1 & H1 & Hr).
    rewrite (to_int_small (size data)) in Hw by lia.
    destruct (fast && (sent =? size data)).
    { inversion Hw; subst. rewrite O1. repeat split; auto; lia. }
    destruct (fast && (sent =? -1)) eqn:Hm1.
    { apply andb_prop in Hm1 as [_ Hs]. apply Z.eqb_eq in Hs. lia. }
    rewrite (to_size_t_small (size data - sent)) in Hw by lia.
    rewrite O1 in Hw. rewrite to_size_t_small in Hw by lia.
    destruct (MaxBufferSize <=? size (outBuf c) + (size data - sent)) eqn:Hover.
    { apply Z.leb_le in Hover. unfold MaxBufferSize in Hover. lia. }
    set (c2 := set_outBuf (outBuf c ++ firstn (Z.to_nat (size data - sent))
                                         (skipn (Z.to_nat sent) data)) c1) in *.
    assert (Hsz2 : size (outBuf c2) <= size (outBuf c) + size data).
    { unfold c2. cbn [outBuf set_outBuf]. rewrite size_app.
      assert (size (firstn (Z.to_nat (size data - sent)) (skipn (Z.to_nat sent) data))
              <= size data - sent).
      { unfold size in *. rewrite length_firstn. lia. }
      lia. }
    assert (C2 : closed c2 = false) by exact C1.
    assert (E2 : closeOnEmpty c2 = false) by exact E1.
    assert (H2 : hadSendError c2 = false) by exact H1.
    clearbody c2.
    destruct flushIt.
    - destruct (flush_reliable c2 Hrel C2 H2) as (c3 & Hf & _ & Hsz & _ & Hh3 & Hop).
      rewrite Hf in Hw. inversion Hw; subst. destruct (Hop E2) as [H3 H4].
      repeat split; auto; lia.
    - inversion Hw; subst. repeat split; auto. }
  destruct Hgoal as (Hok & Hs & Hsz). subst ok.
  exists c'. split; [reflexivity|]. split; [apply Hout; reflexivity|].
  split; [exact Hs|]. split; [exact Hsz | exact Hsess].
Qed.

(** X3: closeWhenEmpty on an empty buffer shuts down at once; otherwise the
    shutdown waits for the flush that empties the buffer: what is queued is
    still sent, in order, and until then no write is taken. *)
Theorem closeWhenEmpty_waits_for_the_buffer c :
  let c1 := snd (closeWhenEmpty env c) in
  (outBuf c = [] -> shutdown c1 = true /\ output c1 = output c)
  /\
  (outBuf c <> [] ->
   closeOnEmpty c1 = true /\ shutdown c1 = shutdown c /\
   outBuf c1 = outBuf c /\ wire c1 = wire c /\
   (forall data flushIt, write env data flushIt c1 = (false, c1)) /\
   (forall ok c2, flush env c1 = (ok, c2) -> output c2 = output c1) /\
   (forall c2, flush env c1 = (true, c2) -> outBuf c2 = [] -> shutdown c2 = true)).
Proof.
  cbv zeta. split.
  - intros Hob. unfold closeWhenEmpty. rewrite Hob.
    destruct (closeInternal_spec env c) as (H1 & H2 & H3 & _).
    split; [exact H1|]. unfold output. rewrite H2, H3. reflexivity.
  - intros Hne. unfold closeWhenEmpty.
    destruct (outBuf c) as [|b0 l0] eqn:Hob; [contradiction|].
    cbn [snd]. rewrite <- Hob.
    set (c1 := set_closeOnEmpty true c).
    assert (Hob1 : outBuf c1 = outBuf c) by reflexivity.
    repeat split.
    + intros data flushIt. apply write_closed. cbn [closeOnEmpty set_closeOnEmpty c1].
      unfold c1. cbn [closeOnEmpty set_closeOnEmpty]. apply orb_true_r.
    + intros ok c2 Hf. apply flush_spec in Hf. destruct Hf as (Hf & _). exact Hf.
    + intros c2 Hf Hempty.
      destruct (flush_steps c1 true c2 Hf) as [(Hx & _) | (n & c3 & _ & _ & _ & _ & Ht)];
        [rewrite Hob1, Hob; discriminate | discriminate |].
      cbv zeta in Ht. destruct (Ht eq_refl) as (_ & _ & Hsd).
      rewrite Hsd, Hempty. cbn. apply orb_true_r.
Qed.

End WriteOrder.

(** ** Frames sent *)

Lemma byte_val_byte_of_mod z : byte_val (byte_of z) = z mod 256.
Proof.
  replace (byte_of z) with (byte_of (z mod 256))
    by (unfold byte_of; rewrite Z.mod_mod by lia; reflexivity).
  apply byte_val_byte_of. apply Z.mod_pos_bound. lia.
Qed.

Lemma from_big_endian_spec k : forall n acc,
  from_big_endian (big_endian k n) acc = acc * 256 ^ Z.of_nat k + n mod 256 ^ Z.of_nat k.
Proof.
  induction k as [|k IH]; intros n acc.
  - simpl. rewrite Z.mod_1_r. lia.
  - cbn [big_endian from_big_endian]. rewrite IH.
    rewrite byte_val_byte_of_mod.
    rewrite Z.shiftr_div_pow2 by lia.
    rewrite Nat2Z.inj_succ, Z.pow_succ_r by lia.
    replace (2 ^ (8 * Z.of_nat k)) with (256 ^ Z.of_nat k)
      by (change 256 with (2 ^ 8); rewrite <- Z.pow_mul_r by lia; reflexivity).
    assert (Hp : 0 < 256 ^ Z.of_nat k) by (apply Z.pow_pos_nonneg; lia).
    rewrite (Z.mul_comm 256 (256 ^ Z.of_nat k)).
    rewrite (Z.rem_mul_r n (256 ^ Z.of_nat k) 256) by lia.
    lia.
Qed.

Lemma from_big_endian_big_endian k n :
  0 <= n < 256 ^ Z.of_nat k -> from_big_endian (big_endian k n) 0 = n.
Proof. intros H. rewrite from_big_endian_spec. rewrite Z.mod_small by lia. lia. Qed.

Section FramesOut.

Variable env : Environment.

Lemma two_writes first second flushIt c :
  reliable env -> sendable c ->
  size (outBuf c) + size first + size second < MaxBufferSize ->
  exists c1 c2,
    write env first false c = (true, c1) /\
    write env second flushIt c1 = (true, c2) /\
    output c2 = output c ++ first ++ second /\ sendable c2 /\
    size (outBuf c2) <= size (outBuf c) + size first + size second /\
    same_session c c2.
Proof.
  intros Hrel Hs Hroom.
  pose proof (size_nonneg first) as H1. pose proof (size_nonneg second) as H2.
  destruct (write_reliable env first false c Hrel Hs) as (c1 & W1 & O1 & S1 & Z1 & T1);
    [lia|].
  destruct (write_reliable env second flushIt c1 Hrel S1) as (c2 & W2 & O2 & S2 & Z2 & T2);
    [lia|].
  exists c1, c2. split; [exact W1|]. split; [exact W2|].
  split; [rewrite O2, O1, app_assoc; reflexivity|].
  split; [exact S2|]. split; [lia|].
  exact (same_session_trans _ _ _ T1 T2).
Qed.

Lemma size_big_endian k n : size (big_endian k n) = Z.of_nat k.
Proof. unfold size. rewrite big_endian_length. reflexivity. Qed.

Lemma hybiLength_size n : 0 <= n -> 1 <= size (hybiLength n) <= 9.
Proof.
  intros H. unfold hybiLength.
  destruct (n <? 126); [unfold size; simpl; lia|].
  destruct (n <? 65536); unfold size; cbn [length]; rewrite big_endian_length; lia.
Qed.

(** sendHybi on a socket that does not fail, with room in the buffer. *)
Lemma sendHybi_reliable opcode webSocketResponse c :
  reliable env -> sendable c ->
  size (outBuf c) + size webSocketResponse + 10 < MaxBufferSize ->
  let c' := snd (sendHybi env opcode webSocketResponse c) in
  output c' = output c ++ hybiFrame opcode webSocketResponse
  /\ sendable c' /\ same_session c c'.
Proof.
  intros Hrel Hs Hroom. cbv zeta.
  pose proof (size_nonneg webSocketResponse) as Hp.
  pose proof (size_nonneg (outBuf c)) as Ho.
  remember (snd (sendHybi env opcode webSocketResponse c)) as c' eqn:Hc'.
  unfold sendHybi in Hc'. unfold hybiFrame, hybiLength.
  set (firstByte := byte_of (Z.lor 128 opcode)) in *.
  destruct (write_reliable env [firstByte] false c Hrel Hs)
    as (c1 & W1 & O1 & S1 & Z1 & T1); [change (size [firstByte]) with 1; lia|].
  change (size [firstByte]) with 1 in Z1.
  unfold bind at 1 in Hc'. rewrite W1 in Hc'. cbn [negb] in Hc'.
  destruct (size webSocketResponse <? 126) eqn:E1.
  - destruct (two_writes [byte_of (size webSocketResponse)] webSocketResponse true c1
                Hrel S1) as (c2 & c3 & W2 & W3 & O3 & S3 & _ & T3).
    { change (size [byte_of (size webSocketResponse)]) with 1. lia. }
    unfold bind in Hc'. rewrite W2 in Hc'. cbn [negb] in Hc'. rewrite W3 in Hc'.
    unfold ret in Hc'. cbn [snd] in Hc'. subst c'.
    split; [|split; [exact S3 | exact (same_session_trans _ _ _ T1 T3)]].
    rewrite O3, O1, <- app_assoc. reflexivity.
  - destruct (size webSocketResponse <? 65536) eqn:E2.
    + destruct (two_writes [byte_of 126] (big_endian 2 (size webSocketResponse)) false c1
                  Hrel S1) as (c2 & c3 & W2 & W3 & O3 & S3 & Z3 & T3).
      { rewrite size_big_endian. change (size [byte_of 126]) with 1.
        change (size [byte_of 127]) with 1. lia. }
      rewrite size_big_endian in Z3. change (size [byte_of 126]) with 1 in Z3.
      change (size [byte_of 127]) with 1 in Z3.
      destruct (write_reliable env webSocketResponse true c3 Hrel S3)
        as (c4 & W4 & O4 & S4 & _ & T4); [lia|].
      unfold bind in Hc'. rewrite W2 in Hc'. cbn [negb] in Hc'. rewrite W3 in Hc'.
      cbn [negb] in Hc'. rewrite W4 in Hc'.
      unfold ret in Hc'. cbn [snd] in Hc'. subst c'.
      split; [|split; [exact S4|]].
      * rewrite O4, O3, O1, <- !app_assoc. reflexivity.
      * exact (same_session_trans _ _ _ T1 (same_session_trans _ _ _ T3 T4)).
    + destruct (two_writes [byte_of 127] (big_endian 8 (size webSocketResponse)) false c1
                  Hrel S1) as (c2 & c3 & W2 & W3 & O3 & S3 & Z3 & T3).
      { rewrite size_big_endian. change (size [byte_of 126]) with 1.
        change (size [byte_of 127]) with 1. lia. }
      rewrite size_big_endian in Z3. change (size [byte_of 126]) with 1 in Z3.
      change (size [byte_of 127]) with 1 in Z3.
      destruct (write_reliable env webSocketResponse true c3 Hrel S3)
        as (c4 & W4 & O4 & S4 & _ & T4); [lia|].
      unfold bind in Hc'. rewrite W2 in Hc'. cbn [negb] in Hc'. rewrite W3 in Hc'.
      cbn [negb] in Hc'. rewrite W4 in Hc'.
      unfold ret in Hc'. cbn [snd] in Hc'. subst c'.
      split; [|split; [exact S4|]].
      * rewrite O4, O3, O1, <- !app_assoc. reflexivity.
      * exact (same_session_trans _ _ _ T1 (same_session_trans _ _ _ T3 T4)).
Qed.

(** X4: on a socket that does not fail, sendHybi puts one frame into the
    output: the byte 0x80 | opcode, the length field (one byte below 126,
    126 and two bytes below 65536, 127 and eight bytes from there on), the
    payload; the connection stays open and the session is untouched. *)
Theorem sendHybi_writes_one_frame opcode webSocketResponse c :
  reliable env -> sendable c ->
  size (outBuf c) + size webSocketResponse + 10 < MaxBufferSize ->
  let c' := snd (sendHybi env opcode webSocketResponse c) in
  output c' = output c ++ hybiFrame opcode webSocketResponse
  /\ sendable c' /\ same_session c c'.
Proof. exact (sendHybi_reliable opcode webSocketResponse c). Qed.

End FramesOut.

Lemma byte_of_inj a b : 0 <= a < 256 -> 0 <= b < 256 -> byte_of a = byte_of b -> a = b.
Proof.
  intros Ha Hb H. rewrite <- (byte_val_byte_of a Ha), <- (byte_val_byte_of b Hb), H.
  reflexivity.
Qed.

(** X5: the length field of a frame tells lengths apart: two payload sizes
    below 2^64 with the same length field are the same size, and the mask
    bit of its first byte is clear. *)
Theorem hybi_length_field_is_unambiguous n m :
  0 <= n < 2 ^ 64 -> 0 <= m < 2 ^ 64 ->
  (hybiLength n = hybiLength m -> n = m)
  /\ byte_val (hd NUL (hybiLength n)) < 128.
Proof.
  intros Hn Hm. unfold hybiLength. split.
  - destruct (n <? 126) eqn:En, (m <? 126) eqn:Em;
      try apply Z.ltb_lt in En; try apply Z.ltb_lt in Em;
      try apply Z.ltb_ge in En; try apply Z.ltb_ge in Em.
    + intros H. injection H as H. apply byte_of_inj; auto; lia.
    + destruct (m <? 65536); intros H; discriminate H.
    + destruct (n <? 65536); intros H; discriminate H.
    + destruct (n <? 65536) eqn:En2, (m <? 65536) eqn:Em2;
        try apply Z.ltb_lt in En2; try apply Z.ltb_lt in Em2;
        try apply Z.ltb_ge in En2; try apply Z.ltb_ge in Em2.
      * intros H. apply (f_equal (@tl ascii)) in H. cbn [tl] in H.
        rewrite <- (from_big_endian_big_endian 2 n), <- (from_big_endian_big_endian 2 m), H
          by (change (256 ^ Z.of_nat 2) with 65536; lia).
        reflexivity.
      * intros H. discriminate H.
      * intros H. discriminate H.
      * intros H. apply (f_equal (@tl ascii)) in H. cbn [tl] in H.
        rewrite <- (from_big_endian_big_endian 8 n), <- (from_big_endian_big_endian 8 m), H
          by (change (256 ^ Z.of_nat 8) with (2 ^ 64); lia).
        reflexivity.
  - destruct (n <? 126) eqn:En.
    + apply Z.ltb_lt in En. cbn [hd]. rewrite byte_val_byte_of by lia. lia.
    + destruct (n <? 65536); cbn [hd]; rewrite byte_val_byte_of by lia; lia.
Qed.

(** ** Frames sent and received *)

Lemma c_str_no_nul p : ~ In NUL (c_str p).
Proof.
  induction p as [|x p IH]; simpl; [tauto|].
  destruct (Ascii.eqb x NUL) eqn:E; [simpl; tauto|].
  intros [H | H]; [subst x; rewrite Ascii.eqb_refl in E; discriminate | exact (IH H)].
Qed.

Lemma c_str_whole p : ~ In NUL p -> c_str p = p.
Proof.
  induction p as [|x p IH]; intros H; simpl; [reflexivity|].
  destruct (Ascii.eqb x NUL) eqn:E.
  - apply Ascii.eqb_eq in E. exfalso. apply H. left. auto.
  - f_equal. apply IH. intros Hin. apply H. right. exact Hin.
Qed.

Lemma c_str_idem p : c_str (c_str p) = c_str p.
Proof. apply c_str_whole, c_str_no_nul. Qed.

Section FramesBothWays.

Variable env : Environment.

(** X6: a text message sent on a Hixie connection goes out as one frame,
    0x00, the C string, 0xff; a Hixie connection that receives this frame
    hands the same text to its handler, in one call, and keeps nothing of
    it in its input buffer. *)
Theorem hixie_text_round_trip env' c p h webSocketResponse :
  reliable env -> sendable c -> state c = HANDLING_HIXIE_WEBSOCKET ->
  size (outBuf c) + strlen webSocketResponse + 2 < MaxBufferSize ->
  webSocketHandler p = Some h ->
  ~ In (byte_of 255) (c_str webSocketResponse) ->
  let frame := hixieFrame (c_str webSocketResponse) in
  output (snd (send_text env webSocketResponse c)) = output c ++ frame
  /\ exists p',
       handleHixieWebSocket env' (set_inBuf frame p) = Some p' /\
       events p' = events p ++ [OnDataText h (c_str webSocketResponse)] /\
       inBuf p' = [] /\ shutdown p' = shutdown p.
Proof.
  intros Hrel Hs Hst Hroom Hh Hff. cbv zeta. unfold strlen in Hroom.
  pose proof (size_nonneg (c_str webSocketResponse)) as Hm.
  split.
  - remember (snd (send_text env webSocketResponse c)) as c' eqn:Hc'.
    unfold send_text in Hc'.
    assert (Hsd : shutdown c = false).
    { destruct Hs as [[Hc _] _]. unfold closed in Hc.
      apply orb_false_elim in Hc as [_ Hc]. exact Hc. }
    rewrite Hsd, Hst in Hc'. cbn [state_eqb] in Hc'.
    destruct (two_writes env [byte_of 0] (c_str webSocketResponse) false c Hrel Hs)
      as (c1 & c2 & W1 & W2 & O2 & S2 & Z2 & _).
    { change (size [byte_of 0]) with 1. lia. }
    change (size [byte_of 0]) with 1 in Z2.
    destruct (write_reliable env [byte_of 255] true c2 Hrel S2) as (c3 & W3 & O3 & _).
    { change (size [byte_of 255]) with 1. lia. }
    unfold bind in Hc'. rewrite W1 in Hc'. cbn [negb] in Hc'. rewrite W2 in Hc'.
    cbn [negb] in Hc'. rewrite W3 in Hc'. unfold ret in Hc'. cbn [snd] in Hc'. subst c'.
    rewrite O3, O2. unfold hixieFrame. rewrite <- !app_assoc. reflexivity.
  - destruct (handleHixieWebSocket_frames env'
                (set_inBuf (hixieFrame (c_str webSocketResponse)) p) h
                [c_str webSocketResponse] []) as (p' & Hp & Hev & Hin & Hsd).
    + exact Hh.
    + constructor; [exact Hff | constructor].
    + left. reflexivity.
    + cbn [inBuf set_inBuf map concat]. rewrite !app_nil_r. reflexivity.
    + exists p'. split; [exact Hp|]. cbn [map] in Hev. rewrite c_str_idem in Hev.
      split; [exact Hev|]. split; [exact Hin|].
      apply Hsd. unfold MaxWebsocketMessageSize, size. simpl. lia.
Qed.

(** X7: a Hixie buffer that does not begin with 0x00 closes the connection:
    no message is delivered, nothing is written, and the buffer is left as
    it is. *)
Theorem hixie_frame_must_begin_with_zero c first rest :
  inBuf c = first :: rest -> first <> NUL ->
  exists c',
    handleHixieWebSocket env c = Some c' /\
    shutdown c' = true /\ shutdownByUser c' = shutdownByUser c /\
    events c' = events c /\ inBuf c' = inBuf c /\ output c' = output c.
Proof.
  intros Hb Hne. unfold handleHixieWebSocket. rewrite Hb.
  cbn [hixieLoop]. rewrite Hb. cbn [length nth].
  change (0 <? S (length rest))%nat with true. cbv iota.
  destruct (Ascii.eqb first NUL) eqn:E; [apply Ascii.eqb_eq in E; contradiction|].
  cbn [negb].
  destruct (closeInternal_spec env (log WARNING "Error in WebSocket input stream" c))
    as (H1 & H2 & H3 & H4 & _ & H6 & _ & _ & H9 & _).
  eexists. split; [reflexivity|]. unfold output.
  rewrite H1, H2, H3, H4, H6, H9. cbn [inBuf events log wire outBuf shutdownByUser].
  rewrite Hb. repeat split; reflexivity.
Qed.

Variable co : Collaborators.

Lemma hybi_fuel c : inBuf c <> [] -> exists fuel, S (length (inBuf c)) = S (S fuel).
Proof. destruct (inBuf c); [contradiction | simpl; eauto]. Qed.

Lemma handleHybiWebSocket_nonempty c :
  inBuf c <> [] ->
  handleHybiWebSocket env co c =
  hixieFinish env (hybiLoop env co (S (length (inBuf c))) (inBuf c) 0 c).
Proof.
  intros Hne. unfold handleHybiWebSocket, hixieFinish.
  destruct (inBuf c); [contradiction | reflexivity].
Qed.

Lemma hixieFinish_after messageStart c :
  exists c',
    hixieFinish env (Some (true, messageStart, c)) = Some c' /\
    inBuf c' = skipn messageStart (inBuf c) /\ events c' = events c /\
    output c' = output c.
Proof.
  unfold hixieFinish.
  set (c2 := if negb (Nat.eqb messageStart 0)
             then set_inBuf (skipn messageStart (inBuf c)) c else c).
  assert (H2 : inBuf c2 = skipn messageStart (inBuf c) /\ events c2 = events c /\
               output c2 = output c).
  { unfold c2. destruct messageStart; cbn [Nat.eqb negb]; auto. }
  destruct H2 as (Hi & He & Ho). clearbody c2.
  destruct (MaxWebsocketMessageSize <? size (inBuf c2)).
  - eexists. split; [reflexivity|].
    destruct (closeInternal_spec env (log WARNING "WebSocket message too long" c2))
      as (_ & H2 & H3 & H4 & _ & H6 & _).
    unfold output. rewrite H2, H3, H4, H6. cbn [inBuf events log wire outBuf].
    auto.
  - exists c2. auto.
Qed.

(** X8: a ping is answered with a pong that carries the ping's payload; the
    handler hears nothing of it. *)
Theorem hybi_ping_is_answered_with_pong c decodedMessage n skip n' :
  reliable env -> sendable c -> inBuf c <> [] ->
  size (outBuf c) + size decodedMessage + 10 < MaxBufferSize ->
  decodeNextMessage co (inBuf c) 0 = (Ping, decodedMessage, n) ->
  decodeNextMessage co (inBuf c) n = (NoMessage, skip, n') ->
  exists c',
    handleHybiWebSocket env co c = Some c' /\
    output c' = output c ++ hybiFrame OPCODE_PONG decodedMessage /\
    events c' = events c /\ inBuf c' = skipn n' (inBuf c).
Proof.
  intros Hrel Hs Hne Hroom Hd1 Hd2.
  rewrite handleHybiWebSocket_nonempty by exact Hne.
  destruct (hybi_fuel c Hne) as [fuel ->].
  cbn [hybiLoop]. rewrite Hd1.
  destruct (sendHybi_reliable env OPCODE_PONG decodedMessage c Hrel Hs Hroom)
    as (Ho & _ & Hsess).
  set (c1 := snd (sendHybi env OPCODE_PONG decodedMessage c)) in *.
  destruct Hsess as (Hi & _ & He & _).
  rewrite Hd2.
  destruct (hixieFinish_after n' c1) as (c' & Hf & Hi' & He' & Ho').
  exists c'. split; [exact Hf|]. rewrite Ho', Ho, He', He, Hi', Hi. auto.
Qed.

(** X9: a close frame, and a frame the decoder refuses, shut the connection
    down at once: no close frame is sent in answer, the handler is told
    nothing, and the input is left in the buffer. *)
Theorem hybi_close_and_error_shut_down c st decodedMessage n :
  inBuf c <> [] ->
  decodeNextMessage co (inBuf c) 0 = (st, decodedMessage, n) ->
  st = Close \/ st = Error ->
  exists c',
    handleHybiWebSocket env co c = Some c' /\
    shutdown c' = true /\ shutdownByUser c' = shutdownByUser c /\
    events c' = events c /\ inBuf c' = inBuf c /\ output c' = output c.
Proof.
  intros Hne Hd Hst.
  rewrite handleHybiWebSocket_nonempty by exact Hne.
  destruct (hybi_fuel c Hne) as [fuel ->].
  cbn [hybiLoop]. rewrite Hd.
  destruct Hst as [-> | ->]; cbn [hixieFinish].
  - destruct (closeInternal_spec env (log DEBUG "Received WebSocket close" c))
      as (H1 & H2 & H3 & H4 & _ & H6 & _ & _ & H9 & _).
    eexists. split; [reflexivity|]. unfold output. rewrite H1, H2, H3, H4, H6, H9.
    repeat split; reflexivity.
  - destruct (closeInternal_spec env c) as (H1 & H2 & H3 & H4 & _ & H6 & _ & _ & H9 & _).
    eexists. split; [reflexivity|]. unfold output. rewrite H1, H2, H3, H4, H6, H9.
    repeat split; reflexivity.
Qed.

Lemma handleWebSocketBinaryMessage_spec message c :
  let c' := snd (handleWebSocketBinaryMessage message c) in
  inBuf c' = inBuf c /\ output c' = output c /\
  events c' = events c ++
    match webSocketHandler c with
    | Some h => [OnDataBinary h message]
    | None => []
    end.
Proof.
  unfold handleWebSocketBinaryMessage, bind, modify, gets, ret. simpl.
  destruct (webSocketHandler c) eqn:E; simpl; rewrite ?E; repeat split; auto.
  symmetry; apply app_nil_r.
Qed.

(** X10: a binary message reaches the handler whole, zero bytes and all, in
    one call, and the bytes decoded leave the input buffer. *)
Theorem hybi_binary_message_is_delivered_whole c h decodedMessage n skip n' :
  webSocketHandler c = Some h -> inBuf c <> [] ->
  decodeNextMessage co (inBuf c) 0 = (BinaryMessage, decodedMessage, n) ->
  decodeNextMessage co (inBuf c) n = (NoMessage, skip, n') ->
  exists c',
    handleHybiWebSocket env co c = Some c' /\
    events c' = events c ++ [OnDataBinary h decodedMessage] /\
    inBuf c' = skipn n' (inBuf c) /\ output c' = output c.
Proof.
  intros Hh Hne Hd1 Hd2.
  rewrite handleHybiWebSocket_nonempty by exact Hne.
  destruct (hybi_fuel c Hne) as [fuel ->].
  cbn [hybiLoop]. rewrite Hd1.
  destruct (handleWebSocketBinaryMessage_spec decodedMessage c) as (Hi & Ho & He).
  set (c1 := snd (handleWebSocketBinaryMessage decodedMessage c)) in *.
  rewrite Hd2.
  destruct (hixieFinish_after n' c1) as (c' & Hf & Hi' & He' & Ho').
  exists c'. split; [exact Hf|]. rewrite Ho', Ho, He', He, Hi', Hi, Hh. auto.
Qed.

End FramesBothWays.

(** ** Reading *)

Lemma find_crlfcrlf_none p : forall i0,
  (forall pre post, p <> pre ++ CR :: LF :: CR :: LF :: post) ->
  find_crlfcrlf p i0 = None.
Proof.
  induction p as [|a rest IH]; intros i0 Hno; [reflexivity|].
  cbn [find_crlfcrlf].
  destruct rest as [|b [|c [|d rest']]]; try reflexivity.
  destruct (Ascii.eqb a CR && Ascii.eqb b LF && Ascii.eqb c CR && Ascii.eqb d LF) eqn:E.
  - apply andb_prop in E as [E Ed]. apply andb_prop in E as [E Ec].
    apply andb_prop in E as [Ea Eb].
    apply Ascii.eqb_eq in Ea, Eb, Ec, Ed. subst.
    exfalso. apply (Hno [] rest'). reflexivity.
  - apply IH. intros pre post Heq. apply (Hno (a :: pre) post).
    rewrite Heq. reflexivity.
Qed.

Lemma chunk_nonempty available :
  available <> [] ->
  (size (firstn (Z.to_nat ReadWriteBufferSize) available) =? 0) = false.
Proof.
  intros Hne. apply Z.eqb_neq. unfold size.
  destruct (Z.to_nat ReadWriteBufferSize) eqn:En;
    [unfold ReadWriteBufferSize in En; lia|].
  destruct available; [contradiction|]. cbn [firstn length]. lia.
Qed.

Section ReadPath.

Variable env : Environment.
Variable co : Collaborators.

(** X11: a read that fails, and the end of the stream, leave the 16384 bytes
    the buffer was grown by in it, as zeros; the next bytes read are placed
    behind them.  A closed connection does not read. *)
Theorem failed_read_leaves_its_padding c :
  let padding := repeat NUL (Z.to_nat ReadWriteBufferSize) in
  (forall o, closed c = true -> handleDataReadyForRead env co o c = Some c)
  /\ (closed c = false ->
      (exists c',
          handleDataReadyForRead env co ReadFailed c = Some c' /\
          inBuf c' = inBuf c ++ padding /\ closed c' = false /\
          bytesReceived c' = bytesReceived c /\ events c' = events c /\
          state c' = state c /\ output c' = output c /\
          forall available,
            available <> [] ->
            let data := firstn (Z.to_nat ReadWriteBufferSize) available in
            exists c2,
              inBuf c2 = inBuf c ++ padding ++ data /\
              bytesReceived c2 = to_size_t (bytesReceived c + size data) /\
              handleDataReadyForRead env co (ReadData available) c'
              = handleNewData env co (S (length (inBuf c2))) c2) /\
      (exists c',
          handleDataReadyForRead env co (ReadData []) c = Some c' /\
          inBuf c' = inBuf c ++ padding /\ shutdown c' = true /\
          shutdownByUser c' = shutdownByUser c /\
          bytesReceived c' = bytesReceived c /\ events c' = events c /\
          output c' = output c)).
Proof.
  cbv zeta. split.
  - intros o Hc. unfold handleDataReadyForRead. rewrite Hc. reflexivity.
  - intros Hc. split.
    + unfold handleDataReadyForRead at 1. rewrite Hc.
      eexists. split; [reflexivity|].
      cbn [inBuf set_inBuf log bytesReceived events state].
      repeat split; [exact Hc|].
      intros available Hne.
      set (c1 := log WARNING "Unable to read from socket"
                   (set_inBuf (inBuf c ++ repeat NUL (Z.to_nat ReadWriteBufferSize)) c)).
      assert (Hc1 : closed c1 = false) by exact Hc.
      unfold handleDataReadyForRead. rewrite Hc1.
      rewrite (chunk_nonempty available Hne).
      set (data := firstn (Z.to_nat ReadWriteBufferSize) available).
      eexists. refine (conj _ (conj _ eq_refl)).
      * cbn [inBuf set_inBuf set_bytesReceived].
        rewrite firstn_app, Nat.sub_diag, firstn_all. cbn [firstn].
        rewrite app_nil_r. unfold c1. cbn [inBuf set_inBuf log].
        rewrite <- app_assoc. reflexivity.
      * reflexivity.
    + unfold handleDataReadyForRead. rewrite Hc. cbn [firstn size length Z.of_nat].
      change (0 =? 0) with true. cbv iota.
      match goal with
      | |- context [closeInternal env ?x] =>
        destruct (closeInternal_spec env x) as (H1 & H2 & H3 & H4 & _ & H6 & _ & _ & H9 & _)
      end.
      eexists. split; [reflexivity|].
      assert (Hb : forall x, bytesReceived (snd (closeInternal env x)) = bytesReceived x).
      { intros x. unfold closeInternal. cbn [snd].
        destruct (negb (fd x =? -1) && negb (shutdown x));
          [destruct (sock_shutdown env (tick x))|]; reflexivity. }
      unfold output. rewrite H1, H2, H3, H4, H6, H9, Hb. repeat split; reflexivity.
Qed.

(** X12: headers that are not yet closed by an empty line are waited for, up
    to 64 KiB of them; beyond that the request is answered with 501
    "Headers too big", and the buffer is kept. *)
Theorem headers_without_end_wait_or_are_refused handleNewData c :
  (forall pre post, inBuf c <> pre ++ crlf ++ crlf ++ post) ->
  (size (inBuf c) <= MaxHeadersSize -> handleHeaders env co handleNewData c = Some c)
  /\ (MaxHeadersSize < size (inBuf c) ->
      exists c',
        handleHeaders env co handleNewData c = Some c' /\
        inBuf c' = inBuf c /\ state c' = state c /\ events c' = events c /\
        (writable c ->
         size (outBuf c)
         + size (errorResponse co NotImplemented (clock env (tick c)) (lit "Headers too big"))
           < MaxBufferSize ->
         output c' = output c
                     ++ errorResponse co NotImplemented (clock env (tick c))
                          (lit "Headers too big"))).
Proof.
  intros Hno. unfold handleHeaders.
  rewrite (find_crlfcrlf_none (inBuf c) 0 Hno).
  split.
  - intros Hsmall. destruct (size (inBuf c) <? 4); [reflexivity|].
    destruct (MaxHeadersSize <? size (inBuf c)) eqn:E; [|reflexivity].
    apply Z.ltb_lt in E. lia.
  - intros Hbig. destruct (size (inBuf c) <? 4) eqn:E4.
    { apply Z.ltb_lt in E4. unfold MaxHeadersSize in Hbig. lia. }
    destruct (MaxHeadersSize <? size (inBuf c)) eqn:E; [|apply Z.ltb_ge in E; lia].
    eexists. split; [reflexivity|].
    unfold sendUnsupportedError.
    destruct (sendError env co NotImplemented (lit "Headers too big") c) as [ok c'] eqn:Es.
    pose proof (keeps_session_sendError env co c NotImplemented (lit "Headers too big")
                  c ok c' Es (same_session_refl c)) as (Hi & Hst & He & _).
    cbn [snd]. repeat split; auto.
    intros Hw Hroom.
    replace c' with (snd (sendError env co NotImplemented (lit "Headers too big") c))
      by (rewrite Es; reflexivity).
    apply sendError_output; assumption.
Qed.

(** X13: once an error response has been sent the connection takes no further
    output: it is shut down, or will be when its buffer is empty. *)
Theorem error_response_ends_the_connection errorCode body c c' :
  sendError env co errorCode body c = (true, c') ->
  (shutdown c' = true \/ (closeOnEmpty c' = true /\ outBuf c' <> []))
  /\ forall data flushIt, write env data flushIt c' = (false, c').
Proof.
  intros H.
  assert (Hend : shutdown c' = true \/ (closeOnEmpty c' = true /\ outBuf c' <> [])).
  { unfold sendError in H.
    repeat match type of H with
    | bind ?m ?k ?x = _ =>
      unfold bind at 1 in H; destruct (m x) as [? ?]
    end.
    match type of H with
    | (let (_, _) := ?m ?x in _) = _ => idtac
    | _ => idtac
    end.
    revert H.
    match goal with
    | |- (if negb ?ok then _ else _) ?x = _ -> _ =>
      destruct ok; cbn [negb]; [|unfold ret; intros H; discriminate H]
    end.
    unfold bind, ret. intros H.
    match type of H with
    | (let (_, _) := closeWhenEmpty env ?x in _) = _ =>
      unfold closeWhenEmpty in H; destruct (outBuf x) eqn:Ho
    end.
    - match type of H with
      | (let (_, _) := closeInternal env ?x in _) = _ =>
        pose proof (closeInternal_spec env x) as (H1 & _);
        destruct (closeInternal env x) as [? ?]
      end.
      inversion H; subst. left. exact H1.
    - inversion H; subst. right. cbn [closeOnEmpty set_closeOnEmpty outBuf].
      rewrite Ho. split; [reflexivity | discriminate]. }
  split; [exact Hend|].
  intros data flushIt. apply write_closed.
  destruct Hend as [Hs | [He _]].
  - rewrite (closed_shutdown _ Hs). reflexivity.
  - rewrite He. apply orb_true_r.
Qed.

End ReadPath.

(** ** Lines *)

Lemma extractLines_line l : forall pre colon rest,
  ~ In LF l ->
  extractLines (l ++ crlf ++ rest) (rev pre) (length pre) colon
  = (pre ++ l,
     match colon with
     | Some _ => colon
     | None => option_map (fun i => (length pre + i)%nat) (find_char ":" l)
     end) :: extractLines rest [] 0%nat None.
Proof.
  induction l as [|x l IH]; intros pre colon rest Hn.
  - cbn [app crlf extractLines]. rewrite !Ascii.eqb_refl. cbn [andb].
    rewrite rev_involutive, app_nil_r. destruct colon; reflexivity.
  - assert (Hx : exists c1 tl', l ++ crlf ++ rest = c1 :: tl' /\ c1 <> LF).
    { destruct l as [|y l'].
      - exists CR, (LF :: rest). split; [reflexivity | discriminate].
      - exists y, (l' ++ crlf ++ rest). split; [reflexivity|].
        intros E. apply Hn. right. left. exact E. }
    destruct Hx as (c1 & tl' & Etl & Hc1).
    change ((x :: l) ++ crlf ++ rest) with (x :: (l ++ crlf ++ rest)).
    cbn [extractLines]. rewrite Etl.
    assert (E1 : Ascii.eqb c1 LF = false) by (apply Ascii.eqb_neq; exact Hc1).
    rewrite E1, andb_false_r. rewrite <- Etl.
    change (x :: rev pre) with (rev [x] ++ rev pre). rewrite <- rev_app_distr.
    replace (S (length pre)) with (length (pre ++ [x]))
      by (rewrite length_app; simpl; lia).
    rewrite IH by (intros Hin; apply Hn; right; exact Hin).
    rewrite <- app_assoc. cbn [app]. f_equal. f_equal.
    destruct colon as [i|]; [reflexivity|].
    cbn [find_char]. destruct (Ascii.eqb x ":").
    + cbn [option_map]. f_equal. lia.
    + rewrite length_app. cbn [length].
      destruct (find_char ":" l); cbn [option_map]; [f_equal; lia | reflexivity].
Qed.

(** X14: header lines are read back as they were written: of lines that hold
    no line feed, each followed by CR LF, extractLine yields each line in
    turn, with the place of its first colon. *)
Theorem extractLines_reads_the_lines_back lines :
  Forall (fun l => ~ In LF l) lines ->
  extractLines (concat (map (fun l => l ++ crlf) lines)) [] 0%nat None
  = map (fun l => (l, find_char ":" l)) lines.
Proof.
  induction lines as [|l rest IH]; intros Hall; [reflexivity|].
  inversion Hall as [|? ? Hl Hrest]; subst.
  cbn [map concat]. rewrite <- app_assoc.
  rewrite (extractLines_line l [] None _ Hl). cbn [app length].
  rewrite IH by exact Hrest. f_equal. f_equal.
  destruct (find_char ":" l); reflexivity.
Qed.

(** ** Content types *)

Lemma find_last_of_none ch s : ~ In ch s -> find_last_of ch s = None.
Proof.
  induction s as [|x s IH]; intros Hn; simpl; [reflexivity|].
  rewrite IH by (intros Hin; apply Hn; right; exact Hin).
  destruct (Ascii.eqb x ch) eqn:E; [|reflexivity].
  apply Ascii.eqb_eq in E. exfalso. apply Hn. left. exact E.
Qed.

Lemma find_last_of_app ch stem ext :
  ~ In ch ext -> find_last_of ch (stem ++ ch :: ext) = Some (length stem).
Proof.
  intros Hn. induction stem as [|x stem IH]; simpl.
  - rewrite (find_last_of_none ch ext Hn), Ascii.eqb_refl. reflexivity.
  - rewrite IH. reflexivity.
Qed.

Lemma getExt_app stem ext : ~ In "."%char ext -> getExt (stem ++ "."%char :: ext) = ext.
Proof.
  intros Hn. unfold getExt, substr_from. rewrite find_last_of_app by exact Hn.
  replace (length stem + 1)%nat with (length (stem ++ ["."%char]))
    by (rewrite length_app; reflexivity).
  replace (stem ++ "."%char :: ext) with ((stem ++ ["."%char]) ++ ext)
    by (rewrite <- app_assoc; reflexivity).
  apply skipn_length_app.
Qed.

(** X15: the content type and the cacheability of a path are those of what
    follows its last dot, whatever comes before; a path without a dot is
    text/html and not cacheable; and the cacheable paths are those served
    as audio. *)
Theorem content_type_goes_by_the_last_dot :
  (forall stem ext, ~ In "."%char ext ->
     getContentType (stem ++ "."%char :: ext) = getContentType ("."%char :: ext) /\
     isCacheable (stem ++ "."%char :: ext) = isCacheable ("."%char :: ext))
  /\ (forall path, ~ In "."%char path ->
        getContentType path = lit "text/html" /\ isCacheable path = false)
  /\ (forall path,
        isCacheable path = true <->
        getContentType path = lit "audio/mpeg" \/ getContentType path = lit "audio/x-wav").
Proof.
  split; [|split].
  - intros stem ext Hn. unfold getContentType, isCacheable.
    pose proof (getExt_app [] ext Hn) as H0. cbn [app] in H0.
    rewrite (getExt_app stem ext Hn), H0. split; reflexivity.
  - intros path Hn. unfold getContentType, isCacheable, getExt.
    rewrite (find_last_of_none _ _ Hn). split; reflexivity.
  - intros path. unfold isCacheable, getContentType.
    generalize (getExt path) as ext. intros ext. split.
    + intros H. apply orb_prop in H. destruct H as [H | H];
        apply bytes_eqb_eq in H; subst ext; [left | right]; reflexivity.
    + unfold contentTypes. cbn [lookup_type].
      repeat match goal with
      | |- context [if bytes_eqb ext ?k then _ else _] =>
        destruct (bytes_eqb ext k) eqn:?
      end;
      intros H; cbn [orb]; try reflexivity; destruct H as [H | H]; discriminate H.
Qed.

(** ** Range headers *)

Lemma find_char_none ch s : find_char ch s = None <-> ~ In ch s.
Proof.
  induction s as [|x s IH]; simpl; [tauto|].
  destruct (Ascii.eqb x ch) eqn:E.
  - apply Ascii.eqb_eq in E. split; [discriminate | intros H; exfalso; apply H; auto].
  - apply Ascii.eqb_neq in E. destruct (find_char ch s).
    + split; [discriminate|]. intros H. exfalso.
      assert (Hs : ~ In ch s) by (intros Hin; apply H; right; exact Hin).
      apply IH in Hs. discriminate.
    + split; [|reflexivity]. intros _ [H | H]; [contradiction|].
      destruct IH as [IH _]. exact (IH eq_refl H).
Qed.

Lemma parseRange_none rangeStr : parseRange rangeStr = None <-> ~ In "-"%char rangeStr.
Proof.
  rewrite <- find_char_none. unfold parseRange.
  destruct (find_char "-" rangeStr) as [minusPos|]; [|tauto].
  split; [|discriminate].
  destruct (Nat.eqb minusPos 0); [discriminate|].
  destruct (Nat.eqb minusPos (length rangeStr - 1)); discriminate.
Qed.

Lemma parseRanges_loop_some texts : forall acc,
  Forall (fun t => In "-"%char t) texts ->
  exists ranges, parseRanges_loop texts acc = Some (acc ++ ranges) /\
                 length ranges = length texts.
Proof.
  induction texts as [|t rest IH]; intros acc Hall.
  - exists []. rewrite app_nil_r. split; reflexivity.
  - inversion Hall as [|? ? Ht Hrest]; subst. cbn [parseRanges_loop].
    destruct (parseRange t) as [r|] eqn:E.
    + destruct (IH (acc ++ [r]) Hrest) as (ranges & Hl & Hlen).
      exists (r :: ranges). rewrite Hl, <- app_assoc. split; [reflexivity|].
      simpl. rewrite Hlen. reflexivity.
    + apply parseRange_none in E. contradiction.
Qed.

Lemma parseRanges_loop_none texts : forall acc,
  ~ Forall (fun t => In "-"%char t) texts -> parseRanges_loop texts acc = None.
Proof.
  induction texts as [|t rest IH]; intros acc Hall.
  - exfalso. apply Hall. constructor.
  - cbn [parseRanges_loop]. destruct (parseRange t) as [r|] eqn:E; [|reflexivity].
    apply IH. intros Hrest. apply Hall. constructor; [|exact Hrest].
    destruct (in_dec ascii_dec "-"%char t) as [Hin | Hn]; [exact Hin|].
    apply parseRange_none in Hn. congruence.
Qed.

(** X16: a Range header is taken when it begins with "bytes=" and each of its
    comma-separated elements holds a minus sign, whatever else the elements
    hold; any other header is refused. *)
Theorem range_header_needs_a_minus_in_each_element :
  (forall t rest,
     t <> [] -> Forall (fun t => ~ In ","%char t) (t :: rest) ->
     (parseRanges (lit "bytes=" ++ join_commas (t :: rest)) <> None
      <-> Forall (fun t => In "-"%char t) (t :: rest)))
  /\ (forall range,
        (forall elements, range <> lit "bytes=" ++ elements) ->
        parseRanges range = None).
Proof.
  split.
  - intros t rest Hne Hall. unfold parseRanges.
    change (length (lit "bytes=")) with 6%nat.
    assert (Hlen : (length (lit "bytes=" ++ join_commas (t :: rest)) <? 6)%nat = false).
    { apply Nat.ltb_ge. rewrite length_app. simpl. lia. }
    rewrite Hlen. unfold substr, substr_from. rewrite skipn_O. cbn [orb].
    change 6%nat with (length (lit "bytes=")).
    rewrite firstn_length_app, skipn_length_app, bytes_eqb_refl. cbn [negb].
    rewrite split_join by assumption.
    split.
    + intros H.
      destruct (Forall_dec (fun t => In "-"%char t)
                  (fun t => in_dec ascii_dec "-"%char t) (t :: rest)) as [Hy | Hn];
        [exact Hy|].
      rewrite (parseRanges_loop_none _ [] Hn) in H. contradiction.
    + intros Hminus.
      destruct (parseRanges_loop_some (t :: rest) [] Hminus) as (ranges & Hl & Hlen').
      rewrite Hl. cbn [app]. destruct ranges; [discriminate Hlen' | discriminate].
  - intros range Hno. unfold parseRanges.
    change (length (lit "bytes=")) with 6%nat.
    destruct (length range <? 6)%nat eqn:E; [reflexivity|]. cbn [orb].
    unfold substr. rewrite skipn_O.
    destruct (bytes_eqb (firstn 6 range) (lit "bytes=")) eqn:Eb; [|reflexivity].
    apply bytes_eqb_eq in Eb. exfalso. apply (Hno (skipn 6 range)).
    rewrite <- Eb. symmetry. apply firstn_skipn.
Qed.

(** ** The end of a connection *)

(** X17: finalise tells the handler of the disconnect once and gives up the
    descriptor; a second finalise changes nothing, and nothing can be sent
    afterwards. *)
Theorem finalise_disconnects_once c :
  let c1 := snd (finalise c) in
  events c1 = events c ++ match webSocketHandler c with
                          | Some h => [OnDisconnect h]
                          | None => []
                          end
  /\ fd c1 = -1 /\ webSocketHandler c1 = None /\ closed c1 = true
  /\ output c1 = output c
  /\ snd (finalise c1) = c1
  /\ forall env data flushIt,
       write env data flushIt c1 = (false, c1) /\ safeSend env data c1 = (-1, c1).
Proof.
  cbv zeta. unfold finalise. cbn [snd].
  set (c0 := match webSocketHandler c with
             | Some h => set_webSocketHandler None (notify (OnDisconnect h) c)
             | None => c
             end).
  assert (H0 : events c0 = events c ++ match webSocketHandler c with
                                       | Some h => [OnDisconnect h]
                                       | None => []
                                       end
               /\ webSocketHandler c0 = None /\ output c0 = output c).
  { unfold c0. destruct (webSocketHandler c) eqn:E.
    - repeat split.
    - rewrite app_nil_r. repeat split. exact E. }
  destruct H0 as (He & Hh & Ho). clearbody c0.
  set (c1 := if negb (fd c0 =? -1) then log DEBUG "Closing socket" c0 else c0).
  assert (H1 : events c1 = events c0 /\ webSocketHandler c1 = None /\ output c1 = output c0).
  { unfold c1. destruct (negb (fd c0 =? -1)); repeat split; assumption. }
  destruct H1 as (He1 & Hh1 & Ho1). clearbody c1.
  cbn [events set_fd fd webSocketHandler closed shutdown].
  rewrite He1, He, Hh1.
  split; [reflexivity|]. split; [reflexivity|]. split; [reflexivity|].
  split; [reflexivity|].
  split; [unfold output in *; cbn [wire outBuf set_fd]; rewrite <- Ho, <- Ho1; reflexivity|].
  split; [reflexivity|].
  intros env data flushIt. split; [apply write_closed|]; reflexivity.
Qed.

Section SendAfterClose.

Variable env : Environment.

(** X18: after close() a message from the handler is dropped and logged as an
    error; after a shutdown that was not the user's it is dropped without a
    word. *)
Theorem send_after_close_is_an_error c webSocketResponse data :
  (let c1 := snd (close env c) in
   shutdown c1 = true /\ shutdownByUser c1 = true /\ output c1 = output c /\
   snd (send_text env webSocketResponse c1)
   = log ERROR "Server wrote to connection after closing it" c1 /\
   snd (send_binary env data c1)
   = log ERROR "Client wrote to connection after closing it" c1)
  /\
  (shutdownByUser c = false ->
   let c1 := snd (closeInternal env c) in
   snd (send_text env webSocketResponse c1) = c1 /\
   snd (send_binary env data c1) = c1).
Proof.
  split.
  - cbv zeta. unfold close, bind, modify. cbn [snd].
    destruct (closeInternal_spec env (set_shutdownByUser true c))
      as (H1 & H2 & H3 & _ & _ & _ & _ & _ & H9 & _).
    destruct (closeInternal env (set_shutdownByUser true c)) as [u c1]. cbn [snd] in *.
    cbn [shutdownByUser set_shutdownByUser wire outBuf] in *.
    split; [exact H1|]. split; [exact H9|].
    split; [unfold output; rewrite H2, H3; reflexivity|].
    rewrite send_text_shutdown, send_binary_shutdown by exact H1.
    rewrite H9. split; reflexivity.
  - intros Hu. cbv zeta.
    destruct (closeInternal_spec env c) as (H1 & _ & _ & _ & _ & _ & _ & _ & H9 & _).
    rewrite send_text_shutdown, send_binary_shutdown by exact H1.
    rewrite H9, Hu. split; reflexivity.
Qed.
End SendAfterClose.

(** ** Static files *)

Lemma firstn_two_parts (l : bytes) : forall a b,
  firstn a l ++ firstn b (skipn a l) = firstn (a + b) l.
Proof.
  induction l as [|x l IH]; intros a b.
  - rewrite skipn_nil, !firstn_nil. reflexivity.
  - destruct a as [|a]; [reflexivity|].
    cbn [firstn skipn Nat.add app]. f_equal. apply IH.
Qed.

Section StaticFiles.

Variable env : Environment.
Variable co : Collaborators.

(** The copy loop on a socket that does not fail, with room in the buffer
    for what is to be copied. *)
Lemma copyRange_reliable content : forall fuel pos bytesLeft c,
  reliable env -> sendable c ->
  0 <= pos -> 0 <= bytesLeft -> pos + bytesLeft <= size content ->
  size (outBuf c) + bytesLeft < MaxBufferSize ->
  (Z.to_nat bytesLeft < fuel)%nat ->
  exists c',
    copyRange env fuel content pos bytesLeft c = Some (true, c') /\
    output c' = output c ++ firstn (Z.to_nat bytesLeft) (skipn (Z.to_nat pos) content) /\
    sendable c' /\ size (outBuf c') <= size (outBuf c) + bytesLeft /\
    same_session c c'.
Proof.
  induction fuel as [|fuel IH]; intros pos bytesLeft c Hrel Hs Hpos Hbl Hin Hroom Hfuel;
    [lia|].
  cbn [copyRange].
  destruct (bytesLeft =? 0) eqn:E0.
  { apply Z.eqb_eq in E0. subst bytesLeft. exists c. split; [reflexivity|].
    cbn [Z.to_nat firstn]. rewrite app_nil_r.
    split; [reflexivity|]. split; [exact Hs|]. split; [lia | apply same_session_refl]. }
  apply Z.eqb_neq in E0.
  set (count := Z.min ReadWriteBufferSize bytesLeft).
  assert (Hcount : 1 <= count <= bytesLeft) by (unfold count, ReadWriteBufferSize; lia).
  set (buf := firstn (Z.to_nat count) (skipn (Z.to_nat pos) content)).
  assert (Hbuf : size buf = count).
  { unfold buf, size in *. rewrite length_firstn, length_skipn. lia. }
  rewrite Hbuf.
  destruct (count <=? 0) eqn:Ec; [apply Z.leb_le in Ec; lia|].
  unfold MaxBufferSize in Hroom.
  pose proof (size_nonneg (outBuf c)) as Ho.
  rewrite to_size_t_small by lia.
  destruct (write_reliable env buf true c Hrel Hs) as (c1 & W1 & O1 & S1 & Z1 & T1).
  { rewrite Hbuf. unfold MaxBufferSize. lia. }
  rewrite W1. cbn [negb]. rewrite Hbuf in Z1.
  destruct (IH (pos + count) (bytesLeft - count) c1 Hrel S1)
    as (c' & Hc & Oc & Sc & Zc & Tc); try lia.
  { unfold MaxBufferSize. lia. }
  exists c'. split; [exact Hc|].
  split; [|split; [exact Sc|split; [lia | exact (same_session_trans _ _ _ T1 Tc)]]].
  rewrite Oc, O1, <- app_assoc. f_equal. unfold buf.
  replace (Z.to_nat (pos + count)) with (Z.to_nat count + Z.to_nat pos)%nat by lia.
  rewrite <- skipn_skipn, firstn_two_parts. f_equal. lia.
Qed.

(** The loop over the ranges, under the same conditions. *)
Lemma copyRanges_reliable content : forall ranges c,
  reliable env -> sendable c ->
  Forall (fun r => 0 <= range_start r /\ range_start r <= range_end r + 1
                   /\ range_end r < size content) ranges ->
  size (outBuf c) + total_length ranges < MaxBufferSize ->
  exists c',
    copyRanges env content ranges c = Some (true, c') /\
    output c' = output c ++ concat (map (slice content) ranges) /\
    sendable c' /\ same_session c c'.
Proof.
  induction ranges as [|r rest IH]; intros c Hrel Hs Hall Hroom.
  - exists c. split; [reflexivity|]. cbn [map concat]. rewrite app_nil_r.
    split; [reflexivity|]. split; [exact Hs | apply same_session_refl].
  - inversion Hall as [|? ? (Hr0 & Hr1 & Hr2) Hrest]; subst.
    unfold total_length in Hroom. cbn [map fold_right] in Hroom.
    fold (total_length rest) in Hroom.
    assert (Htot : 0 <= total_length rest).
    { clear - Hrest. induction Hrest as [|x l (A & B & C) _ IHl];
        unfold total_length in *; cbn [map fold_right]; [lia|].
      unfold interval_length at 1. lia. }
    unfold interval_length in Hroom.
    pose proof (size_nonneg (outBuf c)) as Ho.
    cbn [copyRanges].
    destruct (range_start r <? 0) eqn:E; [apply Z.ltb_lt in E; lia|].
    unfold Range_length. unfold MaxBufferSize in Hroom.
    rewrite to_size_t_small by lia.
    destruct (copyRange_reliable content (S (length content)) (range_start r)
                (range_end r - range_start r + 1) c Hrel Hs)
      as (c1 & Hc & Oc & Sc & Zc & Tc); try lia.
    { unfold MaxBufferSize. lia. }
    { unfold size in Hr2. lia. }
    rewrite Hc.
    destruct (IH c1 Hrel Sc Hrest) as (c' & Hc' & Oc' & Sc' & Tc').
    { unfold MaxBufferSize. lia. }
    exists c'. split; [exact Hc'|].
    split; [|split; [exact Sc' | exact (same_session_trans _ _ _ Tc Tc')]].
    rewrite Oc', Oc, <- app_assoc. reflexivity.
Qed.

(** X19: the ranges to send are copied to the output one after the other,
    each byte of each and nothing else, when all of them lie inside the file
    and the socket does not fail; the file is read in pieces of at most
    16384 bytes, which leaves no trace in the output. *)
Theorem ranges_are_copied_in_order content ranges c :
  reliable env -> sendable c ->
  Forall (fun r => 0 <= range_start r /\ range_start r <= range_end r + 1
                   /\ range_end r < size content) ranges ->
  size (outBuf c) + total_length ranges < MaxBufferSize ->
  exists c',
    copyRanges env content ranges c = Some (true, c') /\
    output c' = output c ++ concat (map (slice content) ranges) /\
    sendable c' /\ same_session c c'.
Proof. exact (copyRanges_reliable content ranges c). Qed.


Lemma sendStaticData_path requestUri rangeHeader c :
  sendStaticData env co requestUri rangeHeader c =
  let path := staticFilePath co requestUri in
  match open_file co (c_str path) with
  | None => Some (send404 env co (c_str requestUri) c)
  | Some input =>
    match (if is_empty rangeHeader then Some [] else parseRanges rangeHeader) with
    | None => Some (sendBadRequest env co (lit "Bad range header") c)
    | Some ranges =>
      let (ok_ranges, c) :=
        (ranges <- processRangesForStaticData env co ranges (size (file_content input)) ;;
         _ <- bufferLine env (lit "Content-Type: " ++ getContentType path) ;;
         _ <- bufferLine_cstr env (lit "Connection: keep-alive") ;;
         _ <- bufferLine_cstr env (lit "Accept-Ranges: bytes") ;;
         _ <- bufferLine env (lit "Last-Modified: " ++ webtime_of co (file_mtime input)) ;;
         _ <- (if negb (isCacheable path) then
                 _ <- bufferLine_cstr env (lit "Cache-Control: no-store") ;;
                 _ <- bufferLine_cstr env (lit "Pragma: no-cache") ;;
                 expires <- now env ;;
                 bufferLine env (lit "Expires: " ++ expires)
               else ret true) ;;
         _ <- bufferLine_cstr env (lit "") ;;
         ok <- flush env ;;
         ret (ok, ranges)) c in
      if negb (fst ok_ranges) then Some (false, c)
      else copyRanges env (file_content input) (snd ok_ranges) c
    end
  end.
Proof. reflexivity. Qed.

(** The headers of sendStaticData behind the lines of
    processRangesForStaticData, on a writable connection with room. *)
Lemma staticHeaders_buffered path input c :
  writable c ->
  size (outBuf c) + size (staticHeaders co (clock env (tick c)) path input)
    < MaxBufferSize ->
  exists c1,
    (forall B (k : bool -> M B),
       (_ <- bufferLine env (lit "Content-Type: " ++ getContentType path) ;;
        _ <- bufferLine_cstr env (lit "Connection: keep-alive") ;;
        _ <- bufferLine_cstr env (lit "Accept-Ranges: bytes") ;;
        _ <- bufferLine env (lit "Last-Modified: " ++ webtime_of co (file_mtime input)) ;;
        _ <- (if negb (isCacheable path) then
                _ <- bufferLine_cstr env (lit "Cache-Control: no-store") ;;
                _ <- bufferLine_cstr env (lit "Pragma: no-cache") ;;
                expires <- now env ;;
                bufferLine env (lit "Expires: " ++ expires)
              else ret true) ;;
        ok <- bufferLine_cstr env (lit "") ;;
        k ok) c = k true c1) /\
    outBuf c1 = outBuf c ++ staticHeaders co (clock env (tick c)) path input /\
    wire c1 = wire c /\ closed c1 = closed c /\ closeOnEmpty c1 = closeOnEmpty c /\
    hadSendError c1 = hadSendError c /\ same_session c c1.
Proof.
  intros Hw Hroom. unfold staticHeaders in *.
  destruct (isCacheable path); cbn [negb].
  - eexists. split.
    + intros B k.
      erewrite bind_eq by (apply bufferLine_ok; [writable_now | size_lia]).
      erewrite bind_eq by (apply bufferLine_cstr_ok; [writable_now | size_lia]).
      erewrite bind_eq by (apply bufferLine_cstr_ok; [writable_now | size_lia]).
      erewrite bind_eq by (apply bufferLine_ok; [writable_now | size_lia]).
      erewrite bind_eq by reflexivity.
      erewrite bind_eq by (apply bufferLine_cstr_ok; [writable_now | size_lia]).
      reflexivity.
    + conn_simpl. cstr_lits. repeat rewrite <- app_assoc.
      repeat split; reflexivity.
  - eexists. split.
    + intros B k.
      erewrite bind_eq by (apply bufferLine_ok; [writable_now | size_lia]).
      erewrite bind_eq by (apply bufferLine_cstr_ok; [writable_now | size_lia]).
      erewrite bind_eq by (apply bufferLine_cstr_ok; [writable_now | size_lia]).
      erewrite bind_eq by (apply bufferLine_ok; [writable_now | size_lia]).
      erewrite bind_eq.
      2:{ erewrite bind_eq by (apply bufferLine_cstr_ok; [writable_now | size_lia]).
          erewrite bind_eq by (apply bufferLine_cstr_ok; [writable_now | size_lia]).
          erewrite bind_eq by reflexivity.
          apply bufferLine_ok; [writable_now | size_lia]. }
      erewrite bind_eq by (apply bufferLine_cstr_ok; [writable_now | size_lia]).
      reflexivity.
    + conn_simpl. cstr_lits. repeat rewrite <- app_assoc.
      repeat split; reflexivity.
Qed.

(** X20: a file asked for without a Range header is served whole on a socket
    that does not fail: the 200 head with the length of the file, its
    content type, the caching headers, a blank line, then every byte of the
    file; the connection stays open. *)
Theorem static_file_is_served_whole c requestUri input :
  reliable env -> sendable c ->
  open_file co (c_str (staticFilePath co requestUri)) = Some input ->
  let path := staticFilePath co requestUri in
  let head := staticHead co (clock env (tick c)) (clock env (S (tick c))) path input in
  size (outBuf c) + size head + size (file_content input) < MaxBufferSize ->
  exists c',
    sendStaticData env co requestUri [] c = Some (true, c') /\
    output c' = output c ++ head ++ file_content input /\
    sendable c' /\ same_session c c'.
Proof.
  intros Hrel Hs Hopen path head Hroom.
  pose proof Hs as [Hw Hhe].
  rewrite sendStaticData_path. cbv zeta. rewrite Hopen. cbn [is_empty].
  fold path. unfold head, staticHead in Hroom.
  set (content := file_content input) in *.
  pose proof (size_nonneg content) as Hcn.
  unfold processRangesForStaticData.
  erewrite bind_eq.
  2:{ erewrite bind_eq by (apply bufferResponseAndCommonHeaders_ok;
                           [writable_now | size_lia]).
      erewrite bind_eq by (apply bufferLine_ok; [writable_now | size_lia]).
      reflexivity. }
  match goal with
  | |- context [bind (bufferLine env _) _ ?x] => set (c1 := x)
  end.
  assert (Hw1 : writable c1) by exact Hw.
  assert (Hroom1 : size (outBuf c1)
                   + size (staticHeaders co (clock env (tick c1)) path input)
                   < MaxBufferSize).
  { unfold c1. size_lia. }
  destruct (staticHeaders_buffered path input c1 Hw1 Hroom1)
    as (c2 & Hk & O2 & W2 & C2 & E2 & H2 & T2).
  rewrite Hk.
  assert (Hc2 : closed c2 = false) by (rewrite C2; exact (proj1 Hw)).
  assert (He2 : closeOnEmpty c2 = false) by (rewrite E2; exact (proj2 Hw)).
  assert (Hh2 : hadSendError c2 = false) by (rewrite H2; exact Hhe).
  destruct (flush_reliable env c2 Hrel Hc2 Hh2) as (c3 & Hf & O3 & Z3 & _ & H3 & Hop).
  erewrite bind_eq by exact Hf. unfold ret. cbn [fst snd negb].
  destruct (Hop He2) as [Hc3 He3].
  assert (Hs3 : sendable c3) by (repeat split; assumption).
  assert (Hsz2 : size (outBuf c2) + size content < MaxBufferSize).
  { rewrite O2. unfold c1. size_lia. }
  destruct (copyRanges_reliable content [mkRange 0 (size content - 1)] c3
              Hrel Hs3) as (c4 & Hc4 & O4 & S4 & T4).
  { constructor; [|constructor]. cbn [range_start range_end]. lia. }
  { unfold total_length, interval_length. cbn [map fold_right range_start range_end].
    lia. }
  exists c4. split; [exact Hc4|]. split; [|split; [exact S4|]].
  - rewrite O4, O3. unfold output. rewrite O2, W2. unfold c1. conn_simpl.
    unfold head, staticHead. fold content.
    cbn [map concat]. unfold slice, interval_length.
    cbn [range_start range_end Z.to_nat skipn].
    replace (size content - 1 - 0 + 1) with (size content) by lia.
    assert (Hall : firstn (Z.to_nat (size content)) content = content)
      by (unfold size; rewrite Nat2Z.id; apply firstn_all).
    rewrite Hall, app_nil_r.
    repeat rewrite <- app_assoc. reflexivity.
  - pose proof (keeps_session_flush env c2 c2 true c3 Hf (same_session_refl c2)) as T3.
    assert (T1 : same_session c c1) by (unfold same_session, c1; repeat split).
    exact (same_session_trans _ _ _ T1
             (same_session_trans _ _ _ T2 (same_session_trans _ _ _ T3 T4))).
Qed.

End StaticFiles.

(** ** Pages and requests *)

Section Pages.

Variable env : Environment.
Variable co : Collaborators.

(** X21: the query string of a request plays no part in which file is served
    or how: with and without it the same file is opened and the same
    response is sent; and a path that ends in a slash is that of the
    index.html below it. *)
Theorem query_string_is_ignored_for_static_files stem :
  ~ In "?"%char (getStaticPath co) -> ~ In "?"%char stem -> ~ In NUL stem ->
  (forall query, staticFilePath co (stem ++ "?"%char :: query) = staticFilePath co stem)
  /\ (forall query rangeHeader c,
        open_file co (c_str (staticFilePath co stem)) <> None ->
        sendStaticData env co (stem ++ "?"%char :: query) rangeHeader c
        = sendStaticData env co stem rangeHeader c)
  /\ (staticFilePath co (stem ++ lit "/")
      = getStaticPath co ++ stem ++ lit "/index.html").
Proof.
  intros Hsp Hst Hnul.
  assert (Hnq : forall s, ~ In "?"%char s -> find_char "?" s = None)
    by (intros s; apply find_char_none).
  assert (Hplain : find_char "?" (getStaticPath co ++ stem) = None).
  { apply Hnq. intros Hin. apply in_app_or in Hin. tauto. }
  assert (Hq : forall query,
             staticFilePath co (stem ++ "?"%char :: query) = staticFilePath co stem).
  { intros query. unfold staticFilePath.
    assert (Hc : c_str (stem ++ "?"%char :: query) = stem ++ "?"%char :: c_str query).
    { clear - Hnul. induction stem as [|x stem IH]; [reflexivity|].
      cbn [app c_str]. destruct (Ascii.eqb x NUL) eqn:E.
      - apply Ascii.eqb_eq in E. exfalso. apply Hnul. left. auto.
      - f_equal. apply IH. intros Hin. apply Hnul. right. exact Hin. }
    rewrite Hc, (c_str_whole stem Hnul), app_assoc.
    rewrite find_char_app by (intros Hin; apply in_app_or in Hin; tauto).
    rewrite firstn_length_app, Hplain. reflexivity. }
  split; [exact Hq|]. split.
  - intros query rangeHeader c Hopen.
    rewrite !sendStaticData_path. cbv zeta. rewrite Hq.
    destruct (open_file co (c_str (staticFilePath co stem))); [reflexivity | contradiction].
  - unfold staticFilePath.
    assert (Hn2 : ~ In NUL (stem ++ lit "/")).
    { intros Hin. apply in_app_or in Hin. destruct Hin as [Hin | [Hin | []]];
        [contradiction | discriminate Hin]. }
    rewrite (c_str_whole _ Hn2).
    rewrite Hnq.
    2:{ intros Hin. apply in_app_or in Hin. destruct Hin as [Hin | Hin]; [contradiction|].
        apply in_app_or in Hin. destruct Hin as [Hin | [Hin | []]];
          [contradiction | discriminate Hin]. }
    unfold last_byte. change (lit "/") with ["/"%char].
    rewrite app_assoc, last_last.
    change (Ascii.eqb "/" "/") with true. cbv iota.
    rewrite <- !app_assoc. reflexivity.
Qed.

(** X22: a page handler that throws is answered for with a 500 that carries
    what() of the exception, or "(unknown)". *)
Theorem page_handler_exception_is_a_500 c req what :
  request c = Some req ->
  handle co req = Threw what ->
  rejected env co InternalServerError
    (match what with Some text => c_str text | None => lit "(unknown)" end)
    c (handlePageRequest env co c).
Proof.
  intros Hreq Hh. unfold handlePageRequest. rewrite Hreq, Hh.
  destruct what as [text|]; unfold sendISE; apply rejected_sendError;
    unfold same_socket; repeat split.
Qed.

Lemma sendData_output type start c :
  reliable env -> sendable c ->
  size (outBuf c) + size (dataResponse co (clock env (tick c)) type start)
    < MaxBufferSize ->
  exists c',
    sendData env co type start c = (true, c') /\
    output c' = output c ++ dataResponse co (clock env (tick c)) type start /\
    sendable c' /\ same_session c c'.
Proof.
  intros Hrel Hs Hroom. pose proof Hs as [Hw Hhe].
  unfold sendData, dataResponse in *.
  erewrite bind_eq by (apply bufferResponseAndCommonHeaders_ok;
                       [writable_now | size_lia]).
  erewrite bind_eq by (apply bufferLine_ok; [writable_now | size_lia]).
  erewrite bind_eq by (apply bufferLine_ok; [writable_now | size_lia]).
  erewrite bind_eq by (apply bufferLine_cstr_ok; [writable_now | size_lia]).
  erewrite bind_eq by (apply bufferLine_cstr_ok; [writable_now | size_lia]).
  match goal with
  | |- context [write env start true ?x] => set (c1 := x)
  end.
  assert (Hs1 : sendable c1) by exact Hs.
  destruct (write_reliable env start true c1 Hrel Hs1) as (c' & W & O & S' & _ & T).
  { unfold c1. size_lia. }
  exists c'. split; [exact W|]. split; [|split; [exact S'|]].
  - rewrite O. unfold output, c1. conn_simpl. cstr_lits.
    repeat rewrite <- app_assoc. reflexivity.
  - assert (T1 : same_session c c1) by (unfold same_session, c1; repeat split).
    exact (same_session_trans _ _ _ T1 T).
Qed.

(** X23: send404 does not always answer 404: a path that names embedded
    content is answered 200 with that content and the content type of the
    path, and /_livestats.js with the statistics document as
    text/javascript, up to its first zero byte. *)
Theorem send404_serves_embedded_content path c :
  reliable env -> sendable c ->
  (forall embedded,
     findEmbeddedContent co path = Some embedded ->
     size (outBuf c)
     + size (dataResponse co (clock env (tick c)) (getContentType path) embedded)
       < MaxBufferSize ->
     exists c',
       send404 env co path c = (true, c') /\
       output c' = output c
                   ++ dataResponse co (clock env (tick c)) (getContentType path) embedded /\
       sendable c')
  /\ (findEmbeddedContent co path = None ->
      c_str path = lit "/_livestats.js" ->
      size (outBuf c)
      + size (dataResponse co (clock env (tick c)) (lit "text/javascript")
                (c_str (getStatsDocument co)))
        < MaxBufferSize ->
      exists c',
        send404 env co path c = (true, c') /\
        output c' = output c
                    ++ dataResponse co (clock env (tick c)) (lit "text/javascript")
                         (c_str (getStatsDocument co)) /\
        sendable c').
Proof.
  intros Hrel Hs. split.
  - intros embedded He Hroom. unfold send404. rewrite He.
    destruct (sendData_output (getContentType path) embedded c Hrel Hs Hroom)
      as (c' & H1 & H2 & H3 & _).
    exists c'. auto.
  - intros He Hp Hroom. unfold send404. rewrite He.
    unfold strcmp_eq. rewrite Hp. change (c_str (lit "/_livestats.js")) with (lit "/_livestats.js").
    rewrite bytes_eqb_refl.
    destruct (sendData_output (lit "text/javascript") (c_str (getStatsDocument co)) c
                Hrel Hs Hroom) as (c' & H1 & H2 & H3 & _).
    exists c'. auto.
Qed.


Lemma bufferHeaders_ok headers : forall c,
  writable c ->
  size (outBuf c)
  + size (concat (map (fun h => fst h ++ lit ": " ++ snd h ++ crlf) headers))
    < MaxBufferSize ->
  bufferHeaders env headers c
  = (tt, set_outBuf (outBuf c
                     ++ concat (map (fun h => fst h ++ lit ": " ++ snd h ++ crlf) headers))
           c).
Proof.
  induction headers as [|[k v] rest IH]; intros c Hw Hroom.
  - cbn [bufferHeaders map concat]. rewrite app_nil_r. destruct c; reflexivity.
  - cbn [bufferHeaders map concat fst snd] in *.
    erewrite bind_eq by (apply bufferLine_ok; [writable_now | size_lia]).
    rewrite IH; [| writable_now | size_lia].
    conn_simpl. repeat rewrite <- app_assoc. reflexivity.
Qed.

(** X24: the response of a page handler with a code that is OK goes out in
    full on a socket that does not fail: the head, its length and type,
    the connection header, the caching headers, the handler's own headers
    in their order, a blank line and the payload.  The connection stays
    open when the response asks for keep-alive and ends otherwise. *)
Theorem handler_response_is_sent_in_full c req response :
  reliable env -> sendable c ->
  responseCode response <> NotFound -> isOk co (responseCode response) = true ->
  let text := handlerResponse co (clock env (tick c)) (clock env (S (tick c)))
                (clock env (S (S (tick c)))) response in
  size (outBuf c) + size text < MaxBufferSize ->
  exists c',
    sendResponse env co (Some response) req c = Some (true, c') /\
    output c' = output c ++ text /\
    (if keepConnectionAlive response then sendable c'
     else forall data flushIt, write env data flushIt c' = (false, c')).
Proof.
  intros Hrel Hs Hnf Hok text Hroom. pose proof Hs as [Hw Hhe].
  unfold sendResponse.
  destruct (responseCode response =? NotFound) eqn:E;
    [apply Z.eqb_eq in E; contradiction|].
  rewrite Hok. cbn [negb]. unfold text, handlerResponse in *.
  destruct (keepConnectionAlive response) eqn:Ek; cbn [negb];
    erewrite bind_eq by (apply bufferResponseAndCommonHeaders_ok;
                         [writable_now | size_lia]);
    erewrite bind_eq by (apply bufferLine_ok; [writable_now | size_lia]);
    erewrite bind_eq by (apply bufferLine_ok; [writable_now | size_lia]);
    erewrite bind_eq by (apply bufferLine_cstr_ok; [writable_now | size_lia]);
    erewrite bind_eq by reflexivity;
    erewrite bind_eq by (apply bufferLine_ok; [writable_now | size_lia]);
    erewrite bind_eq by (apply bufferLine_cstr_ok; [writable_now | size_lia]);
    erewrite bind_eq by (apply bufferLine_cstr_ok; [writable_now | size_lia]);
    erewrite bind_eq by reflexivity;
    erewrite bind_eq by (apply bufferLine_ok; [writable_now | size_lia]);
    erewrite bind_eq by (apply bufferHeaders_ok; [writable_now | size_lia]);
    erewrite bind_eq by (apply bufferLine_cstr_ok; [writable_now | size_lia]);
    match goal with
    | |- context [bind (write env (payload response) true) _ ?x] => set (c1 := x)
    end;
    assert (Hs1 : sendable c1) by exact Hs;
    (destruct (write_reliable env (payload response) true c1 Hrel Hs1)
       as (c2 & W & O & S2 & _ & T); [unfold c1; size_lia|]);
    erewrite bind_eq by exact W; cbn [negb];
    match goal with
    | |- context [output _ = output c ++ ?t] =>
      assert (Ho : output c2 = output c ++ t)
        by (rewrite O; unfold output, c1; conn_simpl; cstr_lits;
            repeat rewrite <- app_assoc; reflexivity)
    end.
  - exists c2. unfold bind, ret. split; [reflexivity|]. split; [exact Ho | exact S2].
  - unfold bind, ret.
    pose proof (closeWhenEmpty_output env c2) as Hco.
    assert (Hend : closed (snd (closeWhenEmpty env c2))
                   || closeOnEmpty (snd (closeWhenEmpty env c2)) = true).
    { unfold closeWhenEmpty. destruct (outBuf c2).
      - destruct (closeInternal_spec env c2) as (H1 & _).
        rewrite (closed_shutdown _ H1). reflexivity.
      - cbn [snd closeOnEmpty set_closeOnEmpty]. apply orb_true_r. }
    destruct (closeWhenEmpty env c2) as [u c3]. cbn [snd] in *.
    exists c3. split; [reflexivity|]. split; [rewrite Hco; exact Ho|].
    intros data flushIt. apply write_closed. exact Hend.
Qed.

(** X25: a request that announces a body is kept until the body is there:
    when the last Content-Length line gives a length between 1 and the cap,
    and the request is neither an upgrade nor a GET of embedded content, it
    is stored with that length and no content yet, the connection awaits
    the body, and nothing is written. *)
Theorem request_with_a_body_is_buffered c verb requestUri before line after n :
  let headerLines := before ++ line :: after in
  Forall (fun line => snd line <> None) headerLines ->
  lengthHeader line = Some n ->
  Forall (fun line => lengthHeader line = None) after ->
  0 < n <= MaxBufferSize ->
  asksUpgrade headerLines = false ->
  (verb = Get -> findEmbeddedContent co (c_str requestUri) = None) ->
  exists c',
    processHeaderLines env co verb requestUri headerLines c = Some (true, c') /\
    state c' = BUFFERING_POST_DATA /\
    option_map reqContentLength (request c') = Some n /\
    option_map reqContent (request c') = Some [] /\
    option_map reqVerb (request c') = Some verb /\
    output c' = output c /\ shutdown c' = shutdown c.
Proof.
  intros headerLines Hcolons Hlen Hafter Hn Hup Hemb.
  unfold processHeaderLines.
  set (allow := isCrossOriginAllowed co (c_str requestUri)).
  destruct (headerLoop_scan allow requestUri headerLines
              (mkHeaderScan false false [] [] 0) c Hcolons)
    as (hs & c1 & Hl & F1 & F2 & F3).
  pose proof (headerLoop_socket allow requestUri headerLines
                (mkHeaderScan false false [] [] 0) c) as Hsock.
  rewrite Hl in *. cbn [snd] in Hsock.
  cbn [haveConnectionUpgrade haveWebSocketUpgrade contentLength orb] in F1, F2, F3.
  unfold headerLines in F3. rewrite (last_length_header before line n after 0 Hlen Hafter)
    in F3.
  unfold completeRequest.
  assert (Hno : haveConnectionUpgrade hs && haveWebSocketUpgrade hs = false).
  { rewrite F1, F2. exact Hup. }
  rewrite Hno.
  assert (Hemb' : (if verb_eqb verb Get
                   then findEmbeddedContent co (c_str requestUri) else None) = None).
  { destruct verb; cbn [verb_eqb]; try reflexivity. apply Hemb. reflexivity. }
  rewrite Hemb', F3.
  destruct (MaxBufferSize <? n) eqn:E1; [apply Z.ltb_lt in E1; lia|].
  destruct (n =? 0) eqn:E2; [apply Z.eqb_eq in E2; lia|].
  eexists. split; [reflexivity|].
  destruct Hsock as (O & W & _ & _ & S & _).
  unfold output. conn_simpl. rewrite O, W, S. repeat split; reflexivity.
Qed.

End Pages.

(** ** The properties at work *)

Lemma roomy_reliable room : reliable (roomy room).
Proof.
  split; [intros t H; discriminate H | split; intros t; reflexivity].
Qed.

Lemma newConnection_sendable fd0 : fd0 <> -1 -> sendable (newConnection fd0).
Proof.
  intros H. unfold sendable, writable, closed. cbn [fd shutdown newConnection].
  apply Z.eqb_neq in H. rewrite H. repeat split.
Qed.

Ltac not_among :=
  let H := fresh in
  intros H; vm_compute in H;
  repeat (destruct H as [H | H]; [discriminate H|]); exact H.

(** A write of "hello" on a fresh connection whose socket has room. *)
Lemma write_queues_data_in_order_witness :
  let result := write (roomy 4096) (lit "hello") true (newConnection 5) in
  (fst result = true -> output (snd result) = output (newConnection 5) ++ lit "hello")
  /\ exists k, output (snd result) = output (newConnection 5) ++ firstn k (lit "hello").
Proof.
  apply (write_queues_data_in_order (roomy 4096) (lit "hello") true (newConnection 5)).
  - vm_compute. discriminate.
  - unfold capped. vm_compute. discriminate.
Defined.

(** A flush of "hello" into a socket that is full: the bytes stay queued
    and the connection asks for write events. *)
Lemma write_events_follow_pending_output_witness :
  let c := set_outBuf (lit "hello") (newConnection 5) in
  let c' := snd (flush congested c) in
  registeredForWriteEvents c' = true <-> outBuf c' <> [].
Proof.
  intros c c'.
  apply (write_events_follow_pending_output congested c c').
  - vm_compute. reflexivity.
  - intros _. vm_compute. discriminate.
Defined.

(** A text frame of five bytes. *)
Lemma sendHybi_writes_one_frame_witness :
  let c := newConnection 5 in
  let c' := snd (sendHybi (roomy 4096) OPCODE_TEXT (lit "hello") c) in
  output c' = output c ++ hybiFrame OPCODE_TEXT (lit "hello")
  /\ sendable c' /\ same_session c c'.
Proof.
  apply (sendHybi_writes_one_frame (roomy 4096) OPCODE_TEXT (lit "hello") (newConnection 5)).
  - apply roomy_reliable.
  - apply newConnection_sendable. discriminate.
  - vm_compute. reflexivity.
Defined.

(** A length of two bytes against one of eight. *)
Lemma hybi_length_field_is_unambiguous_witness :
  (hybiLength 300 = hybiLength 70000 -> 300 = 70000)
  /\ byte_val (hd NUL (hybiLength 300)) < 128.
Proof.
  apply (hybi_length_field_is_unambiguous 300 70000); lia.
Defined.

(** "hello" from one Hixie connection to another. *)
Lemma hixie_text_round_trip_witness :
  let frame := hixieFrame (c_str (lit "hello")) in
  output (snd (send_text (roomy 4096) (lit "hello") hixieConnection))
  = output hixieConnection ++ frame
  /\ exists p',
       handleHixieWebSocket (roomy 4096) (set_inBuf frame hixieConnection) = Some p' /\
       events p' = events hixieConnection ++ [OnDataText 7%nat (c_str (lit "hello"))] /\
       inBuf p' = [] /\ shutdown p' = shutdown hixieConnection.
Proof.
  apply (hixie_text_round_trip (roomy 4096) (roomy 4096) hixieConnection hixieConnection
           7%nat (lit "hello")).
  - apply roomy_reliable.
  - repeat split.
  - reflexivity.
  - vm_compute. reflexivity.
  - reflexivity.
  - not_among.
Defined.

(** A Hixie buffer that begins with "x". *)
Lemma hixie_frame_must_begin_with_zero_witness :
  let c := set_inBuf (lit "xyz") hixieConnection in
  exists c',
    handleHixieWebSocket (roomy 4096) c = Some c' /\
    shutdown c' = true /\ shutdownByUser c' = shutdownByUser c /\
    events c' = events c /\ inBuf c' = inBuf c /\ output c' = output c.
Proof.
  apply (hixie_frame_must_begin_with_zero (roomy 4096)
           (set_inBuf (lit "xyz") hixieConnection) "x"%char (lit "yz")).
  - reflexivity.
  - discriminate.
Defined.

(** A ping with the payload "abc". *)
Lemma hybi_ping_is_answered_with_pong_witness :
  let co := standInsWith (oneMessage Ping) (fun _ => NoResponse) (fun _ => None) in
  let c := set_inBuf (lit "abc") hybiConnection in
  exists c',
    handleHybiWebSocket (roomy 4096) co c = Some c' /\
    output c' = output c ++ hybiFrame OPCODE_PONG (lit "abc") /\
    events c' = events c /\ inBuf c' = skipn 3 (inBuf c).
Proof.
  apply (hybi_ping_is_answered_with_pong (roomy 4096)
           (standInsWith (oneMessage Ping) (fun _ => NoResponse) (fun _ => None))
           (set_inBuf (lit "abc") hybiConnection) (lit "abc") 3%nat [] 3%nat).
  - apply roomy_reliable.
  - repeat split.
  - discriminate.
  - vm_compute. reflexivity.
  - reflexivity.
  - reflexivity.
Defined.

(** A close frame. *)
Lemma hybi_close_and_error_shut_down_witness :
  let co := standInsWith (oneMessage Close) (fun _ => NoResponse) (fun _ => None) in
  let c := set_inBuf (lit "abc") hybiConnection in
  exists c',
    handleHybiWebSocket (roomy 4096) co c = Some c' /\
    shutdown c' = true /\ shutdownByUser c' = shutdownByUser c /\
    events c' = events c /\ inBuf c' = inBuf c /\ output c' = output c.
Proof.
  apply (hybi_close_and_error_shut_down (roomy 4096)
           (standInsWith (oneMessage Close) (fun _ => NoResponse) (fun _ => None))
           (set_inBuf (lit "abc") hybiConnection) Close (lit "abc") 3%nat).
  - discriminate.
  - reflexivity.
  - left. reflexivity.
Defined.

(** A binary message with a zero byte in it. *)
Lemma hybi_binary_message_is_delivered_whole_witness :
  let co := standInsWith (oneMessage BinaryMessage) (fun _ => NoResponse) (fun _ => None) in
  let message := ["a"%char; NUL; "b"%char] in
  let c := set_inBuf message hybiConnection in
  exists c',
    handleHybiWebSocket (roomy 4096) co c = Some c' /\
    events c' = events c ++ [OnDataBinary 7%nat message] /\
    inBuf c' = skipn 3 (inBuf c) /\ output c' = output c.
Proof.
  apply (hybi_binary_message_is_delivered_whole (roomy 4096)
           (standInsWith (oneMessage BinaryMessage) (fun _ => NoResponse) (fun _ => None))
           (set_inBuf ["a"%char; NUL; "b"%char] hybiConnection) 7%nat
           ["a"%char; NUL; "b"%char] 3%nat [] 3%nat).
  - reflexivity.
  - discriminate.
  - reflexivity.
  - reflexivity.
Defined.

(** Three bytes of a request line, with no end of the headers in sight. *)
Lemma headers_without_end_wait_or_are_refused_witness :
  let c := set_inBuf (lit "GET") (newConnection 5) in
  (size (inBuf c) <= MaxHeadersSize ->
   handleHeaders (roomy 4096) standIns (fun c => Some c) c = Some c)
  /\ (MaxHeadersSize < size (inBuf c) ->
      exists c',
        handleHeaders (roomy 4096) standIns (fun c => Some c) c = Some c' /\
        inBuf c' = inBuf c /\ state c' = state c /\ events c' = events c /\
        (writable c ->
         size (outBuf c)
         + size (errorResponse standIns NotImplemented (clock (roomy 4096) (tick c))
                   (lit "Headers too big"))
           < MaxBufferSize ->
         output c' = output c
                     ++ errorResponse standIns NotImplemented (clock (roomy 4096) (tick c))
                          (lit "Headers too big"))).
Proof.
  apply (headers_without_end_wait_or_are_refused (roomy 4096) standIns (fun c => Some c)
           (set_inBuf (lit "GET") (newConnection 5))).
  intros pre post H. apply (f_equal (@length ascii)) in H.
  rewrite !length_app in H. simpl in H. lia.
Defined.

(** A 400 sent on a fresh connection. *)
Lemma error_response_ends_the_connection_witness :
  let c' := snd (sendError (roomy 4096) standIns BadRequest (lit "no") (newConnection 5)) in
  (shutdown c' = true \/ (closeOnEmpty c' = true /\ outBuf c' <> []))
  /\ forall data flushIt, write (roomy 4096) data flushIt c' = (false, c').
Proof.
  apply (error_response_ends_the_connection (roomy 4096) standIns BadRequest (lit "no")
           (newConnection 5)).
  vm_compute. reflexivity.
Defined.

(** A request line and a Host line. *)
Lemma extractLines_reads_the_lines_back_witness :
  extractLines (concat (map (fun l => l ++ crlf) [lit "GET / HTTP/1.1"; lit "Host: x"]))
               [] 0%nat None
  = map (fun l => (l, find_char ":" l)) [lit "GET / HTTP/1.1"; lit "Host: x"].
Proof.
  apply (extractLines_reads_the_lines_back [lit "GET / HTTP/1.1"; lit "Host: x"]).
  constructor; [not_among | constructor; [not_among | constructor]].
Defined.

(** "hello" and "world" out of "hello world". *)
Lemma ranges_are_copied_in_order_witness :
  let content := lit "hello world" in
  let ranges := [mkRange 0 4; mkRange 6 10] in
  exists c',
    copyRanges (roomy 4096) content ranges (newConnection 5) = Some (true, c') /\
    output c' = output (newConnection 5) ++ concat (map (slice content) ranges) /\
    sendable c' /\ same_session (newConnection 5) c'.
Proof.
  apply (ranges_are_copied_in_order (roomy 4096) (lit "hello world")
           [mkRange 0 4; mkRange 6 10] (newConnection 5)).
  - apply roomy_reliable.
  - apply newConnection_sendable. discriminate.
  - repeat (constructor; [vm_compute; repeat split; discriminate|]). constructor.
  - vm_compute. reflexivity.
Defined.

(** GET / on a server whose files are the one page. *)
Lemma static_file_is_served_whole_witness :
  let co := standInsWith shortTextDecoder (fun _ => NoResponse) oneFile in
  let input := mkFile (lit "<h1>hello</h1>") 0 in
  let head := staticHead co (clock (roomy 4096) 0) (clock (roomy 4096) 1)
                (lit "/srv/www/index.html") input in
  exists c',
    sendStaticData (roomy 4096) co (lit "/") [] (newConnection 5) = Some (true, c') /\
    output c' = output (newConnection 5) ++ head ++ file_content input /\
    sendable c' /\ same_session (newConnection 5) c'.
Proof.
  apply (static_file_is_served_whole (roomy 4096)
           (standInsWith shortTextDecoder (fun _ => NoResponse) oneFile)
           (newConnection 5) (lit "/") (mkFile (lit "<h1>hello</h1>") 0)).
  - apply roomy_reliable.
  - apply newConnection_sendable. discriminate.
  - reflexivity.
  - vm_compute. reflexivity.
Defined.

(** /a.txt with a query, and /a.txt/ as a directory. *)
Lemma query_string_is_ignored_for_static_files_witness :
  let co := standInsWith shortTextDecoder (fun _ => NoResponse) oneFile in
  (forall query,
     staticFilePath co (lit "/a.txt" ++ "?"%char :: query) = staticFilePath co (lit "/a.txt"))
  /\ (forall query rangeHeader c,
        open_file co (c_str (staticFilePath co (lit "/a.txt"))) <> None ->
        sendStaticData (roomy 4096) co (lit "/a.txt" ++ "?"%char :: query) rangeHeader c
        = sendStaticData (roomy 4096) co (lit "/a.txt") rangeHeader c)
  /\ (staticFilePath co (lit "/a.txt" ++ lit "/")
      = getStaticPath co ++ lit "/a.txt" ++ lit "/index.html").
Proof.
  apply (query_string_is_ignored_for_static_files (roomy 4096)
           (standInsWith shortTextDecoder (fun _ => NoResponse) oneFile) (lit "/a.txt"));
    not_among.
Defined.

(** A page handler that throws "boom". *)
Lemma page_handler_exception_is_a_500_witness :
  let co := standInsWith shortTextDecoder (fun _ => Threw (Some (lit "boom")))
              (fun _ => None) in
  let c := set_request (Some (mkRequest (lit "/") Get 0 [] [])) (newConnection 5) in
  rejected (roomy 4096) co InternalServerError (lit "boom") c
           (handlePageRequest (roomy 4096) co c).
Proof.
  apply (page_handler_exception_is_a_500 (roomy 4096)
           (standInsWith shortTextDecoder (fun _ => Threw (Some (lit "boom")))
              (fun _ => None))
           (set_request (Some (mkRequest (lit "/") Get 0 [] [])) (newConnection 5))
           (mkRequest (lit "/") Get 0 [] []) (Some (lit "boom")));
    reflexivity.
Defined.

(** The embedded content at /x. *)
Lemma send404_serves_embedded_content_witness :
  exists c',
    send404 (roomy 4096) withEmbedded (lit "/x") (newConnection 5) = (true, c') /\
    output c' = output (newConnection 5)
                ++ dataResponse withEmbedded (clock (roomy 4096) 0)
                     (getContentType (lit "/x")) (lit "hello") /\
    sendable c'.
Proof.
  destruct (send404_serves_embedded_content (roomy 4096) withEmbedded (lit "/x")
              (newConnection 5) (roomy_reliable 4096)
              (newConnection_sendable 5 ltac:(discriminate))) as [H _].
  apply (H (lit "hello")).
  - reflexivity.
  - vm_compute. reflexivity.
Defined.

(** A 200 with one header of the handler's own. *)
Lemma handler_response_is_sent_in_full_witness :
  let response := mkResponse 200 (lit "hi") (lit "text/plain") true
                    [(lit "X-Served-By", lit "test")] in
  exists c',
    sendResponse (roomy 4096) standIns (Some response)
      (mkRequest (lit "/") Get 0 [] []) (newConnection 5) = Some (true, c') /\
    output c' = output (newConnection 5)
                ++ handlerResponse standIns (clock (roomy 4096) 0) (clock (roomy 4096) 1)
                     (clock (roomy 4096) 2) response /\
    sendable c'.
Proof.
  apply (handler_response_is_sent_in_full (roomy 4096) standIns (newConnection 5)
           (mkRequest (lit "/") Get 0 [] [])
           (mkResponse 200 (lit "hi") (lit "text/plain") true
              [(lit "X-Served-By", lit "test")])).
  - apply roomy_reliable.
  - apply newConnection_sendable. discriminate.
  - vm_compute. discriminate.
  - reflexivity.
  - vm_compute. reflexivity.
Defined.

(** POST /form with a body of five bytes announced. *)
Lemma request_with_a_body_is_buffered_witness :
  let headerLines := [] ++ (lit "Content-Length: 5", Some 14%nat)
                        :: [(lit "Host: x", Some 4%nat)] in
  exists c',
    processHeaderLines (roomy 4096) standIns Post (lit "/form") headerLines
      (newConnection 5) = Some (true, c') /\
    state c' = BUFFERING_POST_DATA /\
    option_map reqContentLength (request c') = Some 5 /\
    option_map reqContent (request c') = Some [] /\
    option_map reqVerb (request c') = Some Post /\
    output c' = output (newConnection 5) /\ shutdown c' = shutdown (newConnection 5).
Proof.
  apply (request_with_a_body_is_buffered (roomy 4096) standIns (newConnection 5) Post
           (lit "/form") [] (lit "Content-Length: 5", Some 14%nat)
           [(lit "Host: x", Some 4%nat)] 5).
  - repeat (constructor; [discriminate|]). constructor.
  - vm_compute. reflexivity.
  - repeat (constructor; [vm_compute; reflexivity|]). constructor.
  - vm_compute. split; [reflexivity | discriminate].
  - vm_compute. reflexivity.
  - intros H. discriminate H.
Defined.

(** ** The engine at work *)

(** A Hybi upgrade read in one piece: 101, then frames are awaited. *)
Example hybi_upgrade_in_one_read :
  option_map (fun c => (state c, events c, firstn 12 (wire c), inBuf c))
    (handleDataReadyForRead (roomy 4096) standIns
       (ReadData (lit "GET /ws HTTP/1.1" ++ crlf
                  ++ lit "Host: x" ++ crlf
                  ++ lit "Upgrade: websocket" ++ crlf
                  ++ lit "Connection: Upgrade" ++ crlf
                  ++ lit "Sec-WebSocket-Key: dGhlIHNhbXBsZSBub25jZQ==" ++ crlf
                  ++ lit "Sec-WebSocket-Version: 13" ++ crlf ++ crlf))
       (newConnection 5))
  = Some (HANDLING_HYBI_WEBSOCKET, [OnConnect 7%nat], lit "HTTP/1.1 101", []).
Proof. vm_compute. reflexivity. Qed.

(** A Hixie upgrade with Key3 in the same read, then the frame "hello". *)
Example hixie_upgrade_then_hello :
  option_map (fun c => (state c, events c, shutdown c))
    (readTwice (roomy 4096) standIns
       (lit "GET /ws HTTP/1.1" ++ crlf
        ++ lit "Host: x" ++ crlf
        ++ lit "Upgrade: websocket" ++ crlf
        ++ lit "Connection: Upgrade" ++ crlf
        ++ lit "Sec-WebSocket-Key1: 18x 6]8vM;54 *(5:  {   U1]8  z [  8" ++ crlf
        ++ lit "Sec-WebSocket-Key2: 1_ tx7X d  <  nw  334J702) 7]o}` 0" ++ crlf
        ++ crlf ++ lit "Tm[K T2u")
       (NUL :: lit "hello" ++ [byte_of 255])
       (newConnection 5))
  = Some (HANDLING_HIXIE_WEBSOCKET,
          [OnConnect 7%nat; OnDataText 7%nat (lit "hello")], false).
Proof. vm_compute. reflexivity. Qed.

(** The two Hixie keys of that request. *)
Example hixie_keys_of_the_draft :
  parseWebSocketKey (lit "18x 6]8vM;54 *(5:  {   U1]8  z [  8") = 155712099 /\
  parseWebSocketKey (lit "1_ tx7X d  <  nw  334J702) 7]o}` 0") = 173347027.
Proof. split; vm_compute; reflexivity. Qed.

(** A request with Content-Length: -1 is answered 400 and the connection
    closes once the response is out. *)
Example negative_content_length_in_one_read :
  option_map (fun c => (firstn 24 (wire c), shutdown c, state c))
    (handleDataReadyForRead (roomy 4096) standIns
       (ReadData (lit "POST /x HTTP/1.1" ++ crlf
                  ++ lit "Content-Length: -1" ++ crlf ++ crlf))
       (newConnection 5))
  = Some (lit "HTTP/1.1 400 Bad Request", true, READING_HEADERS).
Proof. vm_compute. reflexivity. Qed.

(** More than 16384 bytes of an unfinished Hixie frame close the connection:
    this is the case the size check does catch. *)
Example unfinished_hixie_frame_over_limit_closes :
  option_map (fun c => (events c, shutdown c))
    (readTwice (roomy 4096) standIns
       (NUL :: repeat "a"%char (Z.to_nat 16383))
       ["a"%char]
       hixieConnection)
  = Some ([], true).
Proof. vm_compute. reflexivity. Qed.
